(** * pf-tui-go: the rule compiler, the live-rule parser and the rule store

    A shallow embedding of [firewall.go] (rule model, JSON persistence,
    list editing, [GeneratePfConf]) and of [ParseLiveRules] from [pf.go].

    Go strings are byte strings: they are modelled by [string], one
    [ascii] per byte.  Go [int] indices are modelled by [Z]. *)

From Stdlib Require Import ZArith String Ascii List Bool Lia.
From stdpp Require Import base option list strings gmap.

Local Open Scope Z_scope.

#[local] Arguments String.append !_ _ / : simpl nomatch.

(** ** The parts of Go's [strings] package the program calls *)

Module GoStrings.

(** The byte 0x0A. *)
Definition nl : string := String (ascii_of_nat 10) EmptyString.

(** A byte as a number. *)
Definition byte (c : ascii) : N := N_of_ascii c.

(** [strings.HasPrefix]. *)
Fixpoint HasPrefix (s p : string) : bool :=
  match p, s with
  | EmptyString, _ => true
  | String a p', String b s' => Ascii.eqb a b && HasPrefix s' p'
  | String _ _, EmptyString => false
  end.

(** [strings.Contains]. *)
Fixpoint Contains (s substr : string) : bool :=
  HasPrefix s substr ||
  match s with
  | EmptyString => false
  | String _ s' => Contains s' substr
  end.

(** [strings.ReplaceAll(s, old, new)] for a one-byte [old]. *)
Fixpoint ReplaceAll (s : string) (old : ascii) (new : string) : string :=
  match s with
  | EmptyString => EmptyString
  | String c s' =>
      (if Ascii.eqb c old then new else String c EmptyString)
        +:+ ReplaceAll s' old new
  end.

(** [strings.Split(s, sep)] for a one-byte [sep]: the pieces between the
    separators, so always at least one piece. *)
Fixpoint Split (s : string) (sep : ascii) : list string :=
  match s with
  | EmptyString => [EmptyString]
  | String c s' =>
      if Ascii.eqb c sep then EmptyString :: Split s' sep
      else match Split s' sep with
           | [] => [String c EmptyString]
           | t :: ts => String c t :: ts
           end
  end.

(** [strings.Join(elems, sep)]. *)
Fixpoint Join (elems : list string) (sep : string) : string :=
  match elems with
  | [] => EmptyString
  | [e] => e
  | e :: es => e +:+ sep +:+ Join es sep
  end.

(** [unicode.IsSpace] on UTF-8 bytes.  One byte: tab, LF, VT, FF, CR and
    the space.  Two bytes: U+0085 and U+00A0.  Three bytes: U+1680,
    U+2000..U+200A, U+2028, U+2029, U+202F, U+205F and U+3000. *)
Definition space1 (c : ascii) : bool :=
  let n := byte c in
  ((9 <=? n) && (n <=? 13) || (n =? 32))%N.

Definition space2 (c1 c2 : ascii) : bool :=
  ((byte c1 =? 194) && ((byte c2 =? 133) || (byte c2 =? 160)))%N.

Definition space3 (c1 c2 c3 : ascii) : bool :=
  let a := byte c1 in let b := byte c2 in let c := byte c3 in
  ((a =? 225) && (b =? 154) && (c =? 128)
   || (a =? 226) && (b =? 128)
      && ((128 <=? c) && (c <=? 138) || (c =? 168) || (c =? 169) || (c =? 175))
   || (a =? 226) && (b =? 129) && (c =? 159)
   || (a =? 227) && (b =? 128) && (c =? 128))%N.

(** [strings.TrimLeftFunc(s, unicode.IsSpace)]: a white-space rune at the
    head is dropped, anything else (an invalid byte too) stops the scan. *)
Fixpoint trimLeftSpace (s : string) : string :=
  match s with
  | String c1 r1 =>
      if space1 c1 then trimLeftSpace r1 else
      match r1 with
      | String c2 r2 =>
          if space2 c1 c2 then trimLeftSpace r2 else
          match r2 with
          | String c3 r3 => if space3 c1 c2 c3 then trimLeftSpace r3 else s
          | EmptyString => s
          end
      | EmptyString => s
      end
  | EmptyString => s
  end.

(** The same scan from the right end, on the reversed string (Go decodes the
    last rune backwards). *)
Fixpoint trimLeftSpaceRev (s : string) : string :=
  match s with
  | String c1 r1 =>
      if space1 c1 then trimLeftSpaceRev r1 else
      match r1 with
      | String c2 r2 =>
          if space2 c2 c1 then trimLeftSpaceRev r2 else
          match r2 with
          | String c3 r3 => if space3 c3 c2 c1 then trimLeftSpaceRev r3 else s
          | EmptyString => s
          end
      | EmptyString => s
      end
  | EmptyString => s
  end.

(** [strings.TrimSpace]. *)
Definition TrimSpace (s : string) : string :=
  String.rev (trimLeftSpaceRev (String.rev (trimLeftSpace s))).

(** [strings.Fields]: the maximal runs of bytes between white-space runes.
    [cur] is the field being read. *)
Definition flush (cur : string) (rest : list string) : list string :=
  match cur with
  | EmptyString => rest
  | _ => cur :: rest
  end.

Fixpoint fieldsFrom (s cur : string) : list string :=
  match s with
  | String c1 r1 =>
      let keep := fieldsFrom r1 (cur +:+ String c1 EmptyString) in
      if space1 c1 then flush cur (fieldsFrom r1 EmptyString) else
      match r1 with
      | String c2 r2 =>
          if space2 c1 c2 then flush cur (fieldsFrom r2 EmptyString) else
          match r2 with
          | String c3 r3 =>
              if space3 c1 c2 c3 then flush cur (fieldsFrom r3 EmptyString)
              else keep
          | EmptyString => keep
          end
      | EmptyString => keep
      end
  | EmptyString => flush cur []
  end.

Definition Fields (s : string) : list string := fieldsFrom s EmptyString.

End GoStrings.

Import GoStrings.

(** ** The rule model *)

(** [FirewallRule]: one filter rule. *)
Record FirewallRule := mkFirewallRule {
  Action : string;
  Direction : string;
  Quick : bool;
  Interface : string;
  Protocol : string;
  Source : string;
  Destination : string;
  Port : string;
  KeepState : bool;
  Description : string
}.

(** [PortForwardingRule]: one redirection rule.  Its fields live in a module
    of their own because three of them share a name with [FirewallRule]'s. *)
Module Rdr.
Record PortForwardingRule := mkPortForwardingRule {
  Interface : string;
  Protocol : string;
  ExternalIP : string;
  ExternalPort : string;
  InternalIP : string;
  InternalPort : string;
  Description : string
}.

(** [PortForwardingRule{}], the zero value. *)
Definition zeroRule : PortForwardingRule := mkPortForwardingRule "" "" "" "" "" "" "".

(** Field assignments [rule.F = v]. *)
Definition setInterface (v : string) (r : PortForwardingRule) : PortForwardingRule :=
  mkPortForwardingRule v (Protocol r) (ExternalIP r) (ExternalPort r) (InternalIP r)
    (InternalPort r) (Description r).
Definition setProtocol (v : string) (r : PortForwardingRule) : PortForwardingRule :=
  mkPortForwardingRule (Interface r) v (ExternalIP r) (ExternalPort r) (InternalIP r)
    (InternalPort r) (Description r).
Definition setExternalIP (v : string) (r : PortForwardingRule) : PortForwardingRule :=
  mkPortForwardingRule (Interface r) (Protocol r) v (ExternalPort r) (InternalIP r)
    (InternalPort r) (Description r).
Definition setExternalPort (v : string) (r : PortForwardingRule) : PortForwardingRule :=
  mkPortForwardingRule (Interface r) (Protocol r) (ExternalIP r) v (InternalIP r)
    (InternalPort r) (Description r).
Definition setInternalIP (v : string) (r : PortForwardingRule) : PortForwardingRule :=
  mkPortForwardingRule (Interface r) (Protocol r) (ExternalIP r) (ExternalPort r) v
    (InternalPort r) (Description r).
Definition setInternalPort (v : string) (r : PortForwardingRule) : PortForwardingRule :=
  mkPortForwardingRule (Interface r) (Protocol r) (ExternalIP r) (ExternalPort r)
    (InternalIP r) v (Description r).
Definition setDescription (v : string) (r : PortForwardingRule) : PortForwardingRule :=
  mkPortForwardingRule (Interface r) (Protocol r) (ExternalIP r) (ExternalPort r)
    (InternalIP r) (InternalPort r) v.
End Rdr.
Abbreviation PortForwardingRule := Rdr.PortForwardingRule.

(** [Config]: both ordered rule lists.  A slice is modelled by the list of its
    elements. *)
Record Config := mkConfig {
  FirewallRules : list FirewallRule;
  PortForwardingRules : list PortForwardingRule
}.

Definition any : string := "any".
Definition isAny (s : string) : bool := String.eqb s any.

(** ** The compiler: [GeneratePfConf] *)

Section Compiler.

(** [fmt.Sprintf("# %s\n", d)] when the description is not empty. *)
Definition commentLine (d : string) : string :=
  if String.eqb d "" then "" else "# " +:+ d +:+ nl.

(** The body of the first loop: the redirect statement of one rule. *)
Definition rdrStr (rule : PortForwardingRule) : string :=
  if isAny (Rdr.Interface rule) then
    "rdr proto " +:+ Rdr.Protocol rule +:+ " from any to " +:+ Rdr.ExternalIP rule
      +:+ " port " +:+ Rdr.ExternalPort rule +:+ " -> " +:+ Rdr.InternalIP rule
      +:+ " port " +:+ Rdr.InternalPort rule
  else
    let toPart :=
      if isAny (Rdr.ExternalIP rule) then "(" +:+ Rdr.Interface rule +:+ ")"
      else Rdr.ExternalIP rule in
    "rdr on " +:+ Rdr.Interface rule +:+ " proto " +:+ Rdr.Protocol rule
      +:+ " from any to " +:+ toPart
      +:+ " port " +:+ Rdr.ExternalPort rule +:+ " -> " +:+ Rdr.InternalIP rule
      +:+ " port " +:+ Rdr.InternalPort rule.

Definition rdrText (rule : PortForwardingRule) : string :=
  commentLine (Rdr.Description rule) +:+ rdrStr rule +:+ nl.

(** The [protocols] slice of the second loop. *)
Definition protocols (rule : FirewallRule) : list string :=
  if isAny (Protocol rule) && negb (isAny (Port rule)) then ["tcp"; "udp"]
  else Split (Protocol rule) ",".

(** The port string of the port clause. *)
Definition portStr (port : string) : string :=
  if Contains port "," || Contains port "-" || Contains port ":"
  then "{" +:+ ReplaceAll port "-" ":" +:+ "}"
  else port.

(** What is appended to [parts] before the match criteria. *)
Definition headParts (rule : FirewallRule) : list string :=
  [Action rule; Direction rule]
    ++ (if Quick rule then ["quick"] else [])
    ++ (if isAny (Interface rule) then [] else ["on"; Interface rule]).

Definition protoParts (proto : string) : list string :=
  if isAny proto then [] else ["proto"; proto].

Definition addrParts (rule : FirewallRule) : list string :=
  if negb (isAny (Source rule)) || negb (isAny (Destination rule))
  then ["from"; Source rule; "to"; Destination rule]
  else if isAny (Source rule) && isAny (Destination rule) && negb (isAny (Port rule))
       then ["from"; "any"; "to"; "any"]
       else [].

Definition portParts (rule : FirewallRule) (proto : string) : list string :=
  if negb (isAny (Port rule)) && (String.eqb proto "tcp" || String.eqb proto "udp")
  then ["port"; portStr (Port rule)]
  else [].

Definition stateParts (rule : FirewallRule) : list string :=
  if KeepState rule then ["keep state"] else [].

(** The [parts] slice built in the inner loop for the trimmed token
    [proto]. *)
Definition ruleParts (rule : FirewallRule) (proto : string) : list string :=
  headParts rule
    ++ (if isAny proto && isAny (Source rule) && isAny (Destination rule)
           && isAny (Port rule)
        then ["all"]
        else protoParts proto ++ addrParts rule ++ portParts rule proto)
    ++ stateParts rule.

(** One pass of the inner loop: the line written for the token [tok]. *)
Definition ruleLine (rule : FirewallRule) (tok : string) : string :=
  Join (ruleParts rule (TrimSpace tok)) " " +:+ nl.

(** The lines written for one filter rule, comment line apart. *)
Definition ruleLines (rule : FirewallRule) : list string :=
  map (ruleLine rule) (protocols rule).

Definition concatStr (l : list string) : string :=
  fold_right String.append EmptyString l.

Definition ruleText (rule : FirewallRule) : string :=
  commentLine (Description rule) +:+ concatStr (ruleLines rule).

(** [GeneratePfConf]: the builder receives the redirect statements first,
    then the filter rules, each list in document order. *)
Definition GeneratePfConf (c : Config) : string :=
  concatStr (map rdrText (PortForwardingRules c))
    +:+ concatStr (map ruleText (FirewallRules c)).

End Compiler.

(** The two worked examples of the compiler. *)
Definition webRule : FirewallRule :=
  mkFirewallRule "pass" "in" false "any" "any" "any" "any" "22,80" true "web".

Definition webFwd : PortForwardingRule :=
  Rdr.mkPortForwardingRule "en0" "tcp" "any" "8080" "192.168.1.5" "80" "web fwd".

(** A port written with decimal digits only. *)
Definition isDigit (c : ascii) : bool := ((48 <=? byte c) && (byte c <=? 57))%N.

Fixpoint allDigits (s : string) : bool :=
  match s with
  | EmptyString => true
  | String c s' => isDigit c && allDigits s'
  end.

(** [occurs c s]: the byte [c] is one of the bytes of [s]. *)
Fixpoint occurs (c : ascii) (s : string) : bool :=
  match s with
  | EmptyString => false
  | String a s' => Ascii.eqb c a || occurs c s'
  end.


(** The number of line feeds in a text, and the rules none of whose match
    fields has one. *)
Fixpoint countNl (s : string) : nat :=
  match s with
  | EmptyString => 0%nat
  | String c s' => ((if Ascii.eqb c (ascii_of_nat 10) then 1 else 0) + countNl s')%nat
  end.

Definition oneLine (s : string) : bool := (countNl s =? 0)%nat.


(** ** The live-rule parser: [ParseLiveRules] *)

(** What a call does: it returns, or the run-time system stops the program
    with a panic. *)
Inductive panic := IndexOutOfRange.

Inductive outcome (A : Type) :=
  | Returns (a : A)
  | Panics (p : panic).
Arguments Returns {A} a.
Arguments Panics {A} p.

(** [FirewallRule{}], the zero value. *)
Definition zeroRule : FirewallRule :=
  mkFirewallRule "" "" false "" "" "" "" "" false "".

(** Field assignments [rule.F = v]. *)
Definition setAction (v : string) (r : FirewallRule) : FirewallRule :=
  mkFirewallRule v (Direction r) (Quick r) (Interface r) (Protocol r) (Source r)
    (Destination r) (Port r) (KeepState r) (Description r).
Definition setDirection (v : string) (r : FirewallRule) : FirewallRule :=
  mkFirewallRule (Action r) v (Quick r) (Interface r) (Protocol r) (Source r)
    (Destination r) (Port r) (KeepState r) (Description r).
Definition setQuick (v : bool) (r : FirewallRule) : FirewallRule :=
  mkFirewallRule (Action r) (Direction r) v (Interface r) (Protocol r) (Source r)
    (Destination r) (Port r) (KeepState r) (Description r).
Definition setInterface (v : string) (r : FirewallRule) : FirewallRule :=
  mkFirewallRule (Action r) (Direction r) (Quick r) v (Protocol r) (Source r)
    (Destination r) (Port r) (KeepState r) (Description r).
Definition setProtocol (v : string) (r : FirewallRule) : FirewallRule :=
  mkFirewallRule (Action r) (Direction r) (Quick r) (Interface r) v (Source r)
    (Destination r) (Port r) (KeepState r) (Description r).
Definition setSource (v : string) (r : FirewallRule) : FirewallRule :=
  mkFirewallRule (Action r) (Direction r) (Quick r) (Interface r) (Protocol r) v
    (Destination r) (Port r) (KeepState r) (Description r).
Definition setDestination (v : string) (r : FirewallRule) : FirewallRule :=
  mkFirewallRule (Action r) (Direction r) (Quick r) (Interface r) (Protocol r)
    (Source r) v (Port r) (KeepState r) (Description r).
Definition setPort (v : string) (r : FirewallRule) : FirewallRule :=
  mkFirewallRule (Action r) (Direction r) (Quick r) (Interface r) (Protocol r)
    (Source r) (Destination r) v (KeepState r) (Description r).
Definition setKeepState (v : bool) (r : FirewallRule) : FirewallRule :=
  mkFirewallRule (Action r) (Direction r) (Quick r) (Interface r) (Protocol r)
    (Source r) (Destination r) (Port r) v (Description r).
Definition setDescription (v : string) (r : FirewallRule) : FirewallRule :=
  mkFirewallRule (Action r) (Direction r) (Quick r) (Interface r) (Protocol r)
    (Source r) (Destination r) (Port r) (KeepState r) v.

(** The loop [for i := 2; i < len(parts); i++] with its [switch]: [rest] is
    [parts[i:]].  A keyword that takes a value moves [i] once more and reads
    [parts[i]] with no check that there is one; [keep] moves [i] without
    reading [parts[i]]. *)
Fixpoint scanParts (rest : list string) (rule : FirewallRule) : outcome FirewallRule :=
  match rest with
  | [] => Returns rule
  | tok :: rest1 =>
      if String.eqb tok "quick" then scanParts rest1 (setQuick true rule)
      else if String.eqb tok "on" then
        match rest1 with
        | [] => Panics IndexOutOfRange
        | v :: rest2 => scanParts rest2 (setInterface v rule)
        end
      else if String.eqb tok "proto" then
        match rest1 with
        | [] => Panics IndexOutOfRange
        | v :: rest2 => scanParts rest2 (setProtocol v rule)
        end
      else if String.eqb tok "from" then
        match rest1 with
        | [] => Panics IndexOutOfRange
        | v :: rest2 => scanParts rest2 (setSource v rule)
        end
      else if String.eqb tok "to" then
        match rest1 with
        | [] => Panics IndexOutOfRange
        | v :: rest2 => scanParts rest2 (setDestination v rule)
        end
      else if String.eqb tok "port" then
        match rest1 with
        | [] => Panics IndexOutOfRange
        | v :: rest2 => scanParts rest2 (setPort v rule)
        end
      else if String.eqb tok "keep" then
        match rest1 with
        | [] => Returns (setKeepState true rule)
        | _ :: rest2 => scanParts rest2 (setKeepState true rule)
        end
      else scanParts rest1 rule
  end.

(** One pass of the loop over the lines: [None] when the line is skipped. *)
Definition parseLine (line : string) : outcome (option FirewallRule) :=
  if String.eqb (TrimSpace line) "" then Returns None
  else
    let parts := Fields line in
    if (length parts <? 4)%nat then Returns None
    else
      match parts with
      | action :: direction :: rest =>
          match scanParts rest (setDirection direction (setAction action zeroRule)) with
          | Returns rule => Returns (Some rule)
          | Panics p => Panics p
          end
      | _ => Returns None
      end.

Fixpoint parseLines (lines : list string) (rules : list FirewallRule)
    : outcome (list FirewallRule) :=
  match lines with
  | [] => Returns rules
  | line :: lines' =>
      match parseLine line with
      | Returns None => parseLines lines' rules
      | Returns (Some rule) => parseLines lines' (rules ++ [rule])
      | Panics p => Panics p
      end
  end.

(** [ParseLiveRules]: the rules read; the error it returns is always [nil]. *)
Definition ParseLiveRules (output : string) : outcome (list FirewallRule) :=
  parseLines (Split output (ascii_of_nat 10)) [].

(** The tokens the loop of [ParseLiveRules] acts on. *)
Definition isKeyword (tok : string) : bool :=
  String.eqb tok "quick" || String.eqb tok "on" || String.eqb tok "proto"
  || String.eqb tok "from" || String.eqb tok "to" || String.eqb tok "port"
  || String.eqb tok "keep".

(** ** The parts of Go's [encoding/json] the rule store calls

    [json.MarshalIndent] and [json.Unmarshal] at the type [*Config], from
    the package's documentation: the struct tags give the key names, strings
    are coerced to valid UTF-8 in both directions, and [Unmarshal] decodes
    into the value it is given. *)

Module Json.

Definition dq : ascii := ascii_of_N 34.
Definition bs : ascii := ascii_of_N 92.
Definition str1 (c : ascii) : string := String c EmptyString.

(** *** UTF-8 *)

Definition cont (c : ascii) : bool := ((128 <=? byte c) && (byte c <=? 191))%N.

(** The well-formed sequences of two, three and four bytes
    ([utf8.DecodeRune] returns [RuneError] with width 1 on anything else). *)
Definition valid2 (c1 c2 : ascii) : bool :=
  ((194 <=? byte c1) && (byte c1 <=? 223))%N && cont c2.

Definition valid3 (c1 c2 c3 : ascii) : bool :=
  let a := byte c1 in let b := byte c2 in
  ((a =? 224) && (160 <=? b) && (b <=? 191)
   || ((225 <=? a) && (a <=? 236) || (a =? 238) || (a =? 239)) && cont c2
   || (a =? 237) && (128 <=? b) && (b <=? 159))%N
  && cont c3.

Definition valid4 (c1 c2 c3 c4 : ascii) : bool :=
  let a := byte c1 in let b := byte c2 in
  ((a =? 240) && (144 <=? b) && (b <=? 191)
   || (241 <=? a) && (a <=? 243) && cont c2
   || (a =? 244) && (128 <=? b) && (b <=? 143))%N
  && cont c3 && cont c4.

(** U+2028 and U+2029. *)
Definition lineSep (c1 c2 c3 : ascii) : bool :=
  ((byte c1 =? 226) && (byte c2 =? 128) && ((byte c3 =? 168) || (byte c3 =? 169)))%N.

(** U+FFFD, the replacement rune. *)
Definition replacement : string :=
  String (ascii_of_N 239) (String (ascii_of_N 191) (str1 (ascii_of_N 189))).

(** [utf8.EncodeRune]. *)
Definition EncodeRune (r : N) : string :=
  (if r <? 128 then str1 (ascii_of_N r)
   else if r <? 2048 then
     String (ascii_of_N (192 + r / 64)) (str1 (ascii_of_N (128 + r mod 64)))
   else if (55296 <=? r) && (r <=? 57343) || (1114111 <? r) then replacement
   else if r <? 65536 then
     String (ascii_of_N (224 + r / 4096))
       (String (ascii_of_N (128 + (r / 64) mod 64)) (str1 (ascii_of_N (128 + r mod 64))))
   else
     String (ascii_of_N (240 + r / 262144))
       (String (ascii_of_N (128 + (r / 4096) mod 64))
          (String (ascii_of_N (128 + (r / 64) mod 64))
             (str1 (ascii_of_N (128 + r mod 64))))))%N.

(** Whether every byte of the string belongs to a well-formed sequence. *)
Fixpoint ValidString (s : string) : bool :=
  match s with
  | EmptyString => true
  | String c1 r1 =>
      if (byte c1 <? 128)%N then ValidString r1 else
      match r1 with
      | String c2 r2 =>
          if valid2 c1 c2 then ValidString r2 else
          match r2 with
          | String c3 r3 =>
              if valid3 c1 c2 c3 then ValidString r3 else
              match r3 with
              | String c4 r4 => if valid4 c1 c2 c3 c4 then ValidString r4 else false
              | EmptyString => false
              end
          | EmptyString => false
          end
      | EmptyString => false
      end
  end.

(** [strings.ToValidUTF8(s, "�")] byte by byte: what a string becomes
    when it is written and read back. *)
Fixpoint coerce (s : string) : string :=
  match s with
  | EmptyString => EmptyString
  | String c1 r1 =>
      let bad := replacement +:+ coerce r1 in
      if (byte c1 <? 128)%N then String c1 (coerce r1) else
      match r1 with
      | String c2 r2 =>
          if valid2 c1 c2 then String c1 (String c2 (coerce r2)) else
          match r2 with
          | String c3 r3 =>
              if valid3 c1 c2 c3 then String c1 (String c2 (String c3 (coerce r3))) else
              match r3 with
              | String c4 r4 =>
                  if valid4 c1 c2 c3 c4
                  then String c1 (String c2 (String c3 (String c4 (coerce r4))))
                  else bad
              | EmptyString => bad
              end
          | EmptyString => bad
          end
      | EmptyString => bad
      end
  end.

(** *** Writing strings: [appendString] with HTML escaping *)

Definition hexDigit (n : N) : ascii :=
  (if n <? 10 then ascii_of_N (48 + n) else ascii_of_N (87 + n))%N.

(** [htmlSafeSet]: the bytes 0x20..0x7F but the quote, the backslash and
    the three characters [<], [>] and [&]. *)
Definition htmlSafe (c : ascii) : bool :=
  let n := byte c in
  ((32 <=? n) && (n <? 128)
   && negb ((n =? 34) || (n =? 38) || (n =? 60) || (n =? 62) || (n =? 92)))%N.

(** What is written for a byte below 0x80 (Go 1.22 and later; earlier
    releases write the backspace and the form feed as [\u0008] and
    [\u000c], which read back as the same bytes). *)
Definition escapeByte (c : ascii) : string :=
  let n := byte c in
  (if htmlSafe c then str1 c
   else if (n =? 92) || (n =? 34) then String bs (str1 c)
   else if n =? 8 then String bs "b"
   else if n =? 12 then String bs "f"
   else if n =? 10 then String bs "n"
   else if n =? 13 then String bs "r"
   else if n =? 9 then String bs "t"
   else String bs (String "u" (String "0" (String "0"
          (String (hexDigit (n / 16)) (str1 (hexDigit (n mod 16))))))))%N.

Definition escapedReplacement : string := String bs "ufffd".

(** U+2028 and U+2029 are written as escapes; [c3] is their last byte. *)
Definition escapedLineSep (c3 : ascii) : string :=
  String bs ("u202" +:+ str1 (hexDigit (byte c3 mod 16))).

(** The body of the string literal written for [s]. *)
Fixpoint escape (s : string) : string :=
  match s with
  | EmptyString => EmptyString
  | String c1 r1 =>
      let bad := escapedReplacement +:+ escape r1 in
      if (byte c1 <? 128)%N then escapeByte c1 +:+ escape r1 else
      match r1 with
      | String c2 r2 =>
          if valid2 c1 c2 then String c1 (String c2 (escape r2)) else
          match r2 with
          | String c3 r3 =>
              if valid3 c1 c2 c3 then
                (if lineSep c1 c2 c3 then escapedLineSep c3
                 else String c1 (String c2 (str1 c3)))
                +:+ escape r3
              else
              match r3 with
              | String c4 r4 =>
                  if valid4 c1 c2 c3 c4
                  then String c1 (String c2 (String c3 (String c4 (escape r4))))
                  else bad
              | EmptyString => bad
              end
          | EmptyString => bad
          end
      | EmptyString => bad
      end
  end.

Definition quote (s : string) : string := String dq (escape s +:+ str1 dq).

(** *** Reading strings: [unquote] *)

Definition hexVal (c : ascii) : option N :=
  let n := byte c in
  (if (48 <=? n) && (n <=? 57) then Some (n - 48)
   else if (97 <=? n) && (n <=? 102) then Some (n - 87)
   else if (65 <=? n) && (n <=? 70) then Some (n - 55)
   else None)%N.

(** [getu4] on the four bytes after a backslash and [u]. *)
Definition getu4 (h1 h2 h3 h4 : ascii) : option N :=
  match hexVal h1, hexVal h2, hexVal h3, hexVal h4 with
  | Some a, Some b, Some c, Some d => Some (a * 4096 + b * 256 + c * 16 + d)%N
  | _, _, _, _ => None
  end.

(** [utf16.IsSurrogate]. *)
Definition isSurrogate (r : N) : bool := ((55296 <=? r) && (r <? 57344))%N.

(** [utf16.DecodeRune]: the rune of a surrogate pair, or U+FFFD. *)
Definition decodePair (r1 r2 : N) : N :=
  (if (55296 <=? r1) && (r1 <? 56320) && (56320 <=? r2) && (r2 <? 57344)
   then (r1 - 55296) * 1024 + (r2 - 56320) + 65536
   else 65533)%N.

(** The second half of a surrogate pair at the head of [s], if there. *)
Definition secondHalf (s : string) : option N :=
  match s with
  | String b (String u (String h1 (String h2 (String h3 (String h4 _))))) =>
      if Ascii.eqb b bs && Ascii.eqb u "u" then getu4 h1 h2 h3 h4 else None
  | _ => None
  end.

Definition prepend (p : string) (o : option string) : option string :=
  match o with
  | Some s => Some (p +:+ s)
  | None => None
  end.

(** The text of a string literal from what stands between its quotes;
    [None] when that is not the body of a JSON string (a control byte, a
    bare quote, an unknown escape). *)
Fixpoint unquote (raw : string) : option string :=
  match raw with
  | EmptyString => Some EmptyString
  | String c1 r1 =>
      if Ascii.eqb c1 bs then
        match r1 with
        | String e r2 =>
            if Ascii.eqb e dq || Ascii.eqb e bs || Ascii.eqb e "/"
            then prepend (str1 e) (unquote r2)
            else if Ascii.eqb e "b" then prepend (str1 (ascii_of_N 8)) (unquote r2)
            else if Ascii.eqb e "f" then prepend (str1 (ascii_of_N 12)) (unquote r2)
            else if Ascii.eqb e "n" then prepend (str1 (ascii_of_N 10)) (unquote r2)
            else if Ascii.eqb e "r" then prepend (str1 (ascii_of_N 13)) (unquote r2)
            else if Ascii.eqb e "t" then prepend (str1 (ascii_of_N 9)) (unquote r2)
            else if Ascii.eqb e "u" then
              match r2 with
              | String h1 (String h2 (String h3 (String h4 r6))) =>
                  match getu4 h1 h2 h3 h4 with
                  | Some rr =>
                      if isSurrogate rr then
                        match r6 with
                        | String _ (String _ (String _ (String _ (String _ (String _ r12))))) =>
                            match secondHalf r6 with
                            | Some rr1 =>
                                if (decodePair rr rr1 =? 65533)%N
                                then prepend replacement (unquote r6)
                                else prepend (EncodeRune (decodePair rr rr1)) (unquote r12)
                            | None => prepend replacement (unquote r6)
                            end
                        | _ => prepend replacement (unquote r6)
                        end
                      else prepend (EncodeRune rr) (unquote r6)
                  | None => None
                  end
              | _ => None
              end
            else None
        | EmptyString => None
        end
      else if Ascii.eqb c1 dq || (byte c1 <? 32)%N then None
      else if (byte c1 <? 128)%N then prepend (str1 c1) (unquote r1)
      else
        let bad := prepend replacement (unquote r1) in
        match r1 with
        | String c2 r2 =>
            if valid2 c1 c2 then prepend (String c1 (str1 c2)) (unquote r2) else
            match r2 with
            | String c3 r3 =>
                if valid3 c1 c2 c3
                then prepend (String c1 (String c2 (str1 c3))) (unquote r3) else
                match r3 with
                | String c4 r4 =>
                    if valid4 c1 c2 c3 c4
                    then prepend (String c1 (String c2 (String c3 (str1 c4)))) (unquote r4)
                    else bad
                | EmptyString => bad
                end
            | EmptyString => bad
            end
        | EmptyString => bad
        end
  end.

(** *** Tokens *)

Inductive token :=
  | TLBrace | TRBrace | TLBracket | TRBracket | TColon | TComma
  | TString (raw : string)
  | TNumber (lit : string)
  | TTrue | TFalse | TNull.

(** Where the scanner stands inside a number. *)
Inductive numstate :=
  | NNeg | NZero | NInt | NDot | NFrac | NE | NESign | NExp.

Definition numDone (st : numstate) : bool :=
  match st with
  | NZero | NInt | NFrac | NExp => true
  | _ => false
  end.

Definition isExp (c : ascii) : bool := Ascii.eqb c "e" || Ascii.eqb c "E".
Definition isSign (c : ascii) : bool := Ascii.eqb c "+" || Ascii.eqb c "-".

(** The next state inside a number, [None] when [c] does not continue it. *)
Definition numStep (st : numstate) (c : ascii) : option numstate :=
  match st with
  | NNeg => if Ascii.eqb c "0" then Some NZero else if isDigit c then Some NInt else None
  | NZero => if Ascii.eqb c "." then Some NDot else if isExp c then Some NE else None
  | NInt => if isDigit c then Some NInt
            else if Ascii.eqb c "." then Some NDot else if isExp c then Some NE else None
  | NDot => if isDigit c then Some NFrac else None
  | NFrac => if isDigit c then Some NFrac else if isExp c then Some NE else None
  | NE => if isSign c then Some NESign else if isDigit c then Some NExp else None
  | NESign => if isDigit c then Some NExp else None
  | NExp => if isDigit c then Some NExp else None
  end.

Inductive lexmode :=
  | LStart
  | LString (raw : string) (esc : bool)
  | LNumber (lit : string) (st : numstate)
  | LWord (rest : string) (tok : token).

(** The tokens read so far, last first, and the mode. *)
Definition lexstate : Type := list token * lexmode.

(** The four bytes of JSON white space. *)
Definition isSpace (c : ascii) : bool :=
  let n := byte c in ((n =? 32) || (n =? 9) || (n =? 13) || (n =? 10))%N.

(** A byte met between tokens. *)
Definition lexStart (toks : list token) (c : ascii) : option lexstate :=
  if isSpace c then Some (toks, LStart)
  else if Ascii.eqb c "{" then Some (TLBrace :: toks, LStart)
  else if Ascii.eqb c "}" then Some (TRBrace :: toks, LStart)
  else if Ascii.eqb c "[" then Some (TLBracket :: toks, LStart)
  else if Ascii.eqb c "]" then Some (TRBracket :: toks, LStart)
  else if Ascii.eqb c ":" then Some (TColon :: toks, LStart)
  else if Ascii.eqb c "," then Some (TComma :: toks, LStart)
  else if Ascii.eqb c dq then Some (toks, LString EmptyString false)
  else if Ascii.eqb c "-" then Some (toks, LNumber (str1 c) NNeg)
  else if Ascii.eqb c "0" then Some (toks, LNumber (str1 c) NZero)
  else if isDigit c then Some (toks, LNumber (str1 c) NInt)
  else if Ascii.eqb c "t" then Some (toks, LWord "rue" TTrue)
  else if Ascii.eqb c "f" then Some (toks, LWord "alse" TFalse)
  else if Ascii.eqb c "n" then Some (toks, LWord "ull" TNull)
  else None.

Definition lexStep (st : lexstate) (c : ascii) : option lexstate :=
  let (toks, mode) := st in
  match mode with
  | LStart => lexStart toks c
  | LString raw esc =>
      if esc then Some (toks, LString (raw +:+ str1 c) false)
      else if Ascii.eqb c bs then Some (toks, LString (raw +:+ str1 c) true)
      else if Ascii.eqb c dq then Some (TString raw :: toks, LStart)
      else Some (toks, LString (raw +:+ str1 c) false)
  | LNumber lit ns =>
      match numStep ns c with
      | Some ns' => Some (toks, LNumber (lit +:+ str1 c) ns')
      | None => if numDone ns then lexStart (TNumber lit :: toks) c else None
      end
  | LWord rest tok =>
      match rest with
      | String x EmptyString => if Ascii.eqb c x then Some (tok :: toks, LStart) else None
      | String x rest' => if Ascii.eqb c x then Some (toks, LWord rest' tok) else None
      | EmptyString => None
      end
  end.

Fixpoint lexRun (s : string) (st : lexstate) : option lexstate :=
  match s with
  | EmptyString => Some st
  | String c s' =>
      match lexStep st c with
      | Some st' => lexRun s' st'
      | None => None
      end
  end.

(** The end of the input. *)
Definition lexEnd (st : lexstate) : option (list token) :=
  let (toks, mode) := st in
  match mode with
  | LStart => Some (rev toks)
  | LNumber lit ns => if numDone ns then Some (rev (TNumber lit :: toks)) else None
  | _ => None
  end.

Definition lex (s : string) : option (list token) :=
  match lexRun s ([], LStart) with
  | Some st => lexEnd st
  | None => None
  end.

(** *** Values *)

#[local] Unset Elimination Schemes.
Inductive json :=
  | JNull
  | JBool (b : bool)
  | JNumber (lit : string)
  | JString (s : string)
  | JArray (elems : list json)
  | JObject (members : list (string * json)).
#[local] Set Elimination Schemes.

(** An open array or object: what it holds so far, last first, and for an
    object the key whose value is being read. *)
Inductive frame :=
  | FArray (elems : list json)
  | FObject (members : list (string * json)) (key : option string).

(** What the parser expects next. *)
Inductive phase :=
  | PValue          (* a value *)
  | PValueOrEnd     (* just after an opening bracket *)
  | PKeyOrEnd       (* just after an opening brace *)
  | PKey            (* after a comma inside an object *)
  | PColon
  | PCommaOrEnd     (* after a value inside an array or an object *)
  | PDone (v : json).

Definition pstate : Type := list frame * phase.

(** [maxNestingDepth]. *)
Definition maxNestingDepth : N := 10000.

(** A finished value goes to the innermost open array or object. *)
Definition deliver (v : json) (stack : list frame) : option pstate :=
  match stack with
  | [] => Some ([], PDone v)
  | FArray elems :: stack' => Some (FArray (v :: elems) :: stack', PCommaOrEnd)
  | FObject members (Some k) :: stack' =>
      Some (FObject ((k, v) :: members) None :: stack', PCommaOrEnd)
  | FObject _ None :: _ => None
  end.

Definition open (f : frame) (ph : phase) (stack : list frame) : option pstate :=
  if (N.of_nat (length stack) <? maxNestingDepth)%N then Some (f :: stack, ph) else None.

(** A token where a value may start. *)
Definition startValue (stack : list frame) (t : token) : option pstate :=
  match t with
  | TLBrace => open (FObject [] None) PKeyOrEnd stack
  | TLBracket => open (FArray []) PValueOrEnd stack
  | TString raw =>
      match unquote raw with
      | Some s => deliver (JString s) stack
      | None => None
      end
  | TNumber lit => deliver (JNumber lit) stack
  | TTrue => deliver (JBool true) stack
  | TFalse => deliver (JBool false) stack
  | TNull => deliver JNull stack
  | _ => None
  end.

Definition closeArray (stack : list frame) : option pstate :=
  match stack with
  | FArray elems :: stack' => deliver (JArray (rev elems)) stack'
  | _ => None
  end.

Definition closeObject (stack : list frame) : option pstate :=
  match stack with
  | FObject members None :: stack' => deliver (JObject (rev members)) stack'
  | _ => None
  end.

Definition readKey (stack : list frame) (t : token) : option pstate :=
  match t, stack with
  | TString raw, FObject members None :: stack' =>
      match unquote raw with
      | Some k => Some (FObject members (Some k) :: stack', PColon)
      | None => None
      end
  | _, _ => None
  end.

Definition parseStep (st : pstate) (t : token) : option pstate :=
  let (stack, ph) := st in
  match ph with
  | PValue => startValue stack t
  | PValueOrEnd =>
      match t with
      | TRBracket => closeArray stack
      | _ => startValue stack t
      end
  | PKeyOrEnd =>
      match t with
      | TRBrace => closeObject stack
      | _ => readKey stack t
      end
  | PKey => readKey stack t
  | PColon =>
      match t with
      | TColon => Some (stack, PValue)
      | _ => None
      end
  | PCommaOrEnd =>
      match t, stack with
      | TComma, FArray _ :: _ => Some (stack, PValue)
      | TComma, FObject _ _ :: _ => Some (stack, PKey)
      | TRBracket, _ => closeArray stack
      | TRBrace, _ => closeObject stack
      | _, _ => None
      end
  | PDone _ => None
  end.

Fixpoint parseRun (toks : list token) (st : pstate) : option pstate :=
  match toks with
  | [] => Some st
  | t :: toks' =>
      match parseStep st t with
      | Some st' => parseRun toks' st'
      | None => None
      end
  end.

(** The value a text denotes; [None] is a syntax error. *)
Definition parse (data : string) : option json :=
  match lex data with
  | Some toks =>
      match parseRun toks ([], PValue) with
      | Some ([], PDone v) => Some v
      | _ => None
      end
  | None => None
  end.

(** *** Decoding into the rule document *)

Inductive jsonError :=
  | SyntaxError
  | UnmarshalTypeError (value : string) (goType : string).

Definition kind (v : json) : string :=
  match v with
  | JNull => "null"
  | JBool _ => "bool"
  | JNumber _ => "number"
  | JString _ => "string"
  | JArray _ => "array"
  | JObject _ => "object"
  end.

(** [saveError] keeps the first error. *)
Definition first (e1 e2 : option jsonError) : option jsonError :=
  match e1 with
  | Some _ => e1
  | None => e2
  end.

(** [foldName]: ASCII letters in upper case; the two other runes that fold
    to an ASCII letter are U+017F (to S) and U+212A (to K). *)
Fixpoint foldName (s : string) : string :=
  match s with
  | EmptyString => EmptyString
  | String c1 r1 =>
      let n := byte c1 in
      if ((97 <=? n) && (n <=? 122))%N then String (ascii_of_N (n - 32)) (foldName r1)
      else
        match r1 with
        | String c2 r2 =>
            if ((n =? 197) && (byte c2 =? 191))%N then String "S" (foldName r2) else
            match r2 with
            | String c3 r3 =>
                if ((n =? 226) && (byte c2 =? 132) && (byte c3 =? 170))%N
                then String "K" (foldName r3)
                else String c1 (foldName r1)
            | EmptyString => String c1 (foldName r1)
            end
        | EmptyString => String c1 (foldName r1)
        end
  end.

(** A key names a field when it is the field's tag, or is so up to case. *)
Definition fieldIs (key name : string) : bool :=
  String.eqb key name || String.eqb (foldName key) (foldName name).

(** A value stored into a [string]; [null] leaves it as it is. *)
Definition decodeString (v : json) (old : string) : string * option jsonError :=
  match v with
  | JString s => (s, None)
  | JNull => (old, None)
  | _ => (old, Some (UnmarshalTypeError (kind v) "string"))
  end.

Definition decodeBool (v : json) (old : bool) : bool * option jsonError :=
  match v with
  | JBool b => (b, None)
  | JNull => (old, None)
  | _ => (old, Some (UnmarshalTypeError (kind v) "bool"))
  end.

Definition store {A B : Type} (set : A -> B -> B) (x : A * option jsonError)
    (acc : B * option jsonError) : B * option jsonError :=
  (set (fst x) (fst acc), first (snd acc) (snd x)).

(** One member of an object stored into a [FirewallRule]; a key that names
    no field is skipped. *)
Definition decodeRuleMember (acc : FirewallRule * option jsonError)
    (m : string * json) : FirewallRule * option jsonError :=
  let r := fst acc in
  let (k, v) := m in
  if fieldIs k "action" then store setAction (decodeString v (Action r)) acc
  else if fieldIs k "direction" then store setDirection (decodeString v (Direction r)) acc
  else if fieldIs k "quick" then store setQuick (decodeBool v (Quick r)) acc
  else if fieldIs k "interface" then store setInterface (decodeString v (Interface r)) acc
  else if fieldIs k "protocol" then store setProtocol (decodeString v (Protocol r)) acc
  else if fieldIs k "source" then store setSource (decodeString v (Source r)) acc
  else if fieldIs k "destination" then
    store setDestination (decodeString v (Destination r)) acc
  else if fieldIs k "port" then store setPort (decodeString v (Port r)) acc
  else if fieldIs k "keep_state" then store setKeepState (decodeBool v (KeepState r)) acc
  else if fieldIs k "description" then
    store setDescription (decodeString v (Description r)) acc
  else acc.

Definition decodeRule (v : json) (old : FirewallRule) : FirewallRule * option jsonError :=
  match v with
  | JObject members => fold_left decodeRuleMember members (old, None)
  | JNull => (old, None)
  | _ => (old, Some (UnmarshalTypeError (kind v) "main.FirewallRule"))
  end.

Definition decodeRdrMember (acc : PortForwardingRule * option jsonError)
    (m : string * json) : PortForwardingRule * option jsonError :=
  let r := fst acc in
  let (k, v) := m in
  if fieldIs k "interface" then store Rdr.setInterface (decodeString v (Rdr.Interface r)) acc
  else if fieldIs k "protocol" then store Rdr.setProtocol (decodeString v (Rdr.Protocol r)) acc
  else if fieldIs k "external_ip" then
    store Rdr.setExternalIP (decodeString v (Rdr.ExternalIP r)) acc
  else if fieldIs k "external_port" then
    store Rdr.setExternalPort (decodeString v (Rdr.ExternalPort r)) acc
  else if fieldIs k "internal_ip" then
    store Rdr.setInternalIP (decodeString v (Rdr.InternalIP r)) acc
  else if fieldIs k "internal_port" then
    store Rdr.setInternalPort (decodeString v (Rdr.InternalPort r)) acc
  else if fieldIs k "description" then
    store Rdr.setDescription (decodeString v (Rdr.Description r)) acc
  else acc.

Definition decodeRdr (v : json) (old : PortForwardingRule)
    : PortForwardingRule * option jsonError :=
  match v with
  | JObject members => fold_left decodeRdrMember members (old, None)
  | JNull => (old, None)
  | _ => (old, Some (UnmarshalTypeError (kind v) "main.PortForwardingRule"))
  end.

(** The elements of an array stored into a slice: element [i] is decoded
    into the slice's element [i] when it has one, into the zero value
    otherwise (the spare capacity of the old slice is left out of the
    model), and the slice ends up as long as the array. *)
Fixpoint decodeElems {A : Type} (dec : json -> A -> A * option jsonError) (zero : A)
    (elems : list json) (old : list A) : list A * option jsonError :=
  match elems with
  | [] => ([], None)
  | v :: elems' =>
      let x := dec v (hd zero old) in
      let xs := decodeElems dec zero elems' (tl old) in
      (fst x :: fst xs, first (snd x) (snd xs))
  end.

(** A value stored into a slice; [null] empties it. *)
Definition decodeSlice {A : Type} (dec : json -> A -> A * option jsonError) (zero : A)
    (goType : string) (v : json) (old : list A) : list A * option jsonError :=
  match v with
  | JArray elems => decodeElems dec zero elems old
  | JNull => ([], None)
  | _ => (old, Some (UnmarshalTypeError (kind v) goType))
  end.

Definition setFirewallRules (l : list FirewallRule) (c : Config) : Config :=
  mkConfig l (PortForwardingRules c).
Definition setPortForwardingRules (l : list PortForwardingRule) (c : Config) : Config :=
  mkConfig (FirewallRules c) l.

Definition decodeConfigMember (acc : Config * option jsonError)
    (m : string * json) : Config * option jsonError :=
  let c := fst acc in
  let (k, v) := m in
  if fieldIs k "filter_rules" then
    store setFirewallRules
      (decodeSlice decodeRule zeroRule "[]main.FirewallRule" v (FirewallRules c)) acc
  else if fieldIs k "rdr_rules" then
    store setPortForwardingRules
      (decodeSlice decodeRdr Rdr.zeroRule "[]main.PortForwardingRule" v
         (PortForwardingRules c)) acc
  else acc.

(** A value stored into the [Config] that [old] is: the members of an
    object are stored one after the other, so a field whose key is not in
    the object keeps the value it has in [old]. *)
Definition decodeConfig (v : json) (old : Config) : Config * option jsonError :=
  match v with
  | JObject members => fold_left decodeConfigMember members (old, None)
  | JNull => (old, None)
  | _ => (old, Some (UnmarshalTypeError (kind v) "main.Config"))
  end.

(** [json.Unmarshal(data, c)] for [c] pointing to the [Config] [old]: what
    [*c] is afterwards, and the error returned.  The syntax of the whole
    input is checked before anything is stored. *)
Definition Unmarshal (data : string) (old : Config) : Config * option jsonError :=
  match parse data with
  | Some v => decodeConfig v old
  | None => (old, Some SyntaxError)
  end.

(** *** Writing the rule document *)

(** A key and the colon, as [Indent] spaces them. *)
Definition key (name : string) : string := String dq (name +:+ String dq ": ").

Definition printBool (b : bool) : string := if b then "true" else "false".

(** A line break and the indentation of depth [n] (two spaces a level). *)
Definition br (n : nat) : string :=
  nl +:+ match n with
         | 0%nat => ""
         | 1%nat => "  "
         | 2%nat => "    "
         | _ => "      "
         end.

Definition printRule (r : FirewallRule) : string :=
  "{" +:+ br 3 +:+ key "action" +:+ quote (Action r)
    +:+ "," +:+ br 3 +:+ key "direction" +:+ quote (Direction r)
    +:+ "," +:+ br 3 +:+ key "quick" +:+ printBool (Quick r)
    +:+ "," +:+ br 3 +:+ key "interface" +:+ quote (Interface r)
    +:+ "," +:+ br 3 +:+ key "protocol" +:+ quote (Protocol r)
    +:+ "," +:+ br 3 +:+ key "source" +:+ quote (Source r)
    +:+ "," +:+ br 3 +:+ key "destination" +:+ quote (Destination r)
    +:+ "," +:+ br 3 +:+ key "port" +:+ quote (Port r)
    +:+ "," +:+ br 3 +:+ key "keep_state" +:+ printBool (KeepState r)
    +:+ "," +:+ br 3 +:+ key "description" +:+ quote (Description r)
    +:+ br 2 +:+ "}".

Definition printRdr (r : PortForwardingRule) : string :=
  "{" +:+ br 3 +:+ key "interface" +:+ quote (Rdr.Interface r)
    +:+ "," +:+ br 3 +:+ key "protocol" +:+ quote (Rdr.Protocol r)
    +:+ "," +:+ br 3 +:+ key "external_ip" +:+ quote (Rdr.ExternalIP r)
    +:+ "," +:+ br 3 +:+ key "external_port" +:+ quote (Rdr.ExternalPort r)
    +:+ "," +:+ br 3 +:+ key "internal_ip" +:+ quote (Rdr.InternalIP r)
    +:+ "," +:+ br 3 +:+ key "internal_port" +:+ quote (Rdr.InternalPort r)
    +:+ "," +:+ br 3 +:+ key "description" +:+ quote (Rdr.Description r)
    +:+ br 2 +:+ "}".

(** The elements after the first, each after a comma and a line break. *)
Fixpoint printMore {A : Type} (pr : A -> string) (l : list A) : string :=
  match l with
  | [] => EmptyString
  | x :: l' => "," +:+ br 2 +:+ pr x +:+ printMore pr l'
  end.

(** A slice: [[]] when it has no element. *)
Definition printSlice {A : Type} (pr : A -> string) (l : list A) : string :=
  match l with
  | [] => "[]"
  | x :: l' => "[" +:+ br 2 +:+ pr x +:+ printMore pr l' +:+ br 1 +:+ "]"
  end.

(** [json.MarshalIndent(c, "", "  ")]; it has no way to fail on a
    [Config].  (A nil slice, which Go writes as [null] and reads back as
    nil, is the empty list here.) *)
Definition MarshalIndent (c : Config) : string :=
  "{" +:+ br 1 +:+ key "filter_rules" +:+ printSlice printRule (FirewallRules c)
    +:+ "," +:+ br 1 +:+ key "rdr_rules" +:+ printSlice printRdr (PortForwardingRules c)
    +:+ br 0 +:+ "}".

End Json.

(** ** The rule store

    The files are a finite map from paths to contents: a file has one path,
    and reading, writing and renaming fail only when the file to read or to
    rename is not there.  [defaultConfigPath] is what [getDefaultConfigPath]
    returns, [None] when [os.UserHomeDir] fails.  The log file written by
    [LogInfo], [LogWarn] and [LogError] is not one of the files. *)

Record World := mkWorld {
  defaultConfigPath : option string;
  files : gmap string string
}.

(** The manager's document [*fm.Config] and the world around it. *)
Record Store := mkStore {
  config : Config;
  world : World
}.

Inductive error :=
  | ErrHomeDir                          (* from [os.UserHomeDir] *)
  | ErrNotExist (path : string)         (* [fs.ErrNotExist] on [path] *)
  | ErrJson (e : Json.jsonError)        (* from [json.Unmarshal] *)
  | ErrInvalidIndex                     (* [fmt.Errorf("invalid rule index")] *)
  | ErrWrap (msg : string) (e : error). (* [fmt.Errorf(msg + ": %w", e)] *)

Inductive result (A : Type) :=
  | Ok (a : A)
  | Err (e : error).
Arguments Ok {A} a.
Arguments Err {A} e.

(** A method of the manager: it reads and changes the store and returns a
    value or an error. *)
Definition M (A : Type) : Type := Store -> result A * Store.

Definition ret {A : Type} (a : A) : M A := fun s => (Ok a, s).
Definition fail {A : Type} (e : error) : M A := fun s => (Err e, s).
Definition bind {A B : Type} (m : M A) (k : A -> M B) : M B :=
  fun s =>
    match m s with
    | (Ok a, s') => k a s'
    | (Err e, s') => (Err e, s')
    end.

Declare Scope store_scope.
Delimit Scope store_scope with store.
Notation "'do' x <- m ; k" := (bind m (fun x => k))
  (at level 10, x name, m at level 100, k at level 200) : store_scope.
Local Open Scope store_scope.

(** [fmt.Errorf(msg + ": %w", err)] around a call. *)
Definition wrap {A : Type} (msg : string) (m : M A) : M A :=
  fun s =>
    match m s with
    | (Err e, s') => (Err (ErrWrap msg e), s')
    | r => r
    end.

Definition getConfig : M Config := fun s => (Ok (config s), s).
Definition setConfig (c : Config) : M unit := fun s => (Ok tt, mkStore c (world s)).
Definition getFiles : M (gmap string string) := fun s => (Ok (files (world s)), s).
Definition setFiles (fs : gmap string string) : M unit :=
  fun s => (Ok tt, mkStore (config s) (mkWorld (defaultConfigPath (world s)) fs)).

Definition getDefaultConfigPath : M string :=
  fun s =>
    match defaultConfigPath (world s) with
    | Some path => (Ok path, s)
    | None => (Err ErrHomeDir, s)
    end.

(** [os.Stat(path)]: whether it returns no error; its error is then
    [fs.ErrNotExist]. *)
Definition Stat (path : string) : M bool :=
  do fs <- getFiles; ret (bool_decide (is_Some (fs !! path))).

Definition ReadFile (path : string) : M string :=
  do fs <- getFiles;
  match fs !! path with
  | Some data => ret data
  | None => fail (ErrNotExist path)
  end.

Definition WriteFile (path data : string) : M unit :=
  do fs <- getFiles; setFiles (<[path := data]> fs).

(** [os.Rename]: the file takes the new path, replacing a file there. *)
Definition Rename (oldpath newpath : string) : M unit :=
  do fs <- getFiles;
  match fs !! oldpath with
  | Some data => setFiles (<[newpath := data]> (delete oldpath fs))
  | None => fail (ErrNotExist oldpath)
  end.

(** [os.MkdirAll(filepath.Dir(path), 0755)]: directories are not files. *)
Definition MkdirAll (path : string) : M unit := ret tt.

(** [&Config{FirewallRules: []FirewallRule{}, PortForwardingRules: ...}]. *)
Definition emptyConfig : Config := mkConfig [] [].

(** [LoadConfig]. *)
Definition LoadConfig : M unit :=
  do path <- getDefaultConfigPath;
  do fs <- getFiles;
  match fs !! path with
  | None => setConfig emptyConfig
  | Some data =>
      do c <- getConfig;
      let (c', e) := Json.Unmarshal data c in
      do _ <- setConfig c';
      match e with
      | Some e => fail (ErrJson e)
      | None => ret tt
      end
  end.

(** [ImportConfigFile]. *)
Definition ImportConfigFile (sourcePath : string) : M unit :=
  do defaultPath <- getDefaultConfigPath;
  do present <- Stat defaultPath;
  do _ <- (if present : bool
           then wrap "failed to create backup" (Rename defaultPath (defaultPath +:+ ".bak"))
           else ret tt);
  do data <- wrap "failed to read import file" (ReadFile sourcePath);
  do _ <- MkdirAll defaultPath;
  do _ <- wrap "failed to write new config file" (WriteFile defaultPath data);
  LoadConfig.

(** [SaveConfig]. *)
Definition SaveConfig : M unit :=
  do path <- getDefaultConfigPath;
  do _ <- MkdirAll path;
  do c <- getConfig;
  WriteFile path (Json.MarshalIndent c).

(** [SaveConfigAs]. *)
Definition SaveConfigAs (path : string) : M unit :=
  do _ <- MkdirAll path;
  do c <- getConfig;
  WriteFile path (Json.MarshalIndent c).

(** [index < 0 || index >= len(rules)]. *)
Definition outOfRange {A : Type} (index : Z) (rules : list A) : bool :=
  (index <? 0) || (index >=? Z.of_nat (length rules)).

(** [append(rules[:index], rules[index+1:]...)]. *)
Definition removeAt {A : Type} (index : Z) (rules : list A) : list A :=
  take (Z.to_nat index) rules ++ drop (Z.to_nat (index + 1)) rules.

(** [AddFirewallRule]. *)
Definition AddFirewallRule (rule : FirewallRule) : M unit :=
  do _ <- LoadConfig;
  do c <- getConfig;
  do _ <- setConfig (Json.setFirewallRules (FirewallRules c ++ [rule]) c);
  SaveConfig.

(** [UpdateFirewallRule]. *)
Definition UpdateFirewallRule (index : Z) (rule : FirewallRule) : M unit :=
  do _ <- LoadConfig;
  do c <- getConfig;
  if outOfRange index (FirewallRules c) then fail ErrInvalidIndex
  else
    do _ <- setConfig (Json.setFirewallRules (<[Z.to_nat index := rule]> (FirewallRules c)) c);
    SaveConfig.

(** [DeleteFirewallRule]. *)
Definition DeleteFirewallRule (index : Z) : M unit :=
  do _ <- LoadConfig;
  do c <- getConfig;
  if outOfRange index (FirewallRules c) then fail ErrInvalidIndex
  else
    do _ <- setConfig (Json.setFirewallRules (removeAt index (FirewallRules c)) c);
    SaveConfig.

(** The body shared by [MoveFirewallRule] and [MovePortForwardingRule]: the
    rule list after the call. *)
Definition moveRule {A : Type} (from to : Z) (rules : list A) : list A :=
  if outOfRange from rules || outOfRange to rules then rules
  else if from =? to then rules
  else
    match rules !! Z.to_nat from with
    | Some rule =>
        let tmp := removeAt from rules in
        take (Z.to_nat to) tmp ++ [rule] ++ drop (Z.to_nat to) tmp
    | None => rules
    end.

(** Where the rule at position [j] of the list after a move stood before it,
    for [j] other than [to]: the positions between the two indices move by
    one, towards [from]. *)
Definition movedFrom (from to j : nat) : nat :=
  let k := if (j <? to)%nat then j else (j - 1)%nat in
  if (k <? from)%nat then k else S k.

(** [MoveFirewallRule]. *)
Definition MoveFirewallRule (from to : Z) : M unit :=
  do c <- getConfig;
  setConfig (Json.setFirewallRules (moveRule from to (FirewallRules c)) c).

(** [AddPortForwardingRule]. *)
Definition AddPortForwardingRule (rule : PortForwardingRule) : M unit :=
  do _ <- LoadConfig;
  do c <- getConfig;
  do _ <- setConfig (Json.setPortForwardingRules (PortForwardingRules c ++ [rule]) c);
  SaveConfig.

(** [UpdatePortForwardingRule]. *)
Definition UpdatePortForwardingRule (index : Z) (rule : PortForwardingRule) : M unit :=
  do _ <- LoadConfig;
  do c <- getConfig;
  if outOfRange index (PortForwardingRules c) then fail ErrInvalidIndex
  else
    do _ <- setConfig
      (Json.setPortForwardingRules (<[Z.to_nat index := rule]> (PortForwardingRules c)) c);
    SaveConfig.

(** [DeletePortForwardingRule]. *)
Definition DeletePortForwardingRule (index : Z) : M unit :=
  do _ <- LoadConfig;
  do c <- getConfig;
  if outOfRange index (PortForwardingRules c) then fail ErrInvalidIndex
  else
    do _ <- setConfig (Json.setPortForwardingRules (removeAt index (PortForwardingRules c)) c);
    SaveConfig.

(** [MovePortForwardingRule]. *)
Definition MovePortForwardingRule (from to : Z) : M unit :=
  do c <- getConfig;
  setConfig (Json.setPortForwardingRules (moveRule from to (PortForwardingRules c)) c).

(** The world after the document [c] was written to [path]. *)
Definition written (path : string) (c : Config) (w : World) : World :=
  mkWorld (defaultConfigPath w) (<[path := Json.MarshalIndent c]> (files w)).

(** Three rules that differ by their description. *)
Definition rule_a : FirewallRule := setDescription "a" webRule.
Definition rule_b : FirewallRule := setDescription "b" webRule.
Definition rule_c : FirewallRule := setDescription "c" webRule.

(** A store for the examples: the default file at [rulesPath] holds the
    worked filter rule, the manager starts with an empty document. *)
Definition rulesPath : string := "/Users/me/.config/pf-tui/rules.json".

Definition homeWorld (fs : gmap string string) : World := mkWorld (Some rulesPath) fs.

Definition webStore : Store :=
  mkStore emptyConfig
    (homeWorld {[ rulesPath := Json.MarshalIndent (mkConfig [webRule] []) ]}).

(** A file to import that has the filter rules only, [{"filter_rules": []}],
    and one that is not there. *)
Definition importPath : string := "/Users/me/.config/pf-tui/new.json".
Definition missingPath : string := "/Users/me/.config/pf-tui/missing.json".
Definition onlyFilterRules : string := "{" +:+ Json.key "filter_rules" +:+ "[]}".

(** A store whose document has a description that is not valid UTF-8 (the
    single byte 0xFF), and no default file yet. *)
Definition rawRule : FirewallRule := setDescription (String (ascii_of_N 255) "") webRule.
Definition rawStore : Store := mkStore (mkConfig [rawRule] []) (homeWorld ∅).

(** ** Definitions for the round trip through the default file *)

(** What a rule and a document become when written and read back: every
    string coerced to valid UTF-8. *)
Definition coerceRule (r : FirewallRule) : FirewallRule :=
  mkFirewallRule (Json.coerce (Action r)) (Json.coerce (Direction r)) (Quick r)
    (Json.coerce (Interface r)) (Json.coerce (Protocol r)) (Json.coerce (Source r))
    (Json.coerce (Destination r)) (Json.coerce (Port r)) (KeepState r)
    (Json.coerce (Description r)).

Definition coerceRdr (r : PortForwardingRule) : PortForwardingRule :=
  Rdr.mkPortForwardingRule (Json.coerce (Rdr.Interface r)) (Json.coerce (Rdr.Protocol r))
    (Json.coerce (Rdr.ExternalIP r)) (Json.coerce (Rdr.ExternalPort r))
    (Json.coerce (Rdr.InternalIP r)) (Json.coerce (Rdr.InternalPort r))
    (Json.coerce (Rdr.Description r)).

Definition coerceConfig (c : Config) : Config :=
  mkConfig (map coerceRule (FirewallRules c)) (map coerceRdr (PortForwardingRules c)).

(** Every string of the rule, of the document, is valid UTF-8. *)
Definition ValidRule (r : FirewallRule) : bool :=
  Json.ValidString (Action r) && Json.ValidString (Direction r)
  && Json.ValidString (Interface r) && Json.ValidString (Protocol r)
  && Json.ValidString (Source r) && Json.ValidString (Destination r)
  && Json.ValidString (Port r) && Json.ValidString (Description r).

Definition ValidRdr (r : PortForwardingRule) : bool :=
  Json.ValidString (Rdr.Interface r) && Json.ValidString (Rdr.Protocol r)
  && Json.ValidString (Rdr.ExternalIP r) && Json.ValidString (Rdr.ExternalPort r)
  && Json.ValidString (Rdr.InternalIP r) && Json.ValidString (Rdr.InternalPort r)
  && Json.ValidString (Rdr.Description r).

Definition ValidConfig (c : Config) : bool :=
  forallb ValidRule (FirewallRules c) && forallb ValidRdr (PortForwardingRules c).

(** Scanning the inside of a string literal: [None] at a closing quote,
    otherwise whether the last byte is a backslash that escapes the next. *)
Fixpoint strScan (chunk : string) (esc : bool) : option bool :=
  match chunk with
  | EmptyString => Some esc
  | String c chunk' =>
      if esc then strScan chunk' false
      else if Ascii.eqb c Json.bs then strScan chunk' true
      else if Ascii.eqb c Json.dq then None
      else strScan chunk' false
  end.

(** A key spelled with printable ASCII bytes other than the quote and the
    backslash. *)
Fixpoint plainKey (k : string) : bool :=
  match k with
  | EmptyString => true
  | String c k' =>
      negb (Ascii.eqb c Json.bs) && negb (Ascii.eqb c Json.dq)
      && (32 <=? byte c)%N && (byte c <? 128)%N && plainKey k'
  end.

(** The text [a], wherever it stands between tokens, is read as the tokens
    [ts]. *)
Definition Closed (a : string) (ts : list Json.token) : Prop :=
  forall rest toks,
    Json.lexRun (a +:+ rest) (toks, Json.LStart) = Json.lexRun rest (rev ts ++ toks, Json.LStart).

(** The tokens [ts], where a value may start inside at most [depth] open
    arrays and objects, are read as the value [v]. *)
Definition starts (ph : Json.phase) : Prop := ph = Json.PValue \/ ph = Json.PValueOrEnd.

Definition Delivers (depth : nat) (ts : list Json.token) (v : Json.json) : Prop :=
  forall stack ph rest,
    starts ph -> (length stack <= depth)%nat ->
    Json.parseRun (ts ++ rest) (stack, ph) =
    match Json.deliver v stack with
    | Some st => Json.parseRun rest st
    | None => None
    end.

(** The tokens and the value of a rule, of a list and of the document. *)
Definition strToken (s : string) : Json.token := Json.TString (Json.escape s).
Definition boolToken (b : bool) : Json.token := if b then Json.TTrue else Json.TFalse.
Definition keyTokens (name : string) : list Json.token := [Json.TString name; Json.TColon].

Definition ruleTokens (r : FirewallRule) : list Json.token :=
  [Json.TLBrace]
    ++ keyTokens "action" ++ [strToken (Action r); Json.TComma]
    ++ keyTokens "direction" ++ [strToken (Direction r); Json.TComma]
    ++ keyTokens "quick" ++ [boolToken (Quick r); Json.TComma]
    ++ keyTokens "interface" ++ [strToken (Interface r); Json.TComma]
    ++ keyTokens "protocol" ++ [strToken (Protocol r); Json.TComma]
    ++ keyTokens "source" ++ [strToken (Source r); Json.TComma]
    ++ keyTokens "destination" ++ [strToken (Destination r); Json.TComma]
    ++ keyTokens "port" ++ [strToken (Port r); Json.TComma]
    ++ keyTokens "keep_state" ++ [boolToken (KeepState r); Json.TComma]
    ++ keyTokens "description" ++ [strToken (Description r); Json.TRBrace].

Definition rdrTokens (r : PortForwardingRule) : list Json.token :=
  [Json.TLBrace]
    ++ keyTokens "interface" ++ [strToken (Rdr.Interface r); Json.TComma]
    ++ keyTokens "protocol" ++ [strToken (Rdr.Protocol r); Json.TComma]
    ++ keyTokens "external_ip" ++ [strToken (Rdr.ExternalIP r); Json.TComma]
    ++ keyTokens "external_port" ++ [strToken (Rdr.ExternalPort r); Json.TComma]
    ++ keyTokens "internal_ip" ++ [strToken (Rdr.InternalIP r); Json.TComma]
    ++ keyTokens "internal_port" ++ [strToken (Rdr.InternalPort r); Json.TComma]
    ++ keyTokens "description" ++ [strToken (Rdr.Description r); Json.TRBrace].

Fixpoint moreTokens {A : Type} (tk : A -> list Json.token) (l : list A) : list Json.token :=
  match l with
  | [] => []
  | x :: l' => Json.TComma :: tk x ++ moreTokens tk l'
  end.

Definition sliceTokens {A : Type} (tk : A -> list Json.token) (l : list A)
    : list Json.token :=
  match l with
  | [] => [Json.TLBracket; Json.TRBracket]
  | x :: l' => Json.TLBracket :: tk x ++ moreTokens tk l' ++ [Json.TRBracket]
  end.

Definition configTokens (c : Config) : list Json.token :=
  [Json.TLBrace]
    ++ keyTokens "filter_rules" ++ sliceTokens ruleTokens (FirewallRules c) ++ [Json.TComma]
    ++ keyTokens "rdr_rules" ++ sliceTokens rdrTokens (PortForwardingRules c)
    ++ [Json.TRBrace].

Definition ruleJson (r : FirewallRule) : Json.json :=
  Json.JObject
    [("action"%string, Json.JString (Action r));
     ("direction"%string, Json.JString (Direction r));
     ("quick"%string, Json.JBool (Quick r));
     ("interface"%string, Json.JString (Interface r));
     ("protocol"%string, Json.JString (Protocol r));
     ("source"%string, Json.JString (Source r));
     ("destination"%string, Json.JString (Destination r));
     ("port"%string, Json.JString (Port r));
     ("keep_state"%string, Json.JBool (KeepState r));
     ("description"%string, Json.JString (Description r))].

Definition rdrJson (r : PortForwardingRule) : Json.json :=
  Json.JObject
    [("interface"%string, Json.JString (Rdr.Interface r));
     ("protocol"%string, Json.JString (Rdr.Protocol r));
     ("external_ip"%string, Json.JString (Rdr.ExternalIP r));
     ("external_port"%string, Json.JString (Rdr.ExternalPort r));
     ("internal_ip"%string, Json.JString (Rdr.InternalIP r));
     ("internal_port"%string, Json.JString (Rdr.InternalPort r));
     ("description"%string, Json.JString (Rdr.Description r))].

Definition configJson (c : Config) : Json.json :=
  Json.JObject
    [("filter_rules"%string, Json.JArray (map ruleJson (FirewallRules c)));
     ("rdr_rules"%string, Json.JArray (map rdrJson (PortForwardingRules c)))].

(** ** Definitions for the further properties *)

(** The default file of the world holds what [SaveConfig] writes for [d]. *)
Definition holds (w : World) (path : string) (d : Config) : Prop :=
  defaultConfigPath w = Some path /\ files w !! path = Some (Json.MarshalIndent d).

(** A world whose default file holds the three rules [a], [b], [c]. *)
Definition abcConfig : Config := mkConfig [rule_a; rule_b; rule_c] [webFwd].
Definition abcWorld : World :=
  homeWorld {[ rulesPath := Json.MarshalIndent abcConfig ]}.

(** A path to export to. *)
Definition exportPath : string := "/Users/me/.config/pf-tui/rules-export.json".

(** ** Tokens of a rule line *)

(** The number of bytes of the white-space rune at the head of [s], 0 when
    there is none: the test [fieldsFrom] and [trimLeftSpace] make before each
    step. *)
Definition spaceLen (s : string) : nat :=
  match s with
  | String c1 r1 =>
      if space1 c1 then 1%nat else
      match r1 with
      | String c2 r2 =>
          if space2 c1 c2 then 2%nat else
          match r2 with
          | String c3 _ => if space3 c1 c2 c3 then 3%nat else 0%nat
          | EmptyString => 0%nat
          end
      | EmptyString => 0%nat
      end
  | EmptyString => 0%nat
  end.

(** [s[n:]], the whole of [s] gone when it is shorter. *)
Fixpoint skip (n : nat) (s : string) : string :=
  match n, s with
  | O, _ => s
  | S n', String _ s' => skip n' s'
  | S _, EmptyString => EmptyString
  end.

(** A byte that does not begin a white-space rune of two or three bytes, and
    one that is no white space either. *)
Definition calmByte (c : ascii) : bool :=
  (negb (byte c =? 194) && negb ((225 <=? byte c) && (byte c <=? 227)))%N.

Definition inkByte (c : ascii) : bool := negb (space1 c) && calmByte c.

Fixpoint allBytes (p : ascii -> bool) (s : string) : bool :=
  match s with
  | EmptyString => true
  | String c s' => p c && allBytes p s'
  end.

(** A token: a string that is not empty and whose bytes are all of that kind
    (printable ASCII other than the space is; so is most of UTF-8). *)
Definition isToken (s : string) : bool :=
  negb (String.eqb s "") && allBytes inkByte s.

(** The first and the last byte of a part of a line. *)
Definition firstInk (s : string) : bool :=
  match s with
  | String c _ => inkByte c
  | EmptyString => false
  end.

Definition lastInk (s : string) : bool := firstInk (String.rev s).

Definition wordy (s : string) : bool := firstInk s && lastInk s && allBytes calmByte s.

(** A rule whose fields the compiler writes as tokens: every match field and
    every trimmed piece of the protocol field is a token, and the description
    is on one line and has fewer than three words. *)
Definition cleanRule (rule : FirewallRule) : bool :=
  oneLine (Description rule) && (length (Fields (Description rule)) <? 3)%nat
  && isToken (Action rule) && isToken (Direction rule) && isToken (Interface rule)
  && isToken (Source rule) && isToken (Destination rule) && isToken (Port rule)
  && forallb (fun tok => isToken (TrimSpace tok)) (protocols rule).

(** What [ParseLiveRules] reads from the line [GeneratePfConf] writes for a
    clean rule and the protocol token [proto]: nothing when the line is the
    three tokens [<action> <direction> all]; otherwise the rule with its
    description gone, [any] as interface or protocol read as the empty
    string, the addresses empty when the line has no [from] clause, and the
    port as it was written, empty when the line has no [port] clause. *)
Definition readBack (rule : FirewallRule) (proto : string) : option FirewallRule :=
  let unconstrained :=
    isAny (Source rule) && isAny (Destination rule) && isAny (Port rule) in
  if negb (Quick rule) && isAny (Interface rule) && isAny proto && unconstrained
     && negb (KeepState rule)
  then None
  else
    Some (mkFirewallRule (Action rule) (Direction rule) (Quick rule)
            (if isAny (Interface rule) then "" else Interface rule)
            (if isAny proto then "" else proto)
            (if unconstrained then "" else Source rule)
            (if unconstrained then "" else Destination rule)
            (if negb (isAny (Port rule)) && (String.eqb proto "tcp" || String.eqb proto "udp")
             then portStr (Port rule) else "")
            (KeepState rule) "").

(** A rule that names everything: an interface, [tcp] or [udp], a single port
    written without comma, hyphen or colon, and no description. *)
Definition exactRule (rule : FirewallRule) : bool :=
  String.eqb (Description rule) ""
  && isToken (Action rule) && isToken (Direction rule)
  && isToken (Interface rule) && negb (isAny (Interface rule))
  && (String.eqb (Protocol rule) "tcp" || String.eqb (Protocol rule) "udp")
  && isToken (Source rule) && isToken (Destination rule)
  && isToken (Port rule) && negb (isAny (Port rule))
  && negb (occurs "," (Port rule) || occurs "-" (Port rule) || occurs ":" (Port rule)).

(** Sequencing of outcomes: the rules read so far before those read next. *)
Definition andThen (rules : list FirewallRule) (next : outcome (list FirewallRule))
    : outcome (list FirewallRule) :=
  match next with
  | Returns more => Returns (rules ++ more)
  | Panics p => Panics p
  end.

Definition sshRule : FirewallRule :=
  mkFirewallRule "pass" "in" true "en0" "tcp" "any" "10.0.0.1" "22" true "".

(** ** The lines [ParseLiveRules] reads *)

(** The keywords after which the loop reads [parts[i]] with no check. *)
Definition takesValue (tok : string) : bool :=
  String.eqb tok "on" || String.eqb tok "proto" || String.eqb tok "from"
  || String.eqb tok "to" || String.eqb tok "port".

(** The lines neither [continue] passes over. *)
Definition isRuleLine (line : string) : bool :=
  negb (String.eqb (TrimSpace line) "") && negb (length (Fields line) <? 4)%nat.

(** A line that is passed over, or whose last token is none of those
    keywords. *)
Definition safeLine (line : string) : bool :=
  negb (isRuleLine line)
  || match last (Fields line) with
     | Some tok => negb (takesValue tok)
     | None => true
     end.

(** ** The commands of pf.go

    The files the commands read and write are files of the same world:
    [sudo cat] gives the content of a file and fails when the file is not
    there, [sudo tee] writes its input to a file and [sudo tee -a] appends
    it, creating the file when needed.  What [pfctl] answers is not part of
    the program: it is a parameter of the functions that call it. *)

Definition pfConfPath : string := "/etc/pf.conf".
Definition anchorName : string := "pf-tui".
Definition anchorFile : string := "/etc/pf.anchors/pf-tui".

(** [fmt.Sprintf] of a string between double quotes. *)
Definition quoted (s : string) : string := String Json.dq (s +:+ String Json.dq "").

Definition rdrAnchorLine : string := "rdr-anchor " +:+ quoted anchorName.
Definition anchorLine : string := "anchor " +:+ quoted anchorName.
Definition loadAnchorLine : string :=
  "load anchor " +:+ quoted anchorName +:+ " from " +:+ quoted anchorFile.

(** [RunSudoCmd("cat", path)]: in test mode no command is run and the output
    is empty. *)
Definition sudoCat (testMode : bool) (path : string) : M string :=
  if testMode then ret ""%string else ReadFile path.

(** [exec.Command("sudo", "tee", "-a", path)] with [data] as its input. *)
Definition sudoTeeAppend (path data : string) : M unit :=
  do fs <- getFiles; setFiles (<[path := default ""%string (fs !! path) +:+ data]> fs).

(** The text [SetupPfConf] builds in [toAppend]. *)
Definition toAppend (hasRdrAnchor hasAnchor hasLoadAnchor : bool) : string :=
  (nl +:+ "# pf-tui anchor point" +:+ nl)
  +:+ (if hasRdrAnchor then "" else rdrAnchorLine +:+ nl)
  +:+ (if hasAnchor then "" else anchorLine +:+ nl)
  +:+ (if hasLoadAnchor then "" else loadAnchorLine +:+ nl).

(** [SetupPfConf]. *)
Definition SetupPfConf (testMode : bool) : M unit :=
  do content <- wrap "failed to read /etc/pf.conf" (sudoCat testMode pfConfPath);
  let hasRdrAnchor := Contains content rdrAnchorLine in
  let hasAnchor := Contains content anchorLine in
  let hasLoadAnchor := Contains content loadAnchorLine in
  if hasRdrAnchor && hasAnchor && hasLoadAnchor then ret tt
  else wrap "failed to append to /etc/pf.conf"
         (sudoTeeAppend pfConfPath (toAppend hasRdrAnchor hasAnchor hasLoadAnchor)).

(** [ApplyRules]: the temporary file is created and removed within the call;
    the rules go to the anchor file, then [pfctl -f] reads it and answers
    with its output and its error. *)
Definition ApplyRules (pfctl : string -> string * option error) (testMode : bool)
    (rules : string) : M string :=
  if testMode then ret ""%string
  else
    do _ <- wrap "failed to write to anchor file" (WriteFile anchorFile rules);
    match pfctl rules with
    | (out, None) => ret out
    | (_, Some e) => fail e
    end.

(** The command [saveAndApplyRules] returns, with the message it gives. *)
Definition saveAndApplyRules (pfctl : string -> string * option error) (testMode : bool)
    : M string :=
  do _ <- SetupPfConf testMode;
  do _ <- SaveConfig;
  do c <- getConfig;
  do _ <- wrap "failed to apply rules" (ApplyRules pfctl testMode (GeneratePfConf c));
  ret "Configuration saved and applied to the system."%string.

(** [GetCurrentRules], from what [RunSudoCmd("pfctl", "-s", "rules")]
    returns. *)
Definition GetCurrentRules (testMode : bool) (run : result string) : result string :=
  if testMode then Ok ("pass out on lo0 all" +:+ nl +:+ "block in on lo0 all")
  else
    match run with
    | Err e => Err e
    | Ok out =>
        Ok (Join (List.filter (fun line => negb (Contains line "ALTQ"))
                    (Split out (ascii_of_nat 10))) nl)
    end.

(** A pf.conf with other rules in it, and a [pfctl] that accepts or rejects
    whatever it is given (the error stands for the exit status of the
    command). *)
Definition stockPfConf : string :=
  "scrub-anchor " +:+ quoted "com.apple/*" +:+ nl
  +:+ "anchor " +:+ quoted "com.apple/*" +:+ nl.

Definition pfctlAccepts (rules : string) : string * option error := (""%string, None).
Definition pfctlRejects (rules : string) : string * option error :=
  ("syntax error"%string, Some (ErrNotExist "pfctl")).

Definition pfWorld : World :=
  homeWorld (<[pfConfPath := stockPfConf]> (files abcWorld)).

(** [strings.TrimPrefix]. *)
Definition TrimPrefix (s prefix : string) : string :=
  if HasPrefix s prefix then skip (String.length prefix) s else s.

(** The loop of [GetPfStatus] over the lines of the output: it returns at the
    first line that begins with [Status:] and goes on with [Enabled]. *)
Fixpoint statusOf (lines : list string) : string :=
  match lines with
  | [] => "Disabled"
  | line :: lines' =>
      if HasPrefix line "Status:" then
        let status := TrimSpace (TrimPrefix line "Status:") in
        if HasPrefix status "Enabled" then "Enabled" else statusOf lines'
      else statusOf lines'
  end.

(** [GetPfStatus], from the output and the error that
    [RunSudoCmd("pfctl", "-s", "info")] returns. *)
Definition GetPfStatus (testMode : bool) (run : string * option error) : result string :=
  if testMode then Ok "Enabled"%string
  else
    match run with
    | (out, Some e) =>
        if Contains out "pf not running" then Ok "Disabled"%string else Err e
    | (out, None) => Ok (statusOf (Split out (ascii_of_nat 10)))
    end.


(** A rule with two protocols, the second after a space, and a port range. *)
Definition twoProtoRule : FirewallRule :=
  mkFirewallRule "pass" "in" false "en0" "tcp, icmp" "any" "any" "8000-8080" false "".
(** ** Facts about the string helpers *)

Lemma isAny_true s : isAny s = true <-> s = "any"%string.
Proof. unfold isAny, any. apply String.eqb_eq. Qed.

Lemma isAny_false s : isAny s = false <-> s <> "any"%string.
Proof. unfold isAny, any. apply String.eqb_neq. Qed.

Lemma HasPrefix_empty s : HasPrefix s "" = true.
Proof. now destruct s. Qed.

Lemma Contains_byte s c : Contains s (String c "") = occurs c s.
Proof.
  induction s as [|a s IH]; [reflexivity|].
  cbn [Contains HasPrefix occurs]. now rewrite HasPrefix_empty, andb_true_r, IH.
Qed.

Lemma occurs_digits c s :
  isDigit c = false -> allDigits s = true -> occurs c s = false.
Proof.
  intros Hc. induction s as [|a s IH]; [reflexivity|].
  cbn [allDigits occurs]. intros [Ha Hs]%andb_true_iff.
  rewrite (IH Hs), orb_false_r.
  destruct (Ascii.eqb_spec c a) as [->|]; congruence.
Qed.

(** With a one-byte replacement [ReplaceAll] rewrites the string byte by
    byte. *)
Lemma ReplaceAll_get s old new i :
  String.get i (ReplaceAll s old (String new "")) =
  (fun c => if Ascii.eqb c old then new else c) <$> String.get i s.
Proof.
  revert i. induction s as [|a s IH]; intros i; [reflexivity|].
  cbn [ReplaceAll]. destruct i as [|i].
  - destruct (Ascii.eqb a old) eqn:E; cbn; now rewrite E.
  - destruct (Ascii.eqb a old); cbn; apply IH.
Qed.

Lemma ReplaceAll_length s old new :
  String.length (ReplaceAll s old (String new "")) = String.length s.
Proof.
  induction s as [|a s IH]; [reflexivity|].
  cbn [ReplaceAll]. destruct (Ascii.eqb a old); cbn; now rewrite IH.
Qed.

Lemma ReplaceAll_gone s old new :
  new <> old -> occurs old (ReplaceAll s old (String new "")) = false.
Proof.
  intros Hne. induction s as [|a s IH]; [reflexivity|].
  cbn [ReplaceAll]. destruct (Ascii.eqb_spec a old) as [->|Ha]; cbn; rewrite IH, orb_false_r.
  - apply Ascii.eqb_neq. congruence.
  - apply Ascii.eqb_neq. congruence.
Qed.

Lemma append_empty_r s : s +:+ "" = s.
Proof. induction s as [|a s IH]; [done|]. cbn. now rewrite IH. Qed.

Lemma append_assoc (s1 s2 s3 : string) : (s1 +:+ s2) +:+ s3 = s1 +:+ (s2 +:+ s3).
Proof. induction s1 as [|a s1 IH]; [done|]. cbn. now rewrite IH. Qed.

Lemma Split_length_pos s sep : (0 < length (Split s sep))%nat.
Proof.
  destruct s as [|c s]; cbn; [lia|].
  destruct (Ascii.eqb c sep); cbn; [lia|]. destruct (Split s sep); cbn; lia.
Qed.

(** ** White space, tokens, lines and substrings *)

Section Tokens.
Implicit Types (s a b cur : string) (c : ascii).

Lemma flush_app cur (l : list string) : flush cur l = flush cur [] ++ l.
Proof. now destruct cur. Qed.

Lemma fieldsFrom_step c r cur :
  fieldsFrom (String c r) cur =
  match spaceLen (String c r) with
  | O => fieldsFrom r (cur +:+ String c "")
  | n => flush cur (fieldsFrom (skip n (String c r)) "")
  end.
Proof.
  destruct r as [|c2 [|c3 r3]]; cbn [fieldsFrom spaceLen skip];
    destruct (space1 c); try reflexivity;
    destruct (space2 c c2); try reflexivity;
    destruct (space3 c c2 c3); reflexivity.
Qed.

Lemma trimLeftSpace_step s :
  trimLeftSpace s = match spaceLen s with O => s | n => trimLeftSpace (skip n s) end.
Proof.
  destruct s as [|c [|c2 [|c3 r3]]]; cbn [trimLeftSpace spaceLen skip];
    try reflexivity; destruct (space1 c); try reflexivity;
    destruct (space2 c c2); try reflexivity;
    destruct (space3 c c2 c3); reflexivity.
Qed.

Lemma space2_blank c : space2 c " " = false.
Proof. unfold space2. change (byte " ") with 32%N. apply andb_false_r. Qed.

Lemma space3_blank2 c c3 : space3 c " " c3 = false.
Proof.
  unfold space3. change (byte " ") with 32%N. cbv zeta.
  change (32 =? 154)%N with false. change (32 =? 128)%N with false.
  change (32 =? 129)%N with false.
  now rewrite !andb_false_r.
Qed.

Lemma space3_blank3 c c2 : space3 c c2 " " = false.
Proof.
  unfold space3. change (byte " ") with 32%N. cbv zeta.
  change (32 =? 128)%N with false. change (32 =? 159)%N with false.
  change (128 <=? 32)%N with false. change (32 =? 168)%N with false.
  change (32 =? 169)%N with false. change (32 =? 175)%N with false.
  cbn [andb orb]. now rewrite !andb_false_r.
Qed.

Lemma spaceLen_blank b : spaceLen (String " " b) = 1%nat.
Proof. reflexivity. Qed.

Lemma spaceLen_app c r b :
  spaceLen (String c r +:+ String " " b) = spaceLen (String c r).
Proof.
  destruct r as [|c2 [|c3 r3]]; cbn [String.append spaceLen];
    destruct (space1 c); try reflexivity.
  - rewrite space2_blank. destruct b; [reflexivity|]. now rewrite space3_blank2.
  - destruct (space2 c c2); [reflexivity|]. now rewrite space3_blank3.
Qed.

Lemma spaceLen_le s : (spaceLen s <= String.length s)%nat.
Proof.
  destruct s as [|c [|c2 [|c3 r3]]]; cbn [spaceLen String.length]; try lia;
    destruct (space1 c); try lia; destruct (space2 c c2); try lia;
    destruct (space3 c c2 c3); lia.
Qed.

Lemma skip_app n a b : (n <= String.length a)%nat -> skip n (a +:+ b) = skip n a +:+ b.
Proof.
  revert a. induction n as [|n IH]; intros a H; [done|].
  destruct a as [|c a]; cbn in H; [lia|]. cbn [String.append skip]. apply IH. lia.
Qed.

Lemma skip_length n s : (String.length (skip n s) <= String.length s - n)%nat.
Proof.
  revert s. induction n as [|n IH]; intros s; cbn [skip]; [lia|].
  destruct s as [|c s]; cbn [String.length]; [lia|]. specialize (IH s). lia.
Qed.

(** A space between two texts ends the field before it. *)
Lemma fieldsFrom_blank a b cur :
  fieldsFrom (a +:+ String " " b) cur = fieldsFrom a cur ++ fieldsFrom b "".
Proof.
  remember (String.length a) as n eqn:Hn. revert a Hn cur.
  induction n as [n IH] using lt_wf_ind. intros a Hn cur.
  destruct a as [|c r].
  - cbn [String.append]. rewrite fieldsFrom_step, spaceLen_blank. cbn [skip fieldsFrom].
    apply flush_app.
  - change (String c r +:+ String " " b) with (String c (r +:+ String " " b)).
    rewrite !fieldsFrom_step.
    change (String c (r +:+ String " " b)) with (String c r +:+ String " " b).
    rewrite spaceLen_app.
    pose proof (spaceLen_le (String c r)) as Hle.
    destruct (spaceLen (String c r)) as [|k] eqn:Hk.
    + apply (IH (String.length r)); [cbn in Hn; lia | done].
    + rewrite skip_app by done.
      pose proof (skip_length (S k) (String c r)) as Hs.
      rewrite (IH (String.length (skip (S k) (String c r)))); [|lia|done].
      rewrite (flush_app cur (_ ++ _)), (flush_app cur (fieldsFrom _ _)).
      now rewrite app_assoc.
Qed.

Lemma Fields_blank a b : Fields (a +:+ " " +:+ b) = Fields a ++ Fields b.
Proof. apply fieldsFrom_blank. Qed.

(** [strings.Fields(strings.Join(parts, " "))]: the fields of the parts. *)
Lemma Fields_Join parts : Fields (Join parts " ") = concat (map Fields parts).
Proof.
  induction parts as [|p parts IH]; [done|]. destruct parts as [|q parts].
  - cbn [Join map concat]. now rewrite app_nil_r.
  - change (Join (p :: q :: parts) " ") with (p +:+ " " +:+ Join (q :: parts) " ").
    rewrite Fields_blank, IH. done.
Qed.

Lemma inkByte_calm c : inkByte c = true -> calmByte c = true.
Proof. unfold inkByte. now intros [_ H]%andb_true_iff. Qed.

Lemma inkByte_space1 c : inkByte c = true -> space1 c = false.
Proof. unfold inkByte. intros [H _]%andb_true_iff. now apply negb_true_iff in H. Qed.

Lemma calmByte_space2 c c2 : calmByte c = true -> space2 c c2 = false.
Proof.
  unfold calmByte, space2. intros [H _]%andb_true_iff. apply negb_true_iff in H.
  now rewrite H.
Qed.

Lemma calmByte_space3 c c2 c3 : calmByte c = true -> space3 c c2 c3 = false.
Proof.
  unfold calmByte, space3. intros [_ H]%andb_true_iff. apply negb_true_iff in H.
  cbv zeta.
  destruct (N.eqb_spec (byte c) 225) as [E|_]; [now rewrite E in H|].
  destruct (N.eqb_spec (byte c) 226) as [E|_]; [now rewrite E in H|].
  destruct (N.eqb_spec (byte c) 227) as [E|_]; [now rewrite E in H|].
  reflexivity.
Qed.

Lemma spaceLen_ink c r : inkByte c = true -> spaceLen (String c r) = 0%nat.
Proof.
  intros H. unfold spaceLen. rewrite (inkByte_space1 c H).
  destruct r as [|c2 [|c3 r3]]; [done| |];
    rewrite (calmByte_space2 c c2 (inkByte_calm c H)); [done|].
  now rewrite (calmByte_space3 c c2 c3 (inkByte_calm c H)).
Qed.

Lemma fieldsFrom_ink s cur :
  allBytes inkByte s = true -> fieldsFrom s cur = flush (cur +:+ s) [].
Proof.
  revert cur. induction s as [|c s IH]; intros cur H.
  - now rewrite append_empty_r.
  - cbn [allBytes] in H. apply andb_true_iff in H as [Hc Hs].
    rewrite fieldsFrom_step, (spaceLen_ink c s Hc), IH by done.
    now rewrite append_assoc.
Qed.

(** A token is its own single field. *)
Lemma Fields_token s : isToken s = true -> Fields s = [s].
Proof.
  unfold isToken. intros [Hne Hs]%andb_true_iff. unfold Fields.
  rewrite (fieldsFrom_ink s "" Hs). cbn [String.append].
  destruct s; [discriminate | reflexivity].
Qed.

Lemma Fields_keep_state : Fields "keep state" = ["keep"; "state"]%string.
Proof. reflexivity. Qed.

Lemma inkByte_not_nl c : inkByte c = true -> Ascii.eqb c (ascii_of_nat 10) = false.
Proof.
  intros H. destruct (Ascii.eqb_spec c (ascii_of_nat 10)) as [->|]; [|done].
  discriminate H.
Qed.

Lemma countNl_ink s : allBytes inkByte s = true -> countNl s = 0%nat.
Proof.
  induction s as [|c s IH]; [done|]. cbn [allBytes countNl].
  intros [Hc Hs]%andb_true_iff. now rewrite (inkByte_not_nl c Hc), IH.
Qed.

Lemma countNl_token s : isToken s = true -> countNl s = 0%nat.
Proof. unfold isToken. intros [_ H]%andb_true_iff. now apply countNl_ink. Qed.

(** Braces and the colon are ink, so the written port is a token. *)
Lemma allBytes_app p a b : allBytes p (a +:+ b) = allBytes p a && allBytes p b.
Proof. induction a as [|c a IH]; [done|]. cbn. now rewrite IH, andb_assoc. Qed.

Lemma allBytes_ReplaceAll s :
  allBytes inkByte s = true -> allBytes inkByte (ReplaceAll s "-" ":") = true.
Proof.
  induction s as [|c s IH]; [done|]. cbn [allBytes ReplaceAll].
  intros [Hc Hs]%andb_true_iff. rewrite allBytes_app, IH by done.
  destruct (Ascii.eqb c "-"); [reflexivity|]. cbn [allBytes]. now rewrite Hc.
Qed.

Lemma isToken_portStr port : isToken port = true -> isToken (portStr port) = true.
Proof.
  intros H. unfold portStr. destruct (_ || _); [|done].
  unfold isToken in *. apply andb_true_iff in H as [_ H].
  cbn [String.append String.eqb negb andb allBytes].
  rewrite allBytes_app, allBytes_ReplaceAll by done. reflexivity.
Qed.

End Tokens.

Section Lines.
Implicit Types (s a b : string) (c : ascii).

Lemma rev_app_append a b : String.rev_app a b = String.rev a +:+ b.
Proof.
  unfold String.rev. revert b. induction a as [|c a IH]; intros b; [done|].
  cbn [String.rev_app]. rewrite (IH (String c b)), (IH (String c "")).
  now rewrite append_assoc.
Qed.

Lemma rev_cons c s : String.rev (String c s) = String.rev s +:+ String c "".
Proof. unfold String.rev at 1. cbn [String.rev_app]. apply rev_app_append. Qed.

Lemma rev_nonempty s : s <> ""%string -> String.rev s <> ""%string.
Proof.
  destruct s as [|c s]; [done|]. intros _. rewrite rev_cons.
  now destruct (String.rev s).
Qed.

Lemma allBytes_rev p s : allBytes p (String.rev s) = allBytes p s.
Proof.
  induction s as [|c s IH]; [done|]. rewrite rev_cons, allBytes_app, IH.
  cbn [allBytes]. rewrite andb_true_r. apply andb_comm.
Qed.

Lemma firstInk_app a b : a <> ""%string -> firstInk (a +:+ b) = firstInk a.
Proof. now destruct a. Qed.

Lemma lastInk_cons c s : s <> ""%string -> lastInk (String c s) = lastInk s.
Proof.
  intros H. unfold lastInk. rewrite rev_cons. apply firstInk_app. now apply rev_nonempty.
Qed.

Lemma lastInk_app a b : b <> ""%string -> lastInk (a +:+ b) = lastInk b.
Proof.
  intros H. induction a as [|c a IH]; [done|]. cbn [String.append].
  rewrite lastInk_cons; [done|]. destruct a; [done | discriminate].
Qed.

Lemma wordy_nonempty s : wordy s = true -> s <> ""%string.
Proof. now destruct s. Qed.

Lemma wordy_token s : isToken s = true -> wordy s = true.
Proof.
  unfold isToken, wordy. intros [Hne Hs]%andb_true_iff.
  assert (Hcalm : forall t, allBytes inkByte t = true -> allBytes calmByte t = true).
  { induction t as [|c t IH]; [done|]. cbn [allBytes]. intros [Hc Ht]%andb_true_iff.
    now rewrite (inkByte_calm c Hc), IH. }
  assert (Hfirst : forall t, t <> ""%string -> allBytes inkByte t = true -> firstInk t = true).
  { intros [|c t] Ht; [done|]. cbn [allBytes firstInk]. now intros [Hc _]%andb_true_iff. }
  assert (Hs' : s <> ""%string) by (now destruct s).
  rewrite (Hcalm s Hs), (Hfirst s Hs' Hs). unfold lastInk.
  rewrite Hfirst; [done | now apply rev_nonempty | now rewrite allBytes_rev].
Qed.

(** The parts of a line joined with spaces: the line begins and ends with
    ink when its parts do. *)
Lemma wordy_Join p parts :
  Forall (fun q => wordy q = true) (p :: parts) -> wordy (Join (p :: parts) " ") = true.
Proof.
  revert p. induction parts as [|q parts IH]; intros p H.
  - now inversion H.
  - apply Forall_cons in H as [Hp Hrest]. specialize (IH q Hrest).
    change (Join (p :: q :: parts) " ") with (p +:+ " " +:+ Join (q :: parts) " ").
    set (rest := Join (q :: parts) " ") in *.
    pose proof (wordy_nonempty p Hp) as Hpne. pose proof (wordy_nonempty rest IH) as Hrne.
    unfold wordy in *.
    apply andb_true_iff in Hp as [[Hp1 Hp2]%andb_true_iff Hp3].
    apply andb_true_iff in IH as [[Hr1 Hr2]%andb_true_iff Hr3].
    rewrite firstInk_app, Hp1 by done.
    rewrite lastInk_app by (now destruct rest).
    change (" " +:+ rest) with (String " " rest).
    rewrite lastInk_cons, Hr2 by done.
    rewrite !allBytes_app, Hp3. cbn [allBytes String.append]. now rewrite Hr3.
Qed.

Lemma trimLeftSpace_ink s : firstInk s = true -> trimLeftSpace s = s.
Proof.
  destruct s as [|c r]; [done|]. cbn [firstInk]. intros H.
  now rewrite trimLeftSpace_step, spaceLen_ink.
Qed.

Lemma trimLeftSpaceRev_ink s :
  firstInk s = true -> allBytes calmByte s = true -> trimLeftSpaceRev s = s.
Proof.
  destruct s as [|c1 r1]; [done|]. cbn [firstInk allBytes].
  intros H1 [_ Hr]%andb_true_iff. cbn [trimLeftSpaceRev].
  rewrite (inkByte_space1 c1 H1).
  destruct r1 as [|c2 r2]; [done|]. cbn [allBytes] in Hr.
  apply andb_true_iff in Hr as [H2 Hr]. rewrite (calmByte_space2 c2 c1 H2).
  destruct r2 as [|c3 r3]; [done|]. cbn [allBytes] in Hr.
  apply andb_true_iff in Hr as [H3 _]. now rewrite (calmByte_space3 c3 c2 c1 H3).
Qed.

(** Nothing is trimmed from such a line, so it is not blank. *)
Lemma TrimSpace_wordy s : wordy s = true -> String.eqb (TrimSpace s) "" = false.
Proof.
  intros H. pose proof (wordy_nonempty s H) as Hne. unfold wordy in H.
  apply andb_true_iff in H as [[H1 H2]%andb_true_iff H3].
  unfold TrimSpace. rewrite (trimLeftSpace_ink s H1).
  rewrite trimLeftSpaceRev_ink; [|exact H2 | now rewrite allBytes_rev].
  apply String.eqb_neq. now apply rev_nonempty, rev_nonempty.
Qed.

(** The lines of a text: the line before the first line feed, then the
    lines of the rest. *)
Lemma Split_line a rest :
  countNl a = 0%nat ->
  Split (a +:+ nl +:+ rest) (ascii_of_nat 10) = a :: Split rest (ascii_of_nat 10).
Proof.
  induction a as [|c a IH]; [done|]. cbn [countNl String.append Split].
  destruct (Ascii.eqb c (ascii_of_nat 10)); [discriminate|]. cbn [Nat.add].
  intros H. now rewrite (IH H).
Qed.

Lemma parseLines_acc lines acc :
  parseLines lines acc = andThen acc (parseLines lines []).
Proof.
  revert acc. induction lines as [|line lines IH]; intros acc.
  - cbn. now rewrite app_nil_r.
  - cbn [parseLines]. destruct (parseLine line) as [[rule|]|p]; [| apply IH | done].
    rewrite (IH (acc ++ [rule])), (IH ([] ++ [rule])).
    destruct (parseLines lines []); cbn [andThen app]; [now rewrite <- app_assoc | done].
Qed.

Lemma ParseLiveRules_line a rest :
  countNl a = 0%nat ->
  ParseLiveRules (a +:+ nl +:+ rest) =
  match parseLine a with
  | Returns None => ParseLiveRules rest
  | Returns (Some rule) => andThen [rule] (ParseLiveRules rest)
  | Panics p => Panics p
  end.
Proof.
  intros H. unfold ParseLiveRules. rewrite (Split_line a rest H). cbn [parseLines].
  destruct (parseLine a) as [[rule|]|p]; [|done|done].
  apply parseLines_acc.
Qed.

End Lines.

Section Substrings.
Implicit Types (s p x pre post : string).

Lemma Contains_unfold s x :
  Contains s x =
  HasPrefix s x || match s with
                   | EmptyString => false
                   | String _ s' => Contains s' x
                   end.
Proof. now destruct s. Qed.

Lemma HasPrefix_app p post : HasPrefix (p +:+ post) p = true.
Proof.
  induction p as [|c p IH]; [now destruct post|].
  cbn [String.append HasPrefix]. now rewrite Ascii.eqb_refl, IH.
Qed.

Lemma HasPrefix_elim s p : HasPrefix s p = true -> exists post, s = p +:+ post.
Proof.
  revert s. induction p as [|c p IH]; intros s H; [now exists s|].
  destruct s as [|a s]; [discriminate|]. cbn [HasPrefix] in H.
  apply andb_true_iff in H as [->%Ascii.eqb_eq Hs].
  destruct (IH s Hs) as [post ->]. now exists post.
Qed.

Lemma Contains_intro pre x post : Contains (pre +:+ x +:+ post) x = true.
Proof.
  induction pre as [|c pre IH].
  - cbn [String.append]. now rewrite Contains_unfold, HasPrefix_app.
  - cbn [String.append]. rewrite Contains_unfold, IH. apply orb_true_r.
Qed.

Lemma Contains_elim s x :
  Contains s x = true -> exists pre post, s = pre +:+ x +:+ post.
Proof.
  induction s as [|c s IH]; rewrite Contains_unfold; intros [H|H]%orb_true_iff.
  - destruct (HasPrefix_elim _ _ H) as [post ->]. now exists ""%string, post.
  - discriminate.
  - destruct (HasPrefix_elim _ _ H) as [post ->]. now exists ""%string, post.
  - destruct (IH H) as (pre & post & ->). now exists (String c pre), post.
Qed.

Lemma Contains_app_l s x post : Contains s x = true -> Contains (s +:+ post) x = true.
Proof.
  intros (pre & post' & ->)%Contains_elim.
  rewrite !append_assoc. apply Contains_intro.
Qed.

Lemma Contains_app_r pre s x : Contains s x = true -> Contains (pre +:+ s) x = true.
Proof.
  intros (pre' & post & ->)%Contains_elim.
  rewrite <- append_assoc. apply Contains_intro.
Qed.

Lemma Contains_trans s p x :
  Contains s p = true -> Contains p x = true -> Contains s x = true.
Proof.
  intros (pre & post & ->)%Contains_elim Hx.
  now apply Contains_app_r, Contains_app_l.
Qed.

End Substrings.

Section Trimming.
Implicit Types (s a b blank lead trail tok : string) (c : ascii).

Lemma rev_append a b : String.rev (a +:+ b) = String.rev b +:+ String.rev a.
Proof.
  induction a as [|c a IH]; [now rewrite append_empty_r|].
  cbn [String.append]. now rewrite !rev_cons, IH, append_assoc.
Qed.

Lemma trimLeftSpaceRev_eq c1 r1 :
  trimLeftSpaceRev (String c1 r1) =
  if space1 c1 then trimLeftSpaceRev r1 else
  match r1 with
  | String c2 r2 =>
      if space2 c2 c1 then trimLeftSpaceRev r2 else
      match r2 with
      | String c3 r3 => if space3 c3 c2 c1 then trimLeftSpaceRev r3 else String c1 r1
      | EmptyString => String c1 r1
      end
  | EmptyString => String c1 r1
  end.
Proof. destruct r1 as [|c2 [|c3 r3]]; reflexivity. Qed.

Lemma trimLeftSpace_blank blank s :
  allBytes space1 blank = true -> trimLeftSpace (blank +:+ s) = trimLeftSpace s.
Proof.
  induction blank as [|c blank IH]; [done|]. cbn [allBytes String.append].
  intros [Hc Hb]%andb_true_iff. rewrite trimLeftSpace_step.
  unfold spaceLen. rewrite Hc. cbn [skip]. now apply IH.
Qed.

End Trimming.

Section Concat.

Lemma concatStr_cons x l : concatStr (x :: l) = x +:+ concatStr l.
Proof. reflexivity. Qed.

Lemma concatStr_app l1 l2 : concatStr (l1 ++ l2) = concatStr l1 +:+ concatStr l2.
Proof.
  induction l1 as [|x l1 IH]; [done|]. cbn [app]. rewrite !concatStr_cons.
  now rewrite IH, append_assoc.
Qed.

End Concat.

Section Splitting.
Variable sep : ascii.
Implicit Types (s t rest : string) (toks : list string) (c : ascii).

Lemma Join_cons2 e e' toks (glue : string) :
  Join (e :: e' :: toks) glue = e +:+ glue +:+ Join (e' :: toks) glue.
Proof. reflexivity. Qed.








Lemma Join_app (a b : list string) (glue : string) :
  a <> [] -> b <> [] -> Join (a ++ b) glue = Join a glue +:+ glue +:+ Join b glue.
Proof.
  intros Ha Hb. induction a as [|x a IH]; [done|].
  destruct a as [|y a].
  - destruct b as [|z b]; [done|]. reflexivity.
  - change ((x :: y :: a) ++ b) with (x :: (y :: a) ++ b).
    change ((y :: a) ++ b) with (y :: a ++ b) at 1.
    rewrite Join_cons2. change (y :: a ++ b) with ((y :: a) ++ b).
    rewrite IH by done. rewrite Join_cons2. now rewrite !append_assoc.
Qed.



End Splitting.

Section Padding.
Implicit Types (s blank lead trail tok : string) (c : ascii).




Lemma TrimSpace_blank blank : allBytes space1 blank = true -> TrimSpace blank = ""%string.
Proof.
  intros H. unfold TrimSpace. rewrite <- (append_empty_r blank).
  now rewrite (trimLeftSpace_blank blank "" H).
Qed.

Lemma Contains_concatStr (x : string) (l : list string) :
  In x l -> Contains (concatStr l) x = true.
Proof.
  induction l as [|y l IH]; [done|]. rewrite concatStr_cons. intros [->|H].
  - apply Contains_app_l. rewrite Contains_unfold.
    rewrite <- (append_empty_r x) at 1. now rewrite HasPrefix_app.
  - now apply Contains_app_r, IH.
Qed.

End Padding.
(** ** The compiler's claims *)

(** When the port constrains the rule, the two transport tokens go through the
    same branches of the inner loop. *)
Lemma ruleParts_transport rule proto :
  Port rule <> "any"%string -> proto = "tcp"%string \/ proto = "udp"%string ->
  ruleParts rule proto =
  headParts rule ++ ["proto"%string; proto] ++ addrParts rule
    ++ ["port"%string; portStr (Port rule)] ++ stateParts rule.
Proof.
  intros Hport%isAny_false Hproto. unfold ruleParts, protoParts, portParts.
  rewrite Hport. destruct Hproto as [-> | ->]; cbn; now rewrite <- !app_assoc.
Qed.

(** Line feeds in the written lines. *)
Lemma countNl_app a b : countNl (a +:+ b) = (countNl a + countNl b)%nat.
Proof. induction a as [|c a IH]; [done|]. cbn. rewrite IH. lia. Qed.

Lemma countNl_Join parts : countNl (Join parts " ") = list_sum (map countNl parts).
Proof.
  induction parts as [|p parts IH]; [done|]. destruct parts as [|q parts].
  - unfold list_sum. cbn [Join map fold_right]. lia.
  - change (Join (p :: q :: parts) " ") with (p +:+ " " +:+ Join (q :: parts) " ").
    rewrite !countNl_app, IH. change (countNl " ") with 0%nat.
    unfold list_sum. cbn [map fold_right]. lia.
Qed.



Lemma oneLine_zero s : oneLine s = true -> countNl s = 0%nat.
Proof. unfold oneLine. now intros H%Nat.eqb_eq. Qed.



Lemma GeneratePfConf_single rule :
  GeneratePfConf (mkConfig [rule] []) =
  commentLine (Description rule) +:+ concatStr (ruleLines rule).
Proof.
  unfold GeneratePfConf. cbn [PortForwardingRules FirewallRules map].
  rewrite concatStr_cons. change (concatStr []) with ""%string.
  cbn [String.append]. now rewrite append_empty_r.
Qed.




Lemma portStr_plain port :
  occurs "," port || occurs "-" port || occurs ":" port = false ->
  portStr port = port.
Proof. unfold portStr. rewrite !Contains_byte. now intros ->. Qed.

Lemma portStr_wrapped port :
  occurs "," port || occurs "-" port || occurs ":" port = true ->
  portStr port = "{" +:+ ReplaceAll port "-" ":" +:+ "}".
Proof. unfold portStr. rewrite !Contains_byte. now intros ->. Qed.

(** A line written for a rule is part of the text of every document that
    holds the rule. *)
Lemma ruleLine_emitted rule tok :
  In tok (protocols rule) -> In (ruleLine rule tok) (ruleLines rule).
Proof. intros H. unfold ruleLines. now apply in_map. Qed.

Lemma GeneratePfConf_Contains rule line before after fwds :
  In line (ruleLines rule) ->
  Contains (GeneratePfConf (mkConfig (before ++ rule :: after) fwds)) line = true.
Proof.
  intros H. unfold GeneratePfConf. cbn [PortForwardingRules FirewallRules].
  apply Contains_app_r. rewrite map_app, concatStr_app. apply Contains_app_r.
  cbn [map]. rewrite concatStr_cons. apply Contains_app_l.
  unfold ruleText. now apply Contains_app_r, Contains_concatStr.
Qed.

Lemma GeneratePfConf_one_line rule tok :
  protocols rule = [tok] ->
  GeneratePfConf (mkConfig [rule] []) = commentLine (Description rule) +:+ ruleLine rule tok.
Proof.
  intros H. rewrite GeneratePfConf_single. unfold ruleLines. rewrite H. cbn [map].
  rewrite concatStr_cons. change (concatStr []) with ""%string. now rewrite append_empty_r.
Qed.

(** The text of a line with a port clause. *)
Lemma transport_line_text rule proto :
  Port rule <> "any"%string -> proto = "tcp"%string \/ proto = "udp"%string ->
  Join (ruleParts rule proto) " " +:+ nl =
  Join (headParts rule ++ ["proto"%string; proto] ++ addrParts rule) " "
    +:+ " port " +:+ portStr (Port rule)
    +:+ (if KeepState rule then " keep state" else "") +:+ nl.
Proof.
  intros Hport Hproto. rewrite (ruleParts_transport rule proto Hport Hproto).
  rewrite (app_assoc (headParts rule)), (app_assoc (headParts rule ++ _)).
  rewrite <- (app_assoc (headParts rule)).
  rewrite Join_app; [|unfold headParts; discriminate | discriminate].
  unfold stateParts. destruct (KeepState rule); cbn [app Join];
    rewrite !append_assoc; reflexivity.
Qed.

(** C5. For a rule whose port is not [any] and a token [tcp] or [udp] the
    line carries the clause [port <portString>] after the address clause: the
    line written is the tokens up to the addresses, then [ port ] and the
    port string, then [ keep state] if asked for, and that line is in the
    text [GeneratePfConf] returns for every document that holds the rule.  A
    port field with a comma, a hyphen or a colon is written between braces
    with every hyphen turned into a colon and every other byte kept, any
    other port field (a decimal number in particular) is written as it is.
    For a token that is neither [tcp] nor [udp] nothing is appended for the
    port: the line written, and found in the text, ends with the addresses
    (or [all]) and the state clause. *)
Theorem C5_port_clause (rule : FirewallRule) (proto : string) :
  (Port rule <> "any"%string -> proto = "tcp"%string \/ proto = "udp"%string ->
     portParts rule proto = ["port"%string; portStr (Port rule)]
     /\ ruleParts rule proto =
          headParts rule ++ ["proto"%string; proto] ++ addrParts rule
            ++ ["port"%string; portStr (Port rule)] ++ stateParts rule
     /\ (occurs "," (Port rule) || occurs "-" (Port rule) || occurs ":" (Port rule) = true ->
         exists body,
           portStr (Port rule) = "{" +:+ body +:+ "}"
           /\ String.length body = String.length (Port rule)
           /\ (forall i, String.get i body =
                 (fun c => if Ascii.eqb c "-" then ":"%char else c) <$> String.get i (Port rule))
           /\ occurs "-" body = false)
     /\ (occurs "," (Port rule) || occurs "-" (Port rule) || occurs ":" (Port rule) = false ->
         portStr (Port rule) = Port rule)
     /\ (allDigits (Port rule) = true -> portStr (Port rule) = Port rule)
     /\ (let line :=
           Join (headParts rule ++ ["proto"%string; proto] ++ addrParts rule) " "
             +:+ " port " +:+ portStr (Port rule)
             +:+ (if KeepState rule then " keep state" else "") +:+ nl in
         (forall tok, In tok (protocols rule) -> TrimSpace tok = proto ->
            In line (ruleLines rule)
            /\ forall before after fwds,
                 Contains (GeneratePfConf (mkConfig (before ++ rule :: after) fwds)) line
                 = true)
         /\ (forall tok, protocols rule = [tok] -> TrimSpace tok = proto ->
             GeneratePfConf (mkConfig [rule] []) = commentLine (Description rule) +:+ line)
         /\ (Protocol rule = "any"%string ->
             In line (ruleLines rule)
             /\ Contains (GeneratePfConf (mkConfig [rule] [])) line = true)))
  /\ (proto <> "tcp"%string -> proto <> "udp"%string ->
      portParts rule proto = []
      /\ ruleParts rule proto =
           headParts rule
             ++ (if isAny proto && isAny (Source rule) && isAny (Destination rule)
                    && isAny (Port rule)
                 then ["all"%string]
                 else protoParts proto ++ addrParts rule)
             ++ stateParts rule
      /\ (let line :=
            Join (headParts rule
                    ++ (if isAny proto && isAny (Source rule) && isAny (Destination rule)
                           && isAny (Port rule)
                        then ["all"%string]
                        else protoParts proto ++ addrParts rule)
                    ++ stateParts rule) " " +:+ nl in
          (forall tok, In tok (protocols rule) -> TrimSpace tok = proto ->
             In line (ruleLines rule)
             /\ forall before after fwds,
                  Contains (GeneratePfConf (mkConfig (before ++ rule :: after) fwds)) line
                  = true)
          /\ (forall tok, protocols rule = [tok] -> TrimSpace tok = proto ->
              GeneratePfConf (mkConfig [rule] []) = commentLine (Description rule) +:+ line))).
Proof.
  split.
  - intros Hport Hproto. split; [|split; [|split; [|split; [|split]]]].
    + unfold portParts. apply isAny_false in Hport. rewrite Hport.
      now destruct Hproto as [-> | ->].
    + now apply ruleParts_transport.
    + intros Hc. exists (ReplaceAll (Port rule) "-" ":"). split; [|split; [|split]].
      * now apply portStr_wrapped.
      * apply ReplaceAll_length.
      * intros i. apply ReplaceAll_get.
      * now apply ReplaceAll_gone.
    + apply portStr_plain.
    + intros Hd. apply portStr_plain.
      now rewrite !(fun c H => occurs_digits c (Port rule) H Hd).
    + intros line. pose proof (transport_line_text rule proto Hport Hproto) as Hline.
      fold line in Hline.
      assert (Hin : forall tok, In tok (protocols rule) -> TrimSpace tok = proto ->
                In line (ruleLines rule)).
      { intros tok Hin Htrim. rewrite <- Hline, <- Htrim. now apply ruleLine_emitted. }
      split; [|split].
      * intros tok Htok Htrim. split; [now apply (Hin tok)|].
        intros before after fwds. apply GeneratePfConf_Contains. now apply (Hin tok).
      * intros tok Htok Htrim. rewrite (GeneratePfConf_one_line rule tok Htok).
        unfold ruleLine. now rewrite Htrim, Hline.
      * intros Hany.
        assert (Hp : protocols rule = ["tcp"; "udp"]%string).
        { unfold protocols. rewrite Hany. apply isAny_false in Hport. now rewrite Hport. }
        assert (Hl : In line (ruleLines rule)).
        { destruct Hproto as [-> | ->].
          - apply (Hin "tcp"%string); [rewrite Hp; now left | reflexivity].
          - apply (Hin "udp"%string); [rewrite Hp; right; now left | reflexivity]. }
        split; [exact Hl|]. now apply (GeneratePfConf_Contains rule line [] []).
  - intros Htcp%String.eqb_neq Hudp%String.eqb_neq.
    assert (Hp : portParts rule proto = []).
    { unfold portParts. now rewrite Htcp, Hudp, andb_false_r. }
    assert (Hparts : ruleParts rule proto =
              headParts rule
                ++ (if isAny proto && isAny (Source rule) && isAny (Destination rule)
                       && isAny (Port rule)
                    then ["all"%string]
                    else protoParts proto ++ addrParts rule)
                ++ stateParts rule).
    { unfold ruleParts. rewrite Hp, app_nil_r. done. }
    split; [done|]. split; [exact Hparts|].
    intros line. unfold line. rewrite <- Hparts.
    assert (Hin : forall tok, In tok (protocols rule) -> TrimSpace tok = proto ->
              In (Join (ruleParts rule proto) " " +:+ nl) (ruleLines rule)).
    { intros tok Hin Htrim. rewrite <- Htrim. now apply ruleLine_emitted. }
    split.
    + intros tok Htok Htrim. split; [now apply (Hin tok)|].
      intros before after fwds. apply GeneratePfConf_Contains. now apply (Hin tok).
    + intros tok Htok Htrim. rewrite (GeneratePfConf_one_line rule tok Htok).
      unfold ruleLine. now rewrite Htrim.
Qed.

(** The worked rule, whose port field is a list, read with the token [tcp];
    and a rule with a port range and the protocols [tcp] and [icmp]: the
    range is in the [tcp] line of the text, with a colon and between braces,
    and the [icmp] line has no port clause. *)
Lemma C5_port_clause_witness :
  portParts webRule "tcp" = ["port"%string; "{22,80}"%string]
  /\ Contains (GeneratePfConf (mkConfig [webRule; twoProtoRule] [webFwd]))
       ("pass in on en0 proto tcp from any to any port {8000:8080}" +:+ nl) = true
  /\ Contains (GeneratePfConf (mkConfig [webRule; twoProtoRule] [webFwd]))
       ("pass in on en0 proto icmp from any to any" +:+ nl) = true.
Proof.
  split; [|split].
  - destruct (C5_port_clause webRule "tcp") as [H _].
    destruct H as [H _]; [discriminate | now left | exact H].
  - destruct (C5_port_clause twoProtoRule "tcp") as [H _].
    destruct H as (_ & _ & _ & _ & _ & H & _); [discriminate | now left|].
    destruct (H "tcp"%string) as [_ Hc]; [now left | reflexivity|].
    exact (Hc [webRule] [] [webFwd]).
  - destruct (C5_port_clause twoProtoRule "icmp") as [_ H].
    destruct H as (_ & _ & H & _); [discriminate | discriminate|].
    destruct (H " icmp"%string) as [_ Hc]; [right; now left | reflexivity|].
    exact (Hc [webRule] [] [webFwd]).
Defined.



(** ** The live-rule parser *)

Example ParseLiveRules_ssh :
  ParseLiveRules ("pass in proto tcp from any to any port 22 keep state" +:+ nl +:+ nl
                  +:+ "scrub-anchor all" +:+ nl +:+ "block in quick on en0 all") =
  Returns [mkFirewallRule "pass" "in" false "" "tcp" "any" "any" "22" true "";
           mkFirewallRule "block" "in" true "en0" "" "" "" "" false ""].
Proof. reflexivity. Qed.

(** What the parser does as the claim says: blank lines and lines of fewer
    than four tokens are skipped, a token that is no keyword is passed over,
    and [keep] as the last token is harmless. *)
Lemma parseLine_blank line : TrimSpace line = ""%string -> parseLine line = Returns None.
Proof. intros H. unfold parseLine. now rewrite H. Qed.

Lemma parseLine_short line :
  (length (Fields line) < 4)%nat -> parseLine line = Returns None.
Proof.
  intros H%Nat.ltb_lt. unfold parseLine. rewrite H. now destruct (String.eqb _ _).
Qed.

Lemma scanParts_unknown tok rest rule :
  isKeyword tok = false -> scanParts (tok :: rest) rule = scanParts rest rule.
Proof.
  unfold isKeyword. rewrite !orb_false_iff. intros [[[[[[Hq Ho] Hp] Hf] Ht] Hpo] Hk].
  cbn [scanParts]. now rewrite Hq, Ho, Hp, Hf, Ht, Hpo, Hk.
Qed.

Lemma scanParts_keep_last rule : scanParts ["keep"%string] rule = Returns (setKeepState true rule).
Proof. reflexivity. Qed.

(** C4 (the code departs from it). A line of four tokens whose last token is
    a keyword that takes a value stops the program instead of being skipped:
    [parts[i]] is read one past the end of the line's tokens. *)
Theorem C4_value_keyword_last_panics :
  ParseLiveRules "pass in quick on" = Panics IndexOutOfRange
  /\ ParseLiveRules ("block in all extra" +:+ nl +:+ "pass out quick proto") = Panics IndexOutOfRange
  /\ ParseLiveRules "pass in quick keep" =
     Returns [mkFirewallRule "pass" "in" true "" "" "" "" "" true ""].
Proof. repeat split. Qed.

(** ** Editing a rule list *)

Section ListEdits.
Context {A : Type}.
Implicit Types (l t : list A) (x : A) (i j : nat) (index from to : Z).

Lemma outOfRange_false index l :
  outOfRange index l = false <-> 0 <= index < Z.of_nat (length l).
Proof. unfold outOfRange. rewrite orb_false_iff, Z.ltb_ge, Z.geb_leb, Z.leb_gt. lia. Qed.

Lemma outOfRange_true index l :
  outOfRange index l = true <-> index < 0 \/ index >= Z.of_nat (length l).
Proof. unfold outOfRange. rewrite orb_true_iff, Z.ltb_lt, Z.geb_leb, Z.leb_le. lia. Qed.

Lemma removeAt_delete index l :
  0 <= index -> removeAt index l = delete (Z.to_nat index) l.
Proof.
  intros H. unfold removeAt. rewrite delete_take_drop. do 2 f_equal. lia.
Qed.

Lemma removeAt_length index l :
  0 <= index < Z.of_nat (length l) ->
  length (removeAt index l) = (length l - 1)%nat.
Proof.
  intros H. unfold removeAt. rewrite length_app, length_take, length_drop. lia.
Qed.

Lemma removeAt_lookup_lt index l j :
  0 <= index -> (j < Z.to_nat index)%nat -> removeAt index l !! j = l !! j.
Proof. intros H Hj. rewrite removeAt_delete by done. now apply list_lookup_delete_lt. Qed.

Lemma removeAt_lookup_ge index l j :
  0 <= index -> (Z.to_nat index <= j)%nat -> removeAt index l !! j = l !! S j.
Proof. intros H Hj. rewrite removeAt_delete by done. now apply list_lookup_delete_ge. Qed.

(** Putting [x] at position [j] of [t]. *)
Lemma insertAt_length t x j :
  (j <= length t)%nat -> length (take j t ++ [x] ++ drop j t) = S (length t).
Proof. intros H. rewrite !length_app, length_take, length_drop. cbn. lia. Qed.

Lemma insertAt_lookup t x j :
  (j <= length t)%nat -> (take j t ++ [x] ++ drop j t) !! j = Some x.
Proof.
  intros H. rewrite lookup_app_r; rewrite length_take_le by done; [|done].
  now rewrite Nat.sub_diag.
Qed.

Lemma insertAt_removeAt t x j :
  (j <= length t)%nat ->
  removeAt (Z.of_nat j) (take j t ++ [x] ++ drop j t) = t.
Proof.
  intros H. unfold removeAt.
  replace (Z.to_nat (Z.of_nat j + 1)) with (S j) by lia. rewrite Nat2Z.id.
  rewrite take_app_length' by now rewrite length_take_le.
  rewrite (app_assoc _ [x]), drop_app_length'; [apply take_drop|].
  rewrite length_app, length_take_le by done. cbn. lia.
Qed.

Lemma moveRule_noop from to l :
  from = to \/ from < 0 \/ from >= Z.of_nat (length l)
    \/ to < 0 \/ to >= Z.of_nat (length l) ->
  moveRule from to l = l.
Proof.
  intros H. unfold moveRule.
  destruct (outOfRange from l) eqn:Ef; [done|].
  destruct (outOfRange to l) eqn:Et; [done|]. cbn [orb].
  apply outOfRange_false in Ef, Et.
  destruct (Z.eqb_spec from to); [done|]. lia.
Qed.

Lemma moveRule_moves from to l :
  from <> to -> 0 <= from < Z.of_nat (length l) -> 0 <= to < Z.of_nat (length l) ->
  length (moveRule from to l) = length l
  /\ moveRule from to l !! Z.to_nat to = l !! Z.to_nat from
  /\ removeAt to (moveRule from to l) = removeAt from l
  /\ (forall j, j <> Z.to_nat to ->
      moveRule from to l !! j = l !! movedFrom (Z.to_nat from) (Z.to_nat to) j).
Proof.
  intros Hne Hf Ht.
  assert (H3 : length (moveRule from to l) = length l
               /\ moveRule from to l !! Z.to_nat to = l !! Z.to_nat from
               /\ removeAt to (moveRule from to l) = removeAt from l).
  { unfold moveRule.
    destruct (outOfRange_false from l) as [_ ->]; [|done].
    destruct (outOfRange_false to l) as [_ ->]; [|done]. cbn [orb].
    destruct (Z.eqb_spec from to); [done|].
    destruct (lookup_lt_is_Some_2 l (Z.to_nat from)) as [x Hx]; [lia|]. rewrite Hx.
    pose proof (removeAt_length from l Hf) as Hlen.
    assert (Hj : (Z.to_nat to <= length (removeAt from l))%nat) by lia.
    split; [|split].
    - rewrite insertAt_length by done. lia.
    - now apply insertAt_lookup.
    - rewrite <- (Z2Nat.id to) at 1 by lia. now apply insertAt_removeAt. }
  destruct H3 as (Hlen & Hat & Hrest). split; [done|]. split; [done|]. split; [done|].
  intros j Hj. unfold movedFrom.
  set (k := if (j <? Z.to_nat to)%nat then j else (j - 1)%nat).
  assert (Hk : moveRule from to l !! j = removeAt from l !! k).
  { rewrite <- Hrest. unfold k. destruct (Nat.ltb_spec j (Z.to_nat to)).
    - symmetry. apply removeAt_lookup_lt; lia.
    - rewrite removeAt_lookup_ge by lia. f_equal. lia. }
  rewrite Hk. destruct (Nat.ltb_spec k (Z.to_nat from)).
  - apply removeAt_lookup_lt; lia.
  - apply removeAt_lookup_ge; lia.
Qed.

End ListEdits.

(** C7. [MoveFirewallRule] and [MovePortForwardingRule] leave the list as it
    is when the two indices are equal or one of them is outside [0, len);
    otherwise the list keeps its length, the rule that was at [from] is at
    [to], and the other rules keep their order (taking the moved rule out of
    the new list and out of the old one gives the same list; the rules
    between the two positions stand one position nearer to [from]).  Both methods
    return with the files untouched and the other list unchanged. *)
Theorem C7_move (s : Store) (from to : Z) :
  let fw := FirewallRules (config s) in
  let pf := PortForwardingRules (config s) in
  MoveFirewallRule from to s =
    (Ok tt, mkStore (mkConfig (moveRule from to fw) pf) (world s))
  /\ MovePortForwardingRule from to s =
    (Ok tt, mkStore (mkConfig fw (moveRule from to pf)) (world s))
  /\ (from = to \/ from < 0 \/ from >= Z.of_nat (length fw)
        \/ to < 0 \/ to >= Z.of_nat (length fw) ->
      moveRule from to fw = fw)
  /\ (from = to \/ from < 0 \/ from >= Z.of_nat (length pf)
        \/ to < 0 \/ to >= Z.of_nat (length pf) ->
      moveRule from to pf = pf)
  /\ (from <> to -> 0 <= from < Z.of_nat (length fw) -> 0 <= to < Z.of_nat (length fw) ->
      length (moveRule from to fw) = length fw
      /\ moveRule from to fw !! Z.to_nat to = fw !! Z.to_nat from
      /\ removeAt to (moveRule from to fw) = removeAt from fw
      /\ (forall j, j <> Z.to_nat to ->
          moveRule from to fw !! j = fw !! movedFrom (Z.to_nat from) (Z.to_nat to) j))
  /\ (from <> to -> 0 <= from < Z.of_nat (length pf) -> 0 <= to < Z.of_nat (length pf) ->
      length (moveRule from to pf) = length pf
      /\ moveRule from to pf !! Z.to_nat to = pf !! Z.to_nat from
      /\ removeAt to (moveRule from to pf) = removeAt from pf
      /\ (forall j, j <> Z.to_nat to ->
          moveRule from to pf !! j = pf !! movedFrom (Z.to_nat from) (Z.to_nat to) j)).
Proof.
  intros fw pf. split; [reflexivity|]. split; [reflexivity|].
  split; [apply moveRule_noop|]. split; [apply moveRule_noop|].
  split; apply moveRule_moves.
Qed.


Example moveRule_first_to_last :
  moveRule 0 2 [rule_a; rule_b; rule_c] = [rule_b; rule_c; rule_a].
Proof. reflexivity. Qed.

(** A list of three rules, its first rule moved to the end. *)
Lemma C7_move_witness :
  moveRule 0 2 [rule_a; rule_b; rule_c] !! 2%nat = Some rule_a.
Proof.
  destruct (C7_move (mkStore (mkConfig [rule_a; rule_b; rule_c] []) (mkWorld None ∅)) 0 2)
    as (_ & _ & _ & _ & H & _).
  destruct H as (_ & H & _); [lia | cbn; lia | cbn; lia | exact H].
Defined.

(** ** Loading and saving *)

#[local] Arguments Json.MarshalIndent : simpl never.
#[local] Arguments Json.Unmarshal : simpl never.

Lemma world_eta w : mkWorld (defaultConfigPath w) (files w) = w.
Proof. now destruct w. Qed.

Lemma store_eta s : mkStore (config s) (world s) = s.
Proof. now destruct s. Qed.

(** [LoadConfig] writes no file. *)
Lemma LoadConfig_world s : world (snd (LoadConfig s)) = world s.
Proof.
  unfold LoadConfig, bind, getDefaultConfigPath, getFiles, getConfig, setConfig.
  destruct (defaultConfigPath (world s)) as [path|]; [|done].
  destruct (files (world s) !! path) as [data|]; [|done].
  destruct (Json.Unmarshal data (config s)) as [c' [e|]]; done.
Qed.

(** [LoadConfig] fails when the path of the default file is not known. *)
Lemma LoadConfig_ok_path s :
  fst (LoadConfig s) = Ok tt -> exists path, defaultConfigPath (world s) = Some path.
Proof.
  unfold LoadConfig, bind, getDefaultConfigPath.
  destruct (defaultConfigPath (world s)) as [path|]; [eauto | discriminate].
Qed.

Lemma SaveConfig_run s path :
  defaultConfigPath (world s) = Some path ->
  SaveConfig s = (Ok tt, mkStore (config s) (written path (config s) (world s))).
Proof.
  intros Hp. unfold SaveConfig, bind, getDefaultConfigPath, MkdirAll, ret, getConfig,
    WriteFile, getFiles, setFiles, written. rewrite Hp. cbn. now rewrite Hp.
Qed.

(** The four methods that check an index: after a reload that failed, after a
    reload that succeeded with the index out of range, and with the index in
    range. *)
Lemma index_methods_load_fails s index rule fwd e :
  fst (LoadConfig s) = Err e ->
  UpdateFirewallRule index rule s = (Err e, snd (LoadConfig s))
  /\ DeleteFirewallRule index s = (Err e, snd (LoadConfig s))
  /\ UpdatePortForwardingRule index fwd s = (Err e, snd (LoadConfig s))
  /\ DeletePortForwardingRule index s = (Err e, snd (LoadConfig s)).
Proof.
  intros H. unfold UpdateFirewallRule, DeleteFirewallRule, UpdatePortForwardingRule,
    DeletePortForwardingRule, bind.
  destruct (LoadConfig s) as [[[]|e'] s1]; cbn [fst snd] in *; [discriminate|].
  now inversion H.
Qed.

Lemma firewall_methods_out_of_range s index rule :
  fst (LoadConfig s) = Ok tt ->
  outOfRange index (FirewallRules (config (snd (LoadConfig s)))) = true ->
  UpdateFirewallRule index rule s = (Err ErrInvalidIndex, snd (LoadConfig s))
  /\ DeleteFirewallRule index s = (Err ErrInvalidIndex, snd (LoadConfig s)).
Proof.
  intros H Hi. unfold UpdateFirewallRule, DeleteFirewallRule, bind, getConfig.
  destruct (LoadConfig s) as [[[]|e'] s1]; cbn [fst snd] in *; [|discriminate].
  now rewrite Hi.
Qed.

Lemma forwarding_methods_out_of_range s index fwd :
  fst (LoadConfig s) = Ok tt ->
  outOfRange index (PortForwardingRules (config (snd (LoadConfig s)))) = true ->
  UpdatePortForwardingRule index fwd s = (Err ErrInvalidIndex, snd (LoadConfig s))
  /\ DeletePortForwardingRule index s = (Err ErrInvalidIndex, snd (LoadConfig s)).
Proof.
  intros H Hi. unfold UpdatePortForwardingRule, DeletePortForwardingRule, bind, getConfig.
  destruct (LoadConfig s) as [[[]|e'] s1]; cbn [fst snd] in *; [|discriminate].
  now rewrite Hi.
Qed.

Lemma firewall_methods_in_range s index rule path :
  fst (LoadConfig s) = Ok tt ->
  defaultConfigPath (world s) = Some path ->
  outOfRange index (FirewallRules (config (snd (LoadConfig s)))) = false ->
  let fw := FirewallRules (config (snd (LoadConfig s))) in
  let pf := PortForwardingRules (config (snd (LoadConfig s))) in
  let updated := mkConfig (<[Z.to_nat index := rule]> fw) pf in
  let deleted := mkConfig (removeAt index fw) pf in
  UpdateFirewallRule index rule s = (Ok tt, mkStore updated (written path updated (world s)))
  /\ DeleteFirewallRule index s = (Ok tt, mkStore deleted (written path deleted (world s))).
Proof.
  intros H Hp Hi. pose proof (LoadConfig_world s) as Hw.
  unfold UpdateFirewallRule, DeleteFirewallRule, bind, getConfig.
  destruct (LoadConfig s) as [[[]|e'] s1]; cbn [fst snd] in *; [|discriminate].
  rewrite Hi. unfold setConfig, Json.setFirewallRules.
  rewrite !(SaveConfig_run _ path) by (cbn; congruence). cbn [config world].
  now rewrite Hw.
Qed.

Lemma forwarding_methods_in_range s index fwd path :
  fst (LoadConfig s) = Ok tt ->
  defaultConfigPath (world s) = Some path ->
  outOfRange index (PortForwardingRules (config (snd (LoadConfig s)))) = false ->
  let fw := FirewallRules (config (snd (LoadConfig s))) in
  let pf := PortForwardingRules (config (snd (LoadConfig s))) in
  let updated := mkConfig fw (<[Z.to_nat index := fwd]> pf) in
  let deleted := mkConfig fw (removeAt index pf) in
  UpdatePortForwardingRule index fwd s =
    (Ok tt, mkStore updated (written path updated (world s)))
  /\ DeletePortForwardingRule index s =
    (Ok tt, mkStore deleted (written path deleted (world s))).
Proof.
  intros H Hp Hi. pose proof (LoadConfig_world s) as Hw.
  unfold UpdatePortForwardingRule, DeletePortForwardingRule, bind, getConfig.
  destruct (LoadConfig s) as [[[]|e'] s1]; cbn [fst snd] in *; [|discriminate].
  rewrite Hi. unfold setConfig, Json.setPortForwardingRules.
  rewrite !(SaveConfig_run _ path) by (cbn; congruence). cbn [config world].
  now rewrite Hw.
Qed.

(** What replacing and removing do to a list, for an index in range. *)
Lemma edits_in_range {A} (l : list A) (index : Z) (x : A) :
  0 <= index < Z.of_nat (length l) ->
  length (<[Z.to_nat index := x]> l) = length l
  /\ <[Z.to_nat index := x]> l !! Z.to_nat index = Some x
  /\ (forall j, j <> Z.to_nat index -> <[Z.to_nat index := x]> l !! j = l !! j)
  /\ S (length (removeAt index l)) = length l
  /\ (forall j, (j < Z.to_nat index)%nat -> removeAt index l !! j = l !! j)
  /\ (forall j, (Z.to_nat index <= j)%nat -> removeAt index l !! j = l !! S j).
Proof.
  intros H. split; [apply length_insert|]. split; [apply list_lookup_insert_eq; lia|].
  split; [intros j Hj; now apply list_lookup_insert_ne|].
  split; [rewrite removeAt_length by done; lia|].
  split; intros j Hj; [apply removeAt_lookup_lt | apply removeAt_lookup_ge]; lia.
Qed.

(** C8. [UpdateFirewallRule], [DeleteFirewallRule] and their port-forward
    counterparts reload first (writing nothing) and return the reload's error
    when it fails.  After a reload that succeeds, an index outside [0, len) of
    the list just loaded makes them return the invalid-index error with the
    files as they were; an index in range makes [Update] put the rule at
    that position, the others staying, and [Delete] take the rule out, the
    list one shorter and every later rule one position down, and both then
    write the new document to the default file. *)
Theorem C8_update_delete (s : Store) (index : Z) (rule : FirewallRule)
    (fwd : PortForwardingRule) :
  let loaded := snd (LoadConfig s) in
  let fw := FirewallRules (config loaded) in
  let pf := PortForwardingRules (config loaded) in
  world loaded = world s
  /\ (forall e, fst (LoadConfig s) = Err e ->
      UpdateFirewallRule index rule s = (Err e, loaded)
      /\ DeleteFirewallRule index s = (Err e, loaded)
      /\ UpdatePortForwardingRule index fwd s = (Err e, loaded)
      /\ DeletePortForwardingRule index s = (Err e, loaded))
  /\ (fst (LoadConfig s) = Ok tt ->
      (index < 0 \/ index >= Z.of_nat (length fw) ->
         UpdateFirewallRule index rule s = (Err ErrInvalidIndex, loaded)
         /\ DeleteFirewallRule index s = (Err ErrInvalidIndex, loaded))
      /\ (index < 0 \/ index >= Z.of_nat (length pf) ->
         UpdatePortForwardingRule index fwd s = (Err ErrInvalidIndex, loaded)
         /\ DeletePortForwardingRule index s = (Err ErrInvalidIndex, loaded))
      /\ (0 <= index < Z.of_nat (length fw) ->
         exists path, defaultConfigPath (world s) = Some path
         /\ let updated := mkConfig (<[Z.to_nat index := rule]> fw) pf in
            let deleted := mkConfig (removeAt index fw) pf in
            UpdateFirewallRule index rule s =
              (Ok tt, mkStore updated (written path updated (world s)))
            /\ DeleteFirewallRule index s =
              (Ok tt, mkStore deleted (written path deleted (world s)))
            /\ length (<[Z.to_nat index := rule]> fw) = length fw
            /\ <[Z.to_nat index := rule]> fw !! Z.to_nat index = Some rule
            /\ (forall j, j <> Z.to_nat index -> <[Z.to_nat index := rule]> fw !! j = fw !! j)
            /\ S (length (removeAt index fw)) = length fw
            /\ (forall j, (j < Z.to_nat index)%nat -> removeAt index fw !! j = fw !! j)
            /\ (forall j, (Z.to_nat index <= j)%nat -> removeAt index fw !! j = fw !! S j))
      /\ (0 <= index < Z.of_nat (length pf) ->
         exists path, defaultConfigPath (world s) = Some path
         /\ let updated := mkConfig fw (<[Z.to_nat index := fwd]> pf) in
            let deleted := mkConfig fw (removeAt index pf) in
            UpdatePortForwardingRule index fwd s =
              (Ok tt, mkStore updated (written path updated (world s)))
            /\ DeletePortForwardingRule index s =
              (Ok tt, mkStore deleted (written path deleted (world s)))
            /\ length (<[Z.to_nat index := fwd]> pf) = length pf
            /\ <[Z.to_nat index := fwd]> pf !! Z.to_nat index = Some fwd
            /\ (forall j, j <> Z.to_nat index -> <[Z.to_nat index := fwd]> pf !! j = pf !! j)
            /\ S (length (removeAt index pf)) = length pf
            /\ (forall j, (j < Z.to_nat index)%nat -> removeAt index pf !! j = pf !! j)
            /\ (forall j, (Z.to_nat index <= j)%nat -> removeAt index pf !! j = pf !! S j))).
Proof.
  intros loaded fw pf. split; [apply LoadConfig_world|].
  split; [intros e He; now apply index_methods_load_fails|].
  intros Hok. split; [|split; [|split]].
  - intros Hi%outOfRange_true. now apply firewall_methods_out_of_range.
  - intros Hi%outOfRange_true. now apply forwarding_methods_out_of_range.
  - intros Hi. destruct (LoadConfig_ok_path s Hok) as [path Hp]. exists path.
    split; [done|]. intros updated deleted.
    destruct (firewall_methods_in_range s index rule path Hok Hp) as [Hu Hd];
      [now apply outOfRange_false|].
    split; [exact Hu|]. split; [exact Hd|]. now apply edits_in_range.
  - intros Hi. destruct (LoadConfig_ok_path s Hok) as [path Hp]. exists path.
    split; [done|]. intros updated deleted.
    destruct (forwarding_methods_in_range s index fwd path Hok Hp) as [Hu Hd];
      [now apply outOfRange_false|].
    split; [exact Hu|]. split; [exact Hd|]. now apply edits_in_range.
Qed.

(** The default file holds the worked rule; index 0 is in range after the
    reload, and the rule there is replaced. *)
Lemma C8_update_delete_witness :
  fst (UpdateFirewallRule 0 rule_a webStore) = Ok tt
  /\ config (snd (UpdateFirewallRule 0 rule_a webStore)) = mkConfig [rule_a] [].
Proof.
  destruct (C8_update_delete webStore 0 rule_a webFwd) as (_ & _ & H).
  destruct H as (_ & _ & H & _); [vm_compute; reflexivity|].
  destruct H as (path & _ & H & _); [vm_compute; split; [discriminate | reflexivity]|].
  rewrite H. split; reflexivity.
Defined.

(** C9. When the default file is absent [LoadConfig] installs the empty
    document and returns no error; when the file is there and its contents
    are not JSON, [LoadConfig] returns the syntax error of [json.Unmarshal]
    and leaves the document as it was; and any error of [json.Unmarshal] is
    the error returned. *)
Theorem C9_load (s : Store) (path : string) :
  defaultConfigPath (world s) = Some path ->
  (files (world s) !! path = None ->
     LoadConfig s = (Ok tt, mkStore emptyConfig (world s))
     /\ FirewallRules emptyConfig = [] /\ PortForwardingRules emptyConfig = [])
  /\ (forall data, files (world s) !! path = Some data -> Json.parse data = None ->
      LoadConfig s = (Err (ErrJson Json.SyntaxError), s))
  /\ (forall data e, files (world s) !! path = Some data ->
      snd (Json.Unmarshal data (config s)) = Some e ->
      fst (LoadConfig s) = Err (ErrJson e)).
Proof.
  intros Hp. unfold LoadConfig, bind, getDefaultConfigPath, getFiles, getConfig, setConfig.
  rewrite Hp. split; [|split].
  - now intros ->.
  - intros data -> Hparse. unfold Json.Unmarshal. rewrite Hparse. now rewrite store_eta.
  - intros data e -> He. destruct (Json.Unmarshal data (config s)) as [c' e'].
    cbn in He. now subst e'.
Qed.

(** A first run: no file yet. *)
Lemma C9_load_witness :
  LoadConfig (mkStore (mkConfig [webRule] []) (homeWorld ∅)) =
  (Ok tt, mkStore emptyConfig (homeWorld ∅)).
Proof.
  destruct (C9_load (mkStore (mkConfig [webRule] []) (homeWorld ∅)) rulesPath) as [H _];
    [reflexivity|].
  destruct H as [H _]; [reflexivity | exact H].
Defined.

Example LoadConfig_not_json :
  LoadConfig (mkStore (mkConfig [webRule] []) (homeWorld {[ rulesPath := "{ filter_rules: [] }" ]}))
  = (Err (ErrJson Json.SyntaxError),
     mkStore (mkConfig [webRule] []) (homeWorld {[ rulesPath := "{ filter_rules: [] }" ]})).
Proof. reflexivity. Qed.

(** ** Importing *)

Lemma backup_path_fresh (path : string) : path +:+ ".bak" <> path.
Proof.
  intros H. apply (f_equal String.length) in H. revert H.
  induction path as [|a p IH]; cbn; [discriminate|]. intros [= H]. auto.
Qed.

(** [ImportConfigFile] when the default file is there: the file is renamed,
    the source is read from the files as they are after that, and what was
    read is written and loaded. *)
Lemma ImportConfigFile_run s sourcePath path old :
  defaultConfigPath (world s) = Some path ->
  files (world s) !! path = Some old ->
  let renamed := <[path +:+ ".bak" := old]> (delete path (files (world s))) in
  ImportConfigFile sourcePath s =
  match renamed !! sourcePath with
  | None =>
      (Err (ErrWrap "failed to read import file" (ErrNotExist sourcePath)),
       mkStore (config s) (mkWorld (Some path) renamed))
  | Some data =>
      LoadConfig (mkStore (config s) (mkWorld (Some path) (<[path := data]> renamed)))
  end.
Proof.
  intros Hp Hold renamed.
  unfold ImportConfigFile, bind at 1, getDefaultConfigPath. rewrite Hp.
  unfold bind at 1, Stat, bind at 1, getFiles, ret. rewrite Hold.
  rewrite bool_decide_eq_true_2 by eauto.
  unfold bind at 1, wrap at 1, Rename, bind at 1, getFiles. rewrite Hold.
  unfold setFiles. cbn [config world defaultConfigPath files]. rewrite Hp.
  unfold bind at 1, wrap at 1, ReadFile, bind at 1, getFiles.
  cbn [config world defaultConfigPath files]. fold renamed.
  destruct (renamed !! sourcePath) as [data|]; [|reflexivity].
  unfold ret, bind at 1, MkdirAll, ret, bind at 1, wrap, WriteFile, bind at 1, getFiles,
    setFiles. reflexivity.
Qed.

(** C3 (as the code has it). With a default file present, [ImportConfigFile]
    renames it to [<default>.bak] before it reads the source, so the backup
    is made whether or not the source can be read; when the source cannot be
    read the call fails and no default file is left.  Otherwise the bytes
    read are written to the default path as they are and only then loaded, so
    on success the backup holds the old default bytes and the default file
    holds the source's bytes (its bytes from before the call unless the
    source is the backup path itself). *)
Theorem C3_import_backup (s : Store) (sourcePath path old : string) :
  defaultConfigPath (world s) = Some path ->
  files (world s) !! path = Some old ->
  let bak := path +:+ ".bak" in
  let renamed := <[bak := old]> (delete path (files (world s))) in
  let after := files (world (snd (ImportConfigFile sourcePath s))) in
  after !! bak = Some old
  /\ (renamed !! sourcePath = None ->
      fst (ImportConfigFile sourcePath s) =
        Err (ErrWrap "failed to read import file" (ErrNotExist sourcePath))
      /\ after = renamed /\ after !! path = None)
  /\ (forall data, renamed !! sourcePath = Some data ->
      ImportConfigFile sourcePath s =
        LoadConfig (mkStore (config s) (mkWorld (Some path) (<[path := data]> renamed)))
      /\ after = <[path := data]> renamed
      /\ after !! path = Some data
      /\ (sourcePath <> bak -> files (world s) !! sourcePath = Some data))
  /\ (fst (ImportConfigFile sourcePath s) = Ok tt ->
      after !! bak = Some old
      /\ after !! path = after !! sourcePath
      /\ (sourcePath <> bak -> after !! path = files (world s) !! sourcePath)).
Proof.
  intros Hp Hold bak renamed after.
  pose proof (ImportConfigFile_run s sourcePath path old Hp Hold) as Hrun.
  cbn zeta in Hrun. fold bak renamed in Hrun.
  pose proof (backup_path_fresh path) as Hbak. fold bak in Hbak.
  assert (Hsrc : forall data, renamed !! sourcePath = Some data ->
            after = <[path := data]> renamed).
  { intros data Hd. unfold after. rewrite Hrun, Hd. now rewrite LoadConfig_world. }
  assert (Hnone : renamed !! sourcePath = None -> after = renamed).
  { intros Hn. unfold after. now rewrite Hrun, Hn. }
  assert (Hpre : forall data, renamed !! sourcePath = Some data -> sourcePath <> bak ->
            files (world s) !! sourcePath = Some data).
  { intros data Hd Hne. unfold renamed in Hd.
    rewrite lookup_insert_ne in Hd by done.
    destruct (decide (sourcePath = path)) as [->|Hne'].
    - now rewrite lookup_delete_eq in Hd.
    - now rewrite lookup_delete_ne in Hd. }
  assert (Hb : after !! bak = Some old).
  { destruct (renamed !! sourcePath) as [data|] eqn:Hd.
    - rewrite (Hsrc data eq_refl). rewrite lookup_insert_ne by done.
      apply lookup_insert_eq.
    - rewrite (Hnone eq_refl). apply lookup_insert_eq. }
  split; [exact Hb|]. split; [|split].
  - intros Hn. split; [now rewrite Hrun, Hn|]. split; [now apply Hnone|].
    rewrite (Hnone Hn). unfold renamed. rewrite lookup_insert_ne by done.
    apply lookup_delete_eq.
  - intros data Hd. split; [now rewrite Hrun, Hd|]. split; [now apply Hsrc|].
    split; [rewrite (Hsrc data Hd); apply lookup_insert_eq | now apply Hpre].
  - intros Hok. destruct (renamed !! sourcePath) as [data|] eqn:Hd.
    + assert (Hpath : after !! path = Some data).
      { rewrite (Hsrc data eq_refl). apply lookup_insert_eq. }
      split; [exact Hb|]. split.
      * rewrite Hpath. destruct (decide (sourcePath = path)) as [->|Hne]; [done|].
        rewrite (Hsrc data eq_refl). now rewrite lookup_insert_ne.
      * intros Hne. rewrite Hpath. symmetry. now apply Hpre.
    + rewrite Hrun in Hok. discriminate.
Qed.

(** Importing the file that has the filter rules only over the default file
    of [webStore]. *)
Lemma C3_import_backup_witness :
  let s := mkStore emptyConfig
             (homeWorld (<[importPath := onlyFilterRules]> (files (world webStore)))) in
  files (world (snd (ImportConfigFile importPath s))) !! (rulesPath +:+ ".bak")
  = Some (Json.MarshalIndent (mkConfig [webRule] [])).
Proof.
  intros s.
  destruct (C3_import_backup s importPath rulesPath (Json.MarshalIndent (mkConfig [webRule] [])))
    as [H _]; [reflexivity | reflexivity | exact H].
Defined.

(** C3 as stated fails: the source is not there, so the import does not
    proceed, and yet the default file has been renamed: it is gone and its
    bytes are under the backup path.  And when the source is the backup path
    itself, the import succeeds with the old default bytes in both files: the
    bytes the source had before the call are lost. *)
Lemma C3_renamed_though_import_fails :
  let s' := snd (ImportConfigFile missingPath webStore) in
  let old := Json.MarshalIndent (mkConfig [webRule] []) in
  let bak := rulesPath +:+ ".bak" in
  let s2 := mkStore emptyConfig (homeWorld (<[bak := onlyFilterRules]> (files (world webStore)))) in
  (fst (ImportConfigFile missingPath webStore) =
     Err (ErrWrap "failed to read import file" (ErrNotExist missingPath))
   /\ files (world webStore) !! rulesPath = Some old
   /\ files (world s') !! rulesPath = None
   /\ files (world s') !! bak = Some old)
  /\ (fst (ImportConfigFile bak s2) = Ok tt
      /\ files (world s2) !! bak = Some onlyFilterRules
      /\ files (world (snd (ImportConfigFile bak s2))) !! rulesPath = Some old
      /\ old <> onlyFilterRules).
Proof. repeat split. intros H. vm_compute in H. discriminate H. Qed.

(** C10 (the code departs from it). The manager holds one redirection rule;
    the imported file is [{"filter_rules": []}], which denotes a document
    with no rule at all.  The import succeeds and the redirection rule is
    still in the manager's document: [LoadConfig] decodes into the document
    it already has, and a list whose key is absent keeps its old rules.  With
    an empty document before the import the result is the empty one, so the
    outcome depends on what the manager held. *)
Theorem C10_import_keeps_omitted_list :
  let w := homeWorld {[ importPath := onlyFilterRules ]} in
  Json.Unmarshal onlyFilterRules emptyConfig = (emptyConfig, None)
  /\ fst (ImportConfigFile importPath (mkStore (mkConfig [webRule] [webFwd]) w)) = Ok tt
  /\ config (snd (ImportConfigFile importPath (mkStore (mkConfig [webRule] [webFwd]) w)))
     = mkConfig [] [webFwd]
  /\ config (snd (ImportConfigFile importPath (mkStore emptyConfig w))) = emptyConfig.
Proof. repeat split. Qed.

(** ** Strings written and read back *)

Section Runes.
Import Json.

(** Induction along the runes of a string, as [escape], [coerce] and
    [ValidString] go through it. *)
Lemma rune_ind (P : string -> Prop) :
  P "" ->
  (forall c s, (byte c <? 128)%N = true -> P s -> P (String c s)) ->
  (forall c1 c2 s, (byte c1 <? 128)%N = false -> valid2 c1 c2 = true ->
     P s -> P (String c1 (String c2 s))) ->
  (forall c1 c2 c3 s, (byte c1 <? 128)%N = false -> valid2 c1 c2 = false ->
     valid3 c1 c2 c3 = true -> P s -> P (String c1 (String c2 (String c3 s)))) ->
  (forall c1 c2 c3 c4 s, (byte c1 <? 128)%N = false -> valid2 c1 c2 = false ->
     valid3 c1 c2 c3 = false -> valid4 c1 c2 c3 c4 = true ->
     P s -> P (String c1 (String c2 (String c3 (String c4 s))))) ->
  (forall c1 r1, (byte c1 <? 128)%N = false ->
     escape (String c1 r1) = escapedReplacement +:+ escape r1 ->
     coerce (String c1 r1) = replacement +:+ coerce r1 ->
     ValidString (String c1 r1) = false ->
     P r1 -> P (String c1 r1)) ->
  forall s, P s.
Proof.
  intros H0 H1 H2 H3 H4 Hbad s.
  assert (Hn : forall n s, (String.length s <= n)%nat -> P s).
  { clear s. induction n as [|n IH]; intros s Hlen.
    - destruct s; [exact H0 | cbn in Hlen; lia].
    - destruct s as [|c1 r1]; [exact H0|]. cbn in Hlen.
      destruct (byte c1 <? 128)%N eqn:E1; [apply H1; [done | apply IH; lia]|].
      assert (Pr1 : P r1) by (apply IH; lia).
      destruct r1 as [|c2 r2];
        [apply Hbad; [done | cbn; now rewrite E1 ..| done]|].
      destruct (valid2 c1 c2) eqn:E2; [apply H2; [done..| apply IH; cbn in Hlen; lia]|].
      destruct r2 as [|c3 r3];
        [apply Hbad; [done | cbn; now rewrite E1, E2 ..| done]|].
      destruct (valid3 c1 c2 c3) eqn:E3;
        [apply H3; [done..| apply IH; cbn in Hlen; lia]|].
      destruct r3 as [|c4 r4];
        [apply Hbad; [done | cbn; now rewrite E1, E2, E3 ..| done]|].
      destruct (valid4 c1 c2 c3 c4) eqn:E4;
        [apply H4; [done..| apply IH; cbn in Hlen; lia]|].
      apply Hbad; [done | cbn; now rewrite E1, E2, E3, E4 ..| done]. }
  apply (Hn (String.length s)). lia.
Qed.

Ltac by_runes :=
  match goal with
  | |- forall s : string, _ =>
      refine (rune_ind _ _ _ _ _ _ _);
      [ | intros c s E1 IH | intros c1 c2 s E1 E2 IH | intros c1 c2 c3 s E1 E2 E3 IH
        | intros c1 c2 c3 c4 s E1 E2 E3 E4 IH | intros c1 r1 E1 Hesc Hco Hval IH ]
  end.

Lemma coerce_valid : forall s, ValidString s = true -> coerce s = s.
Proof.
  by_runes.
  - done.
  - cbn [ValidString coerce]. rewrite E1. intros Hv. now rewrite IH.
  - cbn [ValidString coerce]. rewrite E1, E2. intros Hv. now rewrite IH.
  - cbn [ValidString coerce]. rewrite E1, E2, E3. intros Hv. now rewrite IH.
  - cbn [ValidString coerce]. rewrite E1, E2, E3, E4. intros Hv. now rewrite IH.
  - congruence.
Qed.

(** Bytes of a multi-byte sequence are above 0x7F, so they are neither the
    quote nor the backslash nor a control byte. *)
Lemma high_plain c :
  (byte c <? 128)%N = false ->
  Ascii.eqb c bs = false /\ Ascii.eqb c dq = false /\ (byte c <? 32)%N = false.
Proof.
  intros H. repeat split.
  - destruct (Ascii.eqb_spec c bs) as [->|]; [discriminate H | done].
  - destruct (Ascii.eqb_spec c dq) as [->|]; [discriminate H | done].
  - apply N.ltb_ge. apply N.ltb_ge in H. lia.
Qed.

Lemma cont_high c : cont c = true -> (byte c <? 128)%N = false.
Proof. unfold cont. rewrite andb_true_iff, !N.leb_le, N.ltb_ge. lia. Qed.

Lemma valid2_high c1 c2 : valid2 c1 c2 = true -> (byte c2 <? 128)%N = false.
Proof. unfold valid2. intros [_ H]%andb_true_iff. now apply cont_high. Qed.

Lemma valid3_high c1 c2 c3 :
  valid3 c1 c2 c3 = true -> (byte c2 <? 128)%N = false /\ (byte c3 <? 128)%N = false.
Proof.
  unfold valid3. cbn zeta. intros [H H3]%andb_true_iff.
  split; [|now apply cont_high]. revert H. unfold cont.
  rewrite !orb_true_iff, !andb_true_iff, !N.leb_le, !N.eqb_eq, N.ltb_ge. lia.
Qed.

Lemma valid4_high c1 c2 c3 c4 :
  valid4 c1 c2 c3 c4 = true ->
  (byte c2 <? 128)%N = false /\ (byte c3 <? 128)%N = false /\ (byte c4 <? 128)%N = false.
Proof.
  unfold valid4. cbn zeta. intros [[H H3]%andb_true_iff H4]%andb_true_iff.
  split; [|split; now apply cont_high]. revert H. unfold cont.
  rewrite !orb_true_iff, !andb_true_iff, !N.leb_le, !N.eqb_eq, N.ltb_ge. lia.
Qed.

(** *** The scanner inside a string literal *)

Lemma strScan_app a b esc :
  strScan (a +:+ b) esc =
  match strScan a esc with
  | Some esc' => strScan b esc'
  | None => None
  end.
Proof.
  revert esc. induction a as [|c a IH]; intros esc; [done|].
  cbn [String.append strScan]. destruct esc; [apply IH|].
  destruct (Ascii.eqb c bs); [apply IH|]. destruct (Ascii.eqb c dq); [done | apply IH].
Qed.

Lemma strScan_high c s : (byte c <? 128)%N = false -> strScan (String c s) false = strScan s false.
Proof. intros (Hb & Hq & _)%high_plain. cbn [strScan]. now rewrite Hb, Hq. Qed.

Lemma strScan_escapeByte c : (byte c <? 128)%N = true -> strScan (escapeByte c) false = Some false.
Proof.
  destruct c as [[] [] [] [] [] [] [] []]; intros H; try discriminate H; reflexivity.
Qed.

Lemma strScan_escapedLineSep c : strScan (escapedLineSep c) false = Some false.
Proof. destruct c as [[] [] [] [] [] [] [] []]; reflexivity. Qed.

Lemma strScan_escape : forall s, strScan (escape s) false = Some false.
Proof.
  by_runes.
  - done.
  - cbn [escape]. rewrite E1, strScan_app, strScan_escapeByte by done. exact IH.
  - cbn [escape]. rewrite E1, E2.
    rewrite !strScan_high; [done | now apply (valid2_high c1) | done].
  - cbn [escape]. rewrite E1, E2, E3. destruct (lineSep c1 c2 c3).
    + now rewrite strScan_app, strScan_escapedLineSep.
    + destruct (valid3_high _ _ _ E3) as [H2' H3'].
      cbn [String.append str1]. now rewrite !strScan_high.
  - cbn [escape]. rewrite E1, E2, E3, E4.
    destruct (valid4_high _ _ _ _ E4) as (H2' & H3' & H4').
    now rewrite !strScan_high.
  - rewrite Hesc, strScan_app. exact IH.
Qed.

(** *** Reading back what was written *)

Lemma byte_eq c n : (byte c =? n)%N = true -> c = ascii_of_N n.
Proof. intros H%N.eqb_eq. rewrite <- H. symmetry. apply ascii_N_embedding. Qed.

Lemma unquote_escapeByte c x :
  (byte c <? 128)%N = true -> unquote (escapeByte c +:+ x) = prepend (str1 c) (unquote x).
Proof.
  destruct c as [[] [] [] [] [] [] [] []]; intros H; try discriminate H; reflexivity.
Qed.

Lemma unquote_replacement x :
  unquote (escapedReplacement +:+ x) = prepend replacement (unquote x).
Proof. reflexivity. Qed.

Lemma unquote_lineSep c1 c2 c3 x :
  lineSep c1 c2 c3 = true ->
  unquote (escapedLineSep c3 +:+ x) = prepend (String c1 (String c2 (str1 c3))) (unquote x).
Proof.
  unfold lineSep. intros [[H1%byte_eq H2%byte_eq]%andb_true_iff H3]%andb_true_iff.
  subst c1 c2. apply orb_true_iff in H3 as [->%byte_eq | ->%byte_eq]; reflexivity.
Qed.

Lemma unquote_high c1 r1 :
  (byte c1 <? 128)%N = false ->
  unquote (String c1 r1) =
  match r1 with
  | String c2 r2 =>
      if valid2 c1 c2 then prepend (String c1 (str1 c2)) (unquote r2) else
      match r2 with
      | String c3 r3 =>
          if valid3 c1 c2 c3
          then prepend (String c1 (String c2 (str1 c3))) (unquote r3) else
          match r3 with
          | String c4 r4 =>
              if valid4 c1 c2 c3 c4
              then prepend (String c1 (String c2 (String c3 (str1 c4)))) (unquote r4)
              else prepend replacement (unquote r1)
          | EmptyString => prepend replacement (unquote r1)
          end
      | EmptyString => prepend replacement (unquote r1)
      end
  | EmptyString => prepend replacement (unquote r1)
  end.
Proof.
  intros H. destruct (high_plain c1 H) as (Hb & Hq & Hc).
  cbn [unquote]. now rewrite Hb, Hq, Hc, H.
Qed.

(** What was written for a string reads back as the string coerced to valid
    UTF-8. *)
Lemma unquote_escape : forall s, unquote (escape s) = Some (coerce s).
Proof.
  by_runes.
  - done.
  - cbn [escape coerce]. rewrite E1, unquote_escapeByte, IH by done. done.
  - cbn [escape coerce]. rewrite E1, E2, unquote_high, E2, IH by done. done.
  - cbn [escape coerce]. rewrite E1, E2, E3. destruct (lineSep c1 c2 c3) eqn:El.
    + now rewrite (unquote_lineSep c1 c2 c3), IH.
    + cbn [String.append str1]. rewrite unquote_high, E2, E3, IH by done. done.
  - cbn [escape coerce]. rewrite E1, E2, E3, E4, unquote_high, E2, E3, E4, IH by done. done.
  - rewrite Hesc, Hco, unquote_replacement, IH. done.
Qed.

End Runes.

(** ** The tokens of a written document *)

Section Lexing.
Import Json.

Lemma lexRun_string chunk : forall raw esc esc' rest toks,
  strScan chunk esc = Some esc' ->
  lexRun (chunk +:+ rest) (toks, LString raw esc) =
  lexRun rest (toks, LString (raw +:+ chunk) esc').
Proof.
  induction chunk as [|c chunk IH]; intros raw esc esc' rest toks H.
  - cbn in H. injection H as ->. now rewrite append_empty_r.
  - cbn [String.append lexRun lexStep]. cbn [strScan] in H.
    replace (raw +:+ String c chunk) with ((raw +:+ str1 c) +:+ chunk)
      by now rewrite append_assoc.
    destruct esc; [now apply IH|].
    destruct (Ascii.eqb c bs); [now apply IH|].
    destruct (Ascii.eqb c dq); [discriminate | now apply IH].
Qed.

Lemma Closed_quote s : Closed (quote s) [strToken s].
Proof.
  intros rest toks. unfold quote.
  change (lexRun (String dq (escape s +:+ str1 dq) +:+ rest) (toks, LStart))
    with (lexRun ((escape s +:+ str1 dq) +:+ rest) (toks, LString "" false)).
  rewrite append_assoc, (lexRun_string (escape s) "" false false) by apply strScan_escape.
  reflexivity.
Qed.

Lemma Closed_app a b ts us : Closed a ts -> Closed b us -> Closed (a +:+ b) (ts ++ us).
Proof.
  intros Ha Hb rest toks. rewrite append_assoc, Ha, Hb.
  now rewrite rev_app_distr, app_assoc.
Qed.

Lemma Closed_eq a ts us : Closed a ts -> ts = us -> Closed a us.
Proof. now intros H <-. Qed.

Lemma Closed_bool b : Closed (printBool b) [boolToken b].
Proof. intros rest toks. now destruct b. Qed.

Lemma lexRun_app a b st :
  lexRun (a +:+ b) st =
  match lexRun a st with
  | Some st' => lexRun b st'
  | None => None
  end.
Proof.
  revert st. induction a as [|c a IH]; intros st; [done|].
  cbn [String.append lexRun]. destruct (lexStep st c); [apply IH | done].
Qed.

(** The scanner only adds tokens in front of those it has. *)
Lemma lexStart_frame toks c extra :
  lexStart (toks ++ extra) c =
  match lexStart toks c with
  | Some (toks', m') => Some (toks' ++ extra, m')
  | None => None
  end.
Proof.
  unfold lexStart.
  repeat match goal with
         | |- context [if ?b then _ else _] => destruct b; [reflexivity|]
         end.
  reflexivity.
Qed.

Lemma lexStep_frame toks m c extra :
  lexStep (toks ++ extra, m) c =
  match lexStep (toks, m) c with
  | Some (toks', m') => Some (toks' ++ extra, m')
  | None => None
  end.
Proof.
  destruct m as [|raw esc|lit ns|word tok]; cbn [lexStep].
  - apply lexStart_frame.
  - destruct esc; [done|]. destruct (Ascii.eqb c bs); [done|].
    now destruct (Ascii.eqb c dq).
  - destruct (numStep ns c); [done|]. destruct (numDone ns); [|done].
    apply (lexStart_frame (TNumber lit :: toks)).
  - destruct word as [|x [|y word]]; [done| |]; now destruct (Ascii.eqb c x).
Qed.

Lemma lexRun_frame a : forall toks m extra,
  lexRun a (toks ++ extra, m) =
  match lexRun a (toks, m) with
  | Some (toks', m') => Some (toks' ++ extra, m')
  | None => None
  end.
Proof.
  induction a as [|c a IH]; intros toks m extra; [done|].
  cbn [lexRun]. rewrite lexStep_frame.
  destruct (lexStep (toks, m) c) as [[toks' m']|]; [apply IH | done].
Qed.

(** A piece that is spelled out is read by running the scanner on it. *)
Lemma Closed_literal a ts :
  lexRun a ([], LStart) = Some (ts, LStart) -> Closed a (rev ts).
Proof.
  intros H rest toks. rewrite lexRun_app.
  change (toks, LStart) with ([] ++ toks, LStart).
  rewrite (lexRun_frame a [] LStart toks), H. now rewrite rev_involutive.
Qed.

Ltac closed_piece :=
  first [ apply Closed_quote | apply Closed_bool
        | eapply Closed_literal; reflexivity ].

Ltac closed_pieces :=
  repeat (eapply Closed_app; [closed_piece|]); closed_piece.

Lemma Closed_printRule r : Closed (printRule r) (ruleTokens r).
Proof. eapply Closed_eq; [unfold printRule; closed_pieces | reflexivity]. Qed.

Lemma Closed_printRdr r : Closed (printRdr r) (rdrTokens r).
Proof. eapply Closed_eq; [unfold printRdr; closed_pieces | reflexivity]. Qed.

Section Slices.
Context {A : Type} (pr : A -> string) (tk : A -> list token).
Hypothesis Closed_pr : forall x, Closed (pr x) (tk x).

Lemma Closed_printMore l : Closed (printMore pr l) (moreTokens tk l).
Proof.
  induction l as [|x l IH]; [intros rest toks; reflexivity|].
  cbn [printMore moreTokens].
  eapply Closed_eq;
    [eapply Closed_app; [closed_piece|];
     eapply Closed_app; [closed_piece|];
     eapply Closed_app; [apply Closed_pr | apply IH]
    | reflexivity].
Qed.

Lemma Closed_printSlice l : Closed (printSlice pr l) (sliceTokens tk l).
Proof.
  destruct l as [|x l]; [eapply Closed_eq; [closed_piece | reflexivity]|].
  cbn [printSlice sliceTokens].
  eapply Closed_eq;
    [eapply Closed_app; [closed_piece|];
     eapply Closed_app; [closed_piece|];
     eapply Closed_app; [apply Closed_pr|];
     eapply Closed_app; [apply Closed_printMore|];
     eapply Closed_app; closed_piece
    | reflexivity].
Qed.
End Slices.

Lemma Closed_MarshalIndent c : Closed (MarshalIndent c) (configTokens c).
Proof.
  unfold MarshalIndent.
  eapply Closed_eq;
    [eapply Closed_app; [closed_piece|];
     eapply Closed_app; [closed_piece|];
     eapply Closed_app; [closed_piece|];
     eapply Closed_app; [apply Closed_printSlice, Closed_printRule|];
     eapply Closed_app; [closed_piece|];
     eapply Closed_app; [closed_piece|];
     eapply Closed_app; [closed_piece|];
     eapply Closed_app; [apply Closed_printSlice, Closed_printRdr|];
     eapply Closed_app; closed_piece
    | reflexivity].
Qed.

(** The scanner reads a written document as its tokens. *)
Lemma lex_MarshalIndent c : lex (MarshalIndent c) = Some (configTokens c).
Proof.
  unfold lex. rewrite <- (append_empty_r (MarshalIndent c)), Closed_MarshalIndent.
  cbn [lexRun lexEnd]. now rewrite app_nil_r, rev_involutive.
Qed.

End Lexing.

(** ** The value of a written document *)

Section Parsing.
Import Json.

#[local] Arguments escape : simpl never.
#[local] Arguments coerce : simpl never.
#[local] Arguments open : simpl never.
#[local] Arguments deliver v !stack /.

Lemma open_shallow f ph stack :
  (length stack <= 2)%nat -> open f ph stack = Some (f :: stack, ph).
Proof.
  intros H. unfold open, maxNestingDepth.
  destruct (N.ltb_spec (N.of_nat (length stack)) 10000); [done | lia].
Qed.

Lemma unquote_plain k : plainKey k = true -> unquote k = Some k.
Proof.
  induction k as [|c k IH]; [done|]. cbn [plainKey unquote].
  intros [[[[Hb%negb_true_iff Hq%negb_true_iff]%andb_true_iff Hc%N.leb_le]%andb_true_iff
            Ha]%andb_true_iff Hk]%andb_true_iff.
  rewrite Hb, Hq, Ha, (IH Hk). cbn [orb].
  destruct (N.ltb_spec (byte c) 32); [lia | done].
Qed.

(** The members of an object, token by token: a key that is spelled out is
    unquoted by [unquote_plain], a written string by [unquote_escape]. *)
Ltac parse_members :=
  repeat (cbn [parseRun parseStep startValue readKey deliver closeObject boolToken];
          match goal with
          | |- context [unquote (escape ?s)] => rewrite (unquote_escape s)
          | |- context [unquote (String ?c ?k)] =>
              rewrite (unquote_plain (String c k)) by reflexivity
          end);
  cbn [parseRun parseStep startValue readKey deliver closeObject boolToken rev app].

Lemma Delivers_rule r : Delivers 2 (ruleTokens r) (ruleJson (coerceRule r)).
Proof.
  destruct r as [a d q i p s t po k de]. destruct q, k.
  all: intros stack ph rest Hph Hlen; unfold ruleTokens, keyTokens, strToken.
  all: cbn [app Action Direction Quick Interface Protocol Source Destination Port
            KeepState Description]; cbn [parseRun].
  all:
  replace (parseStep (stack, ph) TLBrace) with (open (FObject [] None) PKeyOrEnd stack)
    by now destruct Hph as [-> | ->].
  all: rewrite open_shallow by done.
  all: parse_members; reflexivity.
Qed.

Lemma Delivers_rdr r : Delivers 2 (rdrTokens r) (rdrJson (coerceRdr r)).
Proof.
  intros stack ph rest Hph Hlen. unfold rdrTokens, keyTokens, strToken.
  cbn [app]. cbn [parseRun].
  replace (parseStep (stack, ph) TLBrace) with (open (FObject [] None) PKeyOrEnd stack)
    by now destruct Hph as [-> | ->].
  rewrite open_shallow by done.
  parse_members. reflexivity.
Qed.

Section Slices.
Context {A : Type} (tk : A -> list token) (js : A -> json).
Hypothesis Delivers_tk : forall x, Delivers 2 (tk x) (js x).

Lemma parseRun_more l : forall elems stack rest,
  (length stack <= 1)%nat ->
  parseRun (moreTokens tk l ++ rest) (FArray elems :: stack, PCommaOrEnd) =
  parseRun rest (FArray (rev (map js l) ++ elems) :: stack, PCommaOrEnd).
Proof.
  induction l as [|x l IH]; intros elems stack rest Hlen; [done|].
  cbn [moreTokens app parseRun parseStep]. rewrite <- app_assoc.
  rewrite Delivers_tk; [|now left | cbn; lia].
  cbn [deliver]. rewrite IH by done. cbn [map rev]. now rewrite <- app_assoc.
Qed.

Lemma Delivers_slice l : Delivers 1 (sliceTokens tk l) (JArray (map js l)).
Proof.
  intros stack ph rest Hph Hlen. destruct l as [|x l]; cbn [sliceTokens app parseRun].
  - replace (parseStep (stack, ph) TLBracket) with (open (FArray []) PValueOrEnd stack)
      by now destruct Hph as [-> | ->].
    rewrite open_shallow by lia. reflexivity.
  - replace (parseStep (stack, ph) TLBracket) with (open (FArray []) PValueOrEnd stack)
      by now destruct Hph as [-> | ->].
    rewrite open_shallow by lia. rewrite <- !app_assoc.
    rewrite Delivers_tk; [|now right | cbn; lia].
    cbn [deliver]. rewrite parseRun_more by done.
    cbn [app parseRun parseStep closeArray map].
    now rewrite rev_app_distr, rev_involutive.
Qed.
End Slices.

(** The parser reads the tokens of a written document as the document
    with its strings coerced. *)
Lemma parseRun_config c :
  parseRun (configTokens c) ([], PValue) =
  Some ([], PDone (JObject
    [("filter_rules"%string, JArray (map (fun r => ruleJson (coerceRule r)) (FirewallRules c)));
     ("rdr_rules"%string, JArray (map (fun r => rdrJson (coerceRdr r)) (PortForwardingRules c)))])).
Proof.
  unfold configTokens, keyTokens. cbn [app parseRun parseStep startValue].
  rewrite open_shallow by (cbn; lia). parse_members.
  rewrite (Delivers_slice ruleTokens (fun r => ruleJson (coerceRule r)) Delivers_rule);
    [|now left | cbn; lia].
  parse_members.
  rewrite (Delivers_slice rdrTokens (fun r => rdrJson (coerceRdr r)) Delivers_rdr);
    [|now left | cbn; lia].
  parse_members. reflexivity.
Qed.

Lemma parse_MarshalIndent c : parse (MarshalIndent c) = Some (configJson (coerceConfig c)).
Proof.
  unfold parse. rewrite lex_MarshalIndent, parseRun_config.
  unfold configJson, coerceConfig. cbn [FirewallRules PortForwardingRules].
  now rewrite !map_map.
Qed.

End Parsing.

(** ** Decoding a written document *)

Section Decoding.
Import Json.

(** Every field of a rule is in the object written for it, so nothing of
    the rule decoded into is left. *)
Lemma decodeRule_ruleJson r old : decodeRule (ruleJson r) old = (r, None).
Proof. destruct r, old. vm_compute. reflexivity. Qed.

Lemma decodeRdr_rdrJson r old : decodeRdr (rdrJson r) old = (r, None).
Proof. destruct r, old. vm_compute. reflexivity. Qed.

Lemma decodeElems_map {A} (dec : json -> A -> A * option jsonError) (js : A -> json) zero :
  (forall x old, dec (js x) old = (x, None)) ->
  forall l old, decodeElems dec zero (map js l) old = (l, None).
Proof.
  intros Hdec. induction l as [|x l IH]; intros old; [done|].
  cbn [map decodeElems]. now rewrite Hdec, IH.
Qed.

Lemma decodeConfig_configJson c old : decodeConfig (configJson c) old = (c, None).
Proof.
  unfold decodeConfig, configJson. cbn [fold_left].
  unfold decodeConfigMember at 2. cbn [fst snd].
  change (fieldIs "filter_rules" "filter_rules") with true. cbn match.
  unfold decodeSlice at 1.
  rewrite (decodeElems_map decodeRule ruleJson zeroRule decodeRule_ruleJson).
  unfold store, first. cbn [fst snd].
  unfold decodeConfigMember. cbn [fst snd].
  change (fieldIs "rdr_rules" "filter_rules") with false.
  change (fieldIs "rdr_rules" "rdr_rules") with true. cbn match.
  unfold decodeSlice, setFirewallRules. cbn [FirewallRules PortForwardingRules].
  rewrite (decodeElems_map decodeRdr rdrJson Rdr.zeroRule decodeRdr_rdrJson).
  unfold store, first, setPortForwardingRules. cbn [fst snd FirewallRules].
  now destruct c.
Qed.

(** What was written for a document is read, over any document, as the
    document with its strings coerced to valid UTF-8. *)
Lemma Unmarshal_MarshalIndent c old :
  Unmarshal (MarshalIndent c) old = (coerceConfig c, None).
Proof. unfold Unmarshal. now rewrite parse_MarshalIndent, decodeConfig_configJson. Qed.

Lemma coerceRule_valid r : ValidRule r = true -> coerceRule r = r.
Proof.
  unfold ValidRule, coerceRule. rewrite !andb_true_iff.
  intros [[[[[[[? ?] ?] ?] ?] ?] ?] ?]. destruct r; cbn in *.
  now rewrite !coerce_valid.
Qed.

Lemma coerceRdr_valid r : ValidRdr r = true -> coerceRdr r = r.
Proof.
  unfold ValidRdr, coerceRdr. rewrite !andb_true_iff.
  intros [[[[[[? ?] ?] ?] ?] ?] ?]. destruct r; cbn in *.
  now rewrite !coerce_valid.
Qed.

Lemma coerceConfig_valid c : ValidConfig c = true -> coerceConfig c = c.
Proof.
  unfold ValidConfig, coerceConfig. intros [Hf Hp]%andb_true_iff. destruct c as [fw pf].
  cbn [FirewallRules PortForwardingRules] in *. f_equal.
  - induction fw as [|r fw IH]; [done|]. cbn in *. apply andb_true_iff in Hf as [Hr Hf].
    now rewrite coerceRule_valid, IH.
  - induction pf as [|r pf IH]; [done|]. cbn in *. apply andb_true_iff in Hp as [Hr Hp].
    now rewrite coerceRdr_valid, IH.
Qed.

End Decoding.

(** ** Saving, then loading *)

Lemma LoadConfig_written prior path c w :
  defaultConfigPath w = Some path ->
  LoadConfig (mkStore prior (written path c w)) =
  (Ok tt, mkStore (coerceConfig c) (written path c w)).
Proof.
  intros Hp. unfold LoadConfig, bind, getDefaultConfigPath, getFiles, getConfig, setConfig,
    written.
  cbn [world config defaultConfigPath files]. rewrite Hp.
  cbn [world config defaultConfigPath files]. rewrite lookup_insert_eq.
  now rewrite Unmarshal_MarshalIndent.
Qed.

(** C2 (as the code has it). [SaveConfig] followed by [LoadConfig] yields the
    document saved with every string coerced to valid UTF-8, both lists in
    their order, whatever document the manager holds when it loads; so a
    document whose strings are all valid UTF-8 comes back equal to the one
    saved. *)
Theorem C2_save_load (s : Store) (path : string) (prior : Config) :
  defaultConfigPath (world s) = Some path ->
  let saved := snd (SaveConfig s) in
  SaveConfig s = (Ok tt, saved)
  /\ config saved = config s
  /\ LoadConfig saved = (Ok tt, mkStore (coerceConfig (config s)) (world saved))
  /\ LoadConfig (mkStore prior (world saved)) =
       (Ok tt, mkStore (coerceConfig (config s)) (world saved))
  /\ (ValidConfig (config s) = true ->
      LoadConfig saved = (Ok tt, saved)
      /\ config (snd (LoadConfig saved)) = config s
      /\ FirewallRules (config (snd (LoadConfig saved))) = FirewallRules (config s)
      /\ PortForwardingRules (config (snd (LoadConfig saved))) = PortForwardingRules (config s)
      /\ config (snd (LoadConfig (mkStore prior (world saved)))) = config s).
Proof.
  intros Hp saved. pose proof (SaveConfig_run s path Hp) as Hsave.
  assert (Hs : saved = mkStore (config s) (written path (config s) (world s)))
    by (unfold saved; now rewrite Hsave).
  assert (Hl : forall p, LoadConfig (mkStore p (world saved)) =
                 (Ok tt, mkStore (coerceConfig (config s)) (world saved))).
  { intros p. rewrite Hs. cbn [world]. now apply LoadConfig_written. }
  assert (Hl' : LoadConfig saved = (Ok tt, mkStore (coerceConfig (config s)) (world saved))).
  { rewrite <- (store_eta saved) at 1. apply Hl. }
  split; [now rewrite Hs|]. split; [now rewrite Hs|]. split; [exact Hl'|].
  split; [apply Hl|]. intros Hv%coerceConfig_valid.
  rewrite Hl', Hl, Hv. cbn [snd config].
  repeat split. rewrite Hs at 2. now rewrite Hs.
Qed.

(** The worked rule saved on a first run and loaded again. *)
Lemma C2_save_load_witness :
  let s := mkStore (mkConfig [webRule] [webFwd]) (homeWorld ∅) in
  config (snd (LoadConfig (snd (SaveConfig s)))) = mkConfig [webRule] [webFwd].
Proof.
  intros s.
  destruct (C2_save_load s rulesPath emptyConfig) as (_ & _ & _ & _ & H); [reflexivity|].
  destruct H as (_ & H & _); [reflexivity | exact H].
Defined.

(** C2 as stated fails: a description that is the byte 0xFF is written as the
    escape of U+FFFD, so what is loaded is not the document saved. *)
Lemma C2_invalid_utf8_not_restored :
  fst (SaveConfig rawStore) = Ok tt
  /\ fst (LoadConfig (snd (SaveConfig rawStore))) = Ok tt
  /\ config (snd (LoadConfig (snd (SaveConfig rawStore)))) <> config rawStore
  /\ Description <$> FirewallRules (config (snd (LoadConfig (snd (SaveConfig rawStore)))))
     = [Json.replacement].
Proof.
  split; [reflexivity|]. split; [reflexivity|]. split; [|reflexivity].
  intros H. apply (f_equal (fun c => Description <$> FirewallRules c)) in H.
  vm_compute in H. discriminate H.
Qed.

(** ** Further properties of the rule store *)

#[local] Arguments Json.MarshalIndent : simpl never.
#[local] Arguments Json.Unmarshal : simpl never.

(** Loading a file that [SaveConfig] wrote replaces whatever the manager
    holds. *)
Lemma LoadConfig_holds c w path d :
  holds w path d -> LoadConfig (mkStore c w) = (Ok tt, mkStore (coerceConfig d) w).
Proof.
  intros [Hp Hf]. unfold LoadConfig, bind, getDefaultConfigPath, getFiles, getConfig, setConfig.
  cbn [world config]. rewrite Hp. cbn [world config]. rewrite Hf.
  now rewrite Unmarshal_MarshalIndent.
Qed.

Lemma written_holds w path d :
  defaultConfigPath w = Some path -> holds (written path d w) path d.
Proof. intros Hp. split; [exact Hp | apply lookup_insert_eq]. Qed.

(** X1. [AddFirewallRule] and [AddPortForwardingRule] reload first; when the
    reload fails they return its error with the files as they were; otherwise
    they put the rule after the last rule of the list just loaded, leave the
    other list as loaded, and write the new document to the default file. *)
Theorem Add_appends_after_reload (s : Store) (rule : FirewallRule) (fwd : PortForwardingRule) :
  let loaded := snd (LoadConfig s) in
  let fw := FirewallRules (config loaded) in
  let pf := PortForwardingRules (config loaded) in
  (forall e, fst (LoadConfig s) = Err e ->
     AddFirewallRule rule s = (Err e, loaded)
     /\ AddPortForwardingRule fwd s = (Err e, loaded)
     /\ world loaded = world s)
  /\ (fst (LoadConfig s) = Ok tt ->
      exists path, defaultConfigPath (world s) = Some path
      /\ AddFirewallRule rule s =
           (Ok tt, mkStore (mkConfig (fw ++ [rule]) pf)
                     (written path (mkConfig (fw ++ [rule]) pf) (world s)))
      /\ AddPortForwardingRule fwd s =
           (Ok tt, mkStore (mkConfig fw (pf ++ [fwd]))
                     (written path (mkConfig fw (pf ++ [fwd])) (world s)))
      /\ (fw ++ [rule]) !! length fw = Some rule
      /\ (pf ++ [fwd]) !! length pf = Some fwd
      /\ (forall j, (j < length fw)%nat -> (fw ++ [rule]) !! j = fw !! j)
      /\ (forall j, (j < length pf)%nat -> (pf ++ [fwd]) !! j = pf !! j)).
Proof.
  intros loaded fw pf. pose proof (LoadConfig_world s) as Hw. split.
  - intros e He. unfold AddFirewallRule, AddPortForwardingRule, bind. subst loaded.
    destruct (LoadConfig s) as [[[]|e'] s1]; cbn [fst snd] in *; [discriminate|].
    now inversion He.
  - intros Hok. destruct (LoadConfig_ok_path s Hok) as [path Hp]. exists path.
    split; [done|]. subst loaded fw pf.
    unfold AddFirewallRule, AddPortForwardingRule, bind, getConfig.
    destruct (LoadConfig s) as [[[]|e'] s1]; cbn [fst snd] in *; [|discriminate].
    unfold setConfig, Json.setFirewallRules, Json.setPortForwardingRules.
    rewrite !(SaveConfig_run _ path) by (cbn; congruence). cbn [config world]. rewrite Hw.
    split; [done|]. split; [done|].
    split; [now rewrite lookup_app_r, Nat.sub_diag by lia|].
    split; [now rewrite lookup_app_r, Nat.sub_diag by lia|].
    split; intros j Hj; now apply lookup_app_l.
Qed.

(** Adding a rule on a first run: no default file yet. *)
Lemma Add_appends_after_reload_witness :
  config (snd (AddFirewallRule webRule (mkStore (mkConfig [rule_a] []) (homeWorld ∅))))
  = mkConfig [webRule] [].
Proof.
  destruct (Add_appends_after_reload (mkStore (mkConfig [rule_a] []) (homeWorld ∅)) webRule webFwd)
    as [_ H].
  destruct H as (path & _ & H & _); [reflexivity|]. rewrite H. reflexivity.
Defined.

(** X2. When the default file holds a document that was saved, what the
    manager holds does not matter to [Add], [Update] and [Delete]: they start
    from the file.  So an order changed by [MoveFirewallRule] and not saved is
    gone after the next [AddFirewallRule], which appends to the saved
    order. *)
Theorem reload_discards_unsaved (c c' d : Config) (w : World) (path : string)
    (rule : FirewallRule) (fwd : PortForwardingRule) (index from to : Z) :
  holds w path d ->
  AddFirewallRule rule (mkStore c w) = AddFirewallRule rule (mkStore c' w)
  /\ UpdateFirewallRule index rule (mkStore c w) = UpdateFirewallRule index rule (mkStore c' w)
  /\ DeleteFirewallRule index (mkStore c w) = DeleteFirewallRule index (mkStore c' w)
  /\ AddPortForwardingRule fwd (mkStore c w) = AddPortForwardingRule fwd (mkStore c' w)
  /\ UpdatePortForwardingRule index fwd (mkStore c w) =
       UpdatePortForwardingRule index fwd (mkStore c' w)
  /\ DeletePortForwardingRule index (mkStore c w) = DeletePortForwardingRule index (mkStore c' w)
  /\ AddFirewallRule rule (snd (MoveFirewallRule from to (mkStore c w))) =
       AddFirewallRule rule (mkStore c w)
  /\ config (snd (AddFirewallRule rule (snd (MoveFirewallRule from to (mkStore c w))))) =
       mkConfig (FirewallRules (coerceConfig d) ++ [rule]) (PortForwardingRules (coerceConfig d)).
Proof.
  intros H.
  assert (Hb : forall (k : unit -> M unit) x,
            bind LoadConfig k (mkStore x w) = k tt (mkStore (coerceConfig d) w)).
  { intros k x. unfold bind at 1. now rewrite (LoadConfig_holds x w path d H). }
  unfold AddFirewallRule, UpdateFirewallRule, DeleteFirewallRule, AddPortForwardingRule,
    UpdatePortForwardingRule, DeletePortForwardingRule.
  rewrite !Hb. repeat (split; [reflexivity|]).
  assert (Hm : snd (MoveFirewallRule from to (mkStore c w)) =
               mkStore (mkConfig (moveRule from to (FirewallRules c)) (PortForwardingRules c)) w)
    by reflexivity.
  rewrite Hm, !Hb. split; [reflexivity|].
  unfold bind, getConfig, setConfig, Json.setFirewallRules. cbn [config world].
  rewrite (SaveConfig_run _ path) by (cbn; apply H). reflexivity.
Qed.

(** The saved order is [a], [b], [c]; the manager moved [a] to the end and
    then adds a rule. *)
Lemma reload_discards_unsaved_witness :
  FirewallRules (config (snd (AddFirewallRule webRule
    (snd (MoveFirewallRule 0 2 (mkStore abcConfig abcWorld))))))
  = [rule_a; rule_b; rule_c; webRule].
Proof.
  destruct (reload_discards_unsaved abcConfig abcConfig abcConfig abcWorld rulesPath
              webRule webFwd 0 0 2) as (_ & _ & _ & _ & _ & _ & _ & H);
    [split; reflexivity|].
  rewrite H. reflexivity.
Defined.

Lemma removeAt_last {A} (l : list A) (x : A) :
  removeAt (Z.of_nat (length l)) (l ++ [x]) = l.
Proof.
  unfold removeAt. replace (Z.to_nat (Z.of_nat (length l) + 1)) with (S (length l)) by lia.
  rewrite Nat2Z.id, take_app_length, drop_ge, app_nil_r; [done|].
  rewrite length_app. cbn. lia.
Qed.

Lemma written_twice w path c d :
  written path d (written path c w) = written path d w.
Proof. unfold written. cbn [defaultConfigPath files]. now rewrite insert_insert_eq. Qed.

Lemma written_same w path d : holds w path d -> written path d w = w.
Proof.
  intros [Hp Hf]. unfold written. rewrite insert_id by done. apply world_eta.
Qed.

(** X3. With a saved document of valid UTF-8 strings in the default file,
    adding a rule and then deleting the rule at the last position brings back
    the document and the file as they were saved. *)
Theorem Add_then_Delete_last (c d : Config) (w : World) (path : string) (rule : FirewallRule) :
  holds w path d -> ValidConfig d = true ->
  let added := snd (AddFirewallRule rule (mkStore c w)) in
  fst (AddFirewallRule rule (mkStore c w)) = Ok tt
  /\ DeleteFirewallRule (Z.of_nat (length (FirewallRules d))) added = (Ok tt, mkStore d w).
Proof.
  intros H Hv%coerceConfig_valid added.
  assert (Hadd : AddFirewallRule rule (mkStore c w) =
            (Ok tt, mkStore (mkConfig (FirewallRules d ++ [rule]) (PortForwardingRules d))
                      (written path (mkConfig (FirewallRules d ++ [rule]) (PortForwardingRules d)) w))).
  { unfold AddFirewallRule, bind at 1. rewrite (LoadConfig_holds c w path d H), Hv.
    unfold bind, getConfig, setConfig, Json.setFirewallRules. cbn [config world].
    rewrite (SaveConfig_run _ path) by (cbn; apply H). reflexivity. }
  subst added. rewrite Hadd. cbn [fst snd]. split; [done|].
  set (d1 := mkConfig (FirewallRules d ++ [rule]) (PortForwardingRules d)).
  unfold DeleteFirewallRule, bind at 1.
  rewrite (LoadConfig_holds d1 (written path d1 w) path d1)
    by (apply written_holds, H).
  unfold bind at 1, getConfig. cbn [config].
  assert (Hfw : FirewallRules (coerceConfig d1) = FirewallRules d ++ [coerceRule rule]).
  { unfold coerceConfig, d1. cbn [FirewallRules]. rewrite map_app.
    change (map coerceRule (FirewallRules d)) with (FirewallRules (coerceConfig d)).
    now rewrite Hv. }
  assert (Hpf : PortForwardingRules (coerceConfig d1) = PortForwardingRules d).
  { change (PortForwardingRules (coerceConfig d1)) with (PortForwardingRules (coerceConfig d)).
    now rewrite Hv. }
  rewrite Hfw.
  destruct (outOfRange_false (Z.of_nat (length (FirewallRules d)))
              (FirewallRules d ++ [coerceRule rule])) as [_ ->];
    [|rewrite length_app; cbn; lia].
  unfold bind, setConfig, Json.setFirewallRules. cbn [config world].
  rewrite (SaveConfig_run _ path) by (cbn; apply H). cbn [config world].
  rewrite Hpf, removeAt_last, written_twice.
  replace (mkConfig (FirewallRules d) (PortForwardingRules d)) with d by now destruct d.
  now rewrite (written_same w path d H).
Qed.

Lemma Add_then_Delete_last_witness :
  DeleteFirewallRule 3 (snd (AddFirewallRule webRule (mkStore emptyConfig abcWorld)))
  = (Ok tt, mkStore abcConfig abcWorld).
Proof.
  destruct (Add_then_Delete_last emptyConfig abcConfig abcWorld rulesPath webRule) as [_ H];
    [split; reflexivity | reflexivity | exact H].
Defined.

(** ** Further properties of import and export *)

(** [ImportConfigFile] when there is no default file: nothing is renamed. *)
Lemma ImportConfigFile_fresh s sourcePath path :
  defaultConfigPath (world s) = Some path ->
  files (world s) !! path = None ->
  ImportConfigFile sourcePath s =
  match files (world s) !! sourcePath with
  | None => (Err (ErrWrap "failed to read import file" (ErrNotExist sourcePath)), s)
  | Some data =>
      LoadConfig (mkStore (config s) (mkWorld (Some path) (<[path := data]> (files (world s)))))
  end.
Proof.
  intros Hp Hnone.
  unfold ImportConfigFile, bind at 1, getDefaultConfigPath. rewrite Hp.
  unfold bind at 1, Stat, bind at 1, getFiles, ret. rewrite Hnone.
  rewrite bool_decide_eq_false_2 by (intros [x Hx]; discriminate).
  unfold bind at 1, ret. unfold bind at 1, wrap at 1, ReadFile, bind at 1, getFiles.
  destruct (files (world s) !! sourcePath) as [data|]; [|reflexivity].
  unfold ret, bind at 1, MkdirAll, ret, bind at 1, wrap, WriteFile, bind at 1, getFiles,
    setFiles. now rewrite Hp.
Qed.

(** X4. On a first import (no default file yet) no backup is made: when the
    source is there its bytes become the default file and every other file
    stays as it was, the backup path included; when the source is not there
    the call fails and nothing changes. *)
Theorem Import_without_default (s : Store) (sourcePath path : string) :
  defaultConfigPath (world s) = Some path ->
  files (world s) !! path = None ->
  let after := files (world (snd (ImportConfigFile sourcePath s))) in
  (files (world s) !! sourcePath = None ->
     ImportConfigFile sourcePath s =
       (Err (ErrWrap "failed to read import file" (ErrNotExist sourcePath)), s))
  /\ (forall data, files (world s) !! sourcePath = Some data ->
      after = <[path := data]> (files (world s))
      /\ after !! path = Some data
      /\ after !! (path +:+ ".bak") = files (world s) !! (path +:+ ".bak")
      /\ forall other, other <> path -> after !! other = files (world s) !! other).
Proof.
  intros Hp Hnone after. pose proof (ImportConfigFile_fresh s sourcePath path Hp Hnone) as Hrun.
  split.
  - intros Hs. now rewrite Hrun, Hs.
  - intros data Hs.
    assert (Ha : after = <[path := data]> (files (world s))).
    { unfold after. rewrite Hrun, Hs. now rewrite LoadConfig_world. }
    rewrite Ha. split; [done|]. split; [apply lookup_insert_eq|].
    split; [rewrite lookup_insert_ne; [done|]; intros E; now apply (backup_path_fresh path)|].
    intros other Ho. now rewrite lookup_insert_ne.
Qed.

Lemma Import_without_default_witness :
  let s := mkStore emptyConfig (homeWorld {[ importPath := onlyFilterRules ]}) in
  files (world (snd (ImportConfigFile importPath s))) !! (rulesPath +:+ ".bak") = None.
Proof.
  intros s.
  destruct (Import_without_default s importPath rulesPath) as [_ H];
    [reflexivity | reflexivity|].
  destruct (H onlyFilterRules) as (_ & _ & Hb & _); [reflexivity|].
  rewrite Hb. reflexivity.
Defined.

(** What [ImportConfigFile] leaves in the files when the source is there and
    is neither the default file nor its backup path. *)
Lemma ImportConfigFile_files s sourcePath path data :
  defaultConfigPath (world s) = Some path ->
  files (world s) !! sourcePath = Some data ->
  sourcePath <> path -> sourcePath <> path +:+ ".bak" ->
  let before :=
    match files (world s) !! path with
    | Some old => <[path +:+ ".bak" := old]> (delete path (files (world s)))
    | None => files (world s)
    end in
  ImportConfigFile sourcePath s =
    LoadConfig (mkStore (config s) (mkWorld (Some path) (<[path := data]> before))).
Proof.
  intros Hp Hs Hne Hnb before. subst before.
  destruct (files (world s) !! path) as [old|] eqn:Hold.
  - rewrite (ImportConfigFile_run s sourcePath path old Hp Hold). cbn zeta.
    now rewrite lookup_insert_ne, lookup_delete_ne, Hs by done.
  - now rewrite (ImportConfigFile_fresh s sourcePath path Hp Hold), Hs.
Qed.

Lemma SaveConfigAs_run s p :
  SaveConfigAs p s =
  (Ok tt, mkStore (config s)
            (mkWorld (defaultConfigPath (world s))
               (<[p := Json.MarshalIndent (config s)]> (files (world s))))).
Proof. reflexivity. Qed.

(** X5. Exporting the document with [SaveConfigAs] to a path other than the
    default file and its backup path writes that file only; importing the
    exported file then succeeds, makes the default file a copy of the export,
    and leaves the manager, whatever it held, with the exported document (its
    strings coerced to valid UTF-8, so the very document when they are
    valid). *)
Theorem export_then_import (s : Store) (c' : Config) (p path : string) :
  defaultConfigPath (world s) = Some path ->
  p <> path -> p <> path +:+ ".bak" ->
  let exported := snd (SaveConfigAs p s) in
  let imported := ImportConfigFile p (mkStore c' (world exported)) in
  fst (SaveConfigAs p s) = Ok tt
  /\ config exported = config s
  /\ (forall other, other <> p -> files (world exported) !! other = files (world s) !! other)
  /\ fst imported = Ok tt
  /\ config (snd imported) = coerceConfig (config s)
  /\ files (world (snd imported)) !! path = Some (Json.MarshalIndent (config s))
  /\ files (world (snd imported)) !! p = Some (Json.MarshalIndent (config s))
  /\ files (world (snd imported)) !! (path +:+ ".bak") =
       match files (world s) !! path with
       | Some old => Some old
       | None => files (world s) !! (path +:+ ".bak")
       end
  /\ (ValidConfig (config s) = true -> config (snd imported) = config s).
Proof.
  intros Hp Hne Hnb exported imported.
  assert (Hex : exported = mkStore (config s)
            (mkWorld (defaultConfigPath (world s))
               (<[p := Json.MarshalIndent (config s)]> (files (world s)))))
    by reflexivity.
  split; [done|]. split; [done|].
  split; [intros other Ho; rewrite Hex; cbn; now rewrite lookup_insert_ne|].
  pose proof (backup_path_fresh path) as Hbak.
  set (m := Json.MarshalIndent (config s)) in *.
  assert (Hrun := ImportConfigFile_files (mkStore c' (world exported)) p path m).
  cbn zeta in Hrun. rewrite Hex in Hrun. cbn [world config defaultConfigPath files] in Hrun.
  rewrite lookup_insert_eq in Hrun. specialize (Hrun Hp eq_refl Hne Hnb).
  rewrite lookup_insert_ne in Hrun by done.
  set (before := match files (world s) !! path with
                 | Some old => <[path +:+ ".bak" := old]> (delete path (<[p := m]> (files (world s))))
                 | None => <[p := m]> (files (world s))
                 end) in *.
  assert (Hload : imported =
            (Ok tt, mkStore (coerceConfig (config s)) (mkWorld (Some path) (<[path := m]> before)))).
  { unfold imported. rewrite Hex. cbn [world]. rewrite Hrun.
    apply (LoadConfig_holds _ _ path). split; [done | apply lookup_insert_eq]. }
  rewrite Hload. cbn [fst snd config world files].
  split; [done|]. split; [done|]. split; [apply lookup_insert_eq|].
  split; [|split].
  - rewrite lookup_insert_ne by done. unfold before.
    destruct (files (world s) !! path).
    + rewrite lookup_insert_ne, lookup_delete_ne by done. apply lookup_insert_eq.
    + apply lookup_insert_eq.
  - rewrite lookup_insert_ne by done. unfold before.
    destruct (files (world s) !! path).
    + apply lookup_insert_eq.
    + now rewrite lookup_insert_ne.
  - intros Hv. now apply coerceConfig_valid.
Qed.

Lemma export_then_import_witness :
  config (snd (ImportConfigFile exportPath
    (mkStore emptyConfig (world (snd (SaveConfigAs exportPath (mkStore abcConfig abcWorld)))))))
  = abcConfig.
Proof.
  destruct (export_then_import (mkStore abcConfig abcWorld) emptyConfig exportPath rulesPath)
    as (_ & _ & _ & _ & _ & _ & _ & _ & H);
    [reflexivity | discriminate | discriminate|].
  apply H. reflexivity.
Defined.

(** X6. Importing a file that is not JSON, with a default file in place,
    fails with the syntax error after the files have changed: the default
    file now holds the bad bytes and the backup holds the old default bytes,
    while the manager's document is as before.  From then on [LoadConfig] and
    every [Add], [Update] and [Delete] return the same error and change
    nothing. *)
Theorem bad_import_blocks_edits (s : Store) (sourcePath path old data : string)
    (rule : FirewallRule) (fwd : PortForwardingRule) (index : Z) :
  defaultConfigPath (world s) = Some path ->
  files (world s) !! path = Some old ->
  files (world s) !! sourcePath = Some data ->
  sourcePath <> path -> sourcePath <> path +:+ ".bak" ->
  Json.parse data = None ->
  let broken :=
    mkStore (config s)
      (mkWorld (Some path)
         (<[path := data]> (<[path +:+ ".bak" := old]> (delete path (files (world s)))))) in
  let failed := Err (ErrJson Json.SyntaxError) in
  ImportConfigFile sourcePath s = (failed, broken)
  /\ files (world broken) !! path = Some data
  /\ files (world broken) !! (path +:+ ".bak") = Some old
  /\ LoadConfig broken = (failed, broken)
  /\ AddFirewallRule rule broken = (failed, broken)
  /\ UpdateFirewallRule index rule broken = (failed, broken)
  /\ DeleteFirewallRule index broken = (failed, broken)
  /\ AddPortForwardingRule fwd broken = (failed, broken)
  /\ UpdatePortForwardingRule index fwd broken = (failed, broken)
  /\ DeletePortForwardingRule index broken = (failed, broken).
Proof.
  intros Hp Hold Hs Hne Hnb Hparse broken failed.
  assert (Hl : LoadConfig broken = (failed, broken)).
  { unfold LoadConfig, bind, getDefaultConfigPath, getFiles, getConfig, setConfig, broken.
    cbn [world config defaultConfigPath files]. rewrite lookup_insert_eq.
    unfold Json.Unmarshal. now rewrite Hparse. }
  split.
  { rewrite (ImportConfigFile_files s sourcePath path data Hp Hs Hne Hnb), Hold. exact Hl. }
  split; [apply lookup_insert_eq|].
  split.
  { unfold broken. cbn [world files]. rewrite lookup_insert_ne; [apply lookup_insert_eq|].
    intros E. symmetry in E. now apply (backup_path_fresh path). }
  split; [exact Hl|].
  unfold AddFirewallRule, UpdateFirewallRule, DeleteFirewallRule, AddPortForwardingRule,
    UpdatePortForwardingRule, DeletePortForwardingRule, bind.
  now rewrite Hl.
Qed.

Lemma bad_import_blocks_edits_witness :
  let s := mkStore abcConfig (homeWorld (<[importPath := "not json"%string]> (files abcWorld))) in
  AddFirewallRule webRule (snd (ImportConfigFile importPath s)) =
  (Err (ErrJson Json.SyntaxError), snd (ImportConfigFile importPath s)).
Proof.
  intros s.
  destruct (bad_import_blocks_edits s importPath rulesPath (Json.MarshalIndent abcConfig)
              "not json" webRule webFwd 0) as (Hi & _ & _ & _ & Ha & _);
    [reflexivity | reflexivity | reflexivity | discriminate | discriminate | reflexivity|].
  rewrite Hi. exact Ha.
Defined.

(** X7. One backup is kept: after two imports the backup holds the bytes of
    the first imported file (what the default file was just before the second
    import), the default file holds the bytes of the second, and the backup
    of the first import is overwritten. *)
Theorem second_import_overwrites_backup (s : Store) (c' : Config)
    (first second path old bytes1 bytes2 : string) :
  defaultConfigPath (world s) = Some path ->
  files (world s) !! path = Some old ->
  files (world s) !! first = Some bytes1 ->
  files (world s) !! second = Some bytes2 ->
  first <> path -> first <> path +:+ ".bak" ->
  second <> path -> second <> path +:+ ".bak" ->
  let once := world (snd (ImportConfigFile first s)) in
  let twice := world (snd (ImportConfigFile second (mkStore c' once))) in
  files once !! (path +:+ ".bak") = Some old
  /\ files once !! path = Some bytes1
  /\ files twice !! (path +:+ ".bak") = Some bytes1
  /\ files twice !! path = Some bytes2.
Proof.
  intros Hp Hold H1 H2 Hn1 Hb1 Hn2 Hb2 once twice.
  pose proof (backup_path_fresh path) as Hbak.
  assert (Ho : once = mkWorld (Some path)
            (<[path := bytes1]> (<[path +:+ ".bak" := old]> (delete path (files (world s)))))).
  { unfold once. rewrite (ImportConfigFile_files s first path bytes1 Hp H1 Hn1 Hb1), Hold.
    now rewrite LoadConfig_world. }
  assert (H2' : files once !! second = Some bytes2).
  { rewrite Ho. cbn [files]. now rewrite !lookup_insert_ne, lookup_delete_ne by done. }
  assert (Ht : twice = mkWorld (Some path)
            (<[path := bytes2]> (<[path +:+ ".bak" := bytes1]> (delete path (files once))))).
  { unfold twice.
    rewrite (ImportConfigFile_files (mkStore c' once) second path bytes2);
      [|now rewrite Ho | exact H2' | done | done].
    cbn [world]. rewrite LoadConfig_world. cbn [world].
    replace (files once !! path) with (Some bytes1); [done|].
    rewrite Ho. cbn [files]. now rewrite lookup_insert_eq. }
  rewrite Ht, Ho. cbn [files].
  split; [now rewrite lookup_insert_ne, lookup_insert_eq by done|].
  split; [apply lookup_insert_eq|].
  split; [now rewrite lookup_insert_ne, lookup_insert_eq by done | apply lookup_insert_eq].
Qed.

Lemma second_import_overwrites_backup_witness :
  let s := mkStore abcConfig
             (homeWorld (<[importPath := onlyFilterRules]>
                           (<[exportPath := Json.MarshalIndent emptyConfig]> (files abcWorld)))) in
  files (world (snd (ImportConfigFile exportPath
          (mkStore emptyConfig (world (snd (ImportConfigFile importPath s)))))))
    !! (rulesPath +:+ ".bak") = Some onlyFilterRules.
Proof.
  intros s.
  destruct (second_import_overwrites_backup s emptyConfig importPath exportPath rulesPath
              (Json.MarshalIndent abcConfig) onlyFilterRules (Json.MarshalIndent emptyConfig))
    as (_ & _ & H & _);
    [reflexivity | reflexivity | reflexivity | reflexivity | discriminate .. | exact H].
Defined.

(** ** Reordering: [MoveFirewallRule], [MovePortForwardingRule] and the
    list screens' [k] and [j] keys *)

Section Moves.
Context {A : Type}.
Implicit Types (l pre post : list A) (x y : A) (from to : Z).

Lemma moveRule_unfold from to l x :
  from <> to -> 0 <= from < Z.of_nat (length l) -> 0 <= to < Z.of_nat (length l) ->
  l !! Z.to_nat from = Some x ->
  moveRule from to l =
    take (Z.to_nat to) (removeAt from l) ++ [x] ++ drop (Z.to_nat to) (removeAt from l).
Proof.
  intros Hne Hf Ht Hx. unfold moveRule.
  destruct (outOfRange_false from l) as [_ ->]; [|done].
  destruct (outOfRange_false to l) as [_ ->]; [|done]. cbn [orb].
  destruct (Z.eqb_spec from to); [done|]. now rewrite Hx.
Qed.

Lemma removeAt_insertAt_self l (i : nat) x :
  l !! i = Some x -> take i l ++ [x] ++ drop (S i) l = l.
Proof. intros H. now rewrite <- (take_drop_middle l i x H) at 3. Qed.

Lemma take_removeAt from l :
  0 <= from -> take (Z.to_nat from) (removeAt from l) = take (Z.to_nat from) l.
Proof.
  intros H. unfold removeAt.
  destruct (decide (Z.to_nat from <= length l)%nat).
  - rewrite take_app_length'; [done | now rewrite length_take_le].
  - rewrite (take_ge l), (drop_ge l), app_nil_r by lia. apply take_ge. lia.
Qed.

Lemma drop_removeAt from l :
  0 <= from -> drop (Z.to_nat from) (removeAt from l) = drop (S (Z.to_nat from)) l.
Proof.
  intros H. unfold removeAt. replace (Z.to_nat (from + 1)) with (S (Z.to_nat from)) by lia.
  destruct (decide (Z.to_nat from <= length l)%nat).
  - rewrite drop_app_length'; [done | now rewrite length_take_le].
  - rewrite (take_ge l), !(drop_ge l), app_nil_r by lia. apply drop_ge. lia.
Qed.

Lemma moveRule_back from to l : moveRule to from (moveRule from to l) = l.
Proof.
  destruct (decide (from <> to /\ 0 <= from < Z.of_nat (length l)
                    /\ 0 <= to < Z.of_nat (length l))) as [(Hne & Hf & Ht)|Hno].
  - destruct (moveRule_moves from to l Hne Hf Ht) as (Hlen & Hat & Hrest & _).
    destruct (lookup_lt_is_Some_2 l (Z.to_nat from)) as [x Hx]; [lia|].
    rewrite (moveRule_unfold to from (moveRule from to l) x); try lia;
      [|now rewrite Hat].
    rewrite Hrest, take_removeAt, drop_removeAt by lia.
    now apply removeAt_insertAt_self.
  - rewrite (moveRule_noop from to l) by lia. apply moveRule_noop. lia.
Qed.

Lemma moveRule_Permutation from to l : moveRule from to l ≡ₚ l.
Proof.
  destruct (decide (from <> to /\ 0 <= from < Z.of_nat (length l)
                    /\ 0 <= to < Z.of_nat (length l))) as [(Hne & Hf & Ht)|Hno].
  - destruct (lookup_lt_is_Some_2 l (Z.to_nat from)) as [x Hx]; [lia|].
    rewrite (moveRule_unfold from to l x) by done.
    transitivity (x :: removeAt from l).
    + cbn [app]. now rewrite <- Permutation_middle, take_drop.
    + rewrite <- (removeAt_insertAt_self l (Z.to_nat from) x Hx) at 2.
      cbn [app]. rewrite <- Permutation_middle.
      rewrite <- (take_removeAt from l), <- (drop_removeAt from l) by lia.
      now rewrite take_drop.
  - rewrite (moveRule_noop from to l) by lia. done.
Qed.

Lemma removeAt_app_head pre x post :
  removeAt (Z.of_nat (length pre)) (pre ++ x :: post) = pre ++ post.
Proof.
  unfold removeAt. rewrite Nat2Z.id.
  replace (Z.to_nat (Z.of_nat (length pre) + 1)) with (S (length pre)) by lia.
  rewrite take_app_length. f_equal.
  change (x :: post) with ([x] ++ post). rewrite app_assoc.
  apply drop_app_length'. rewrite length_app. cbn. lia.
Qed.

Lemma moveRule_down pre x y post :
  moveRule (Z.of_nat (length pre)) (Z.of_nat (length pre) + 1) (pre ++ x :: y :: post)
  = pre ++ y :: x :: post.
Proof.
  rewrite (moveRule_unfold _ _ _ x); rewrite ?length_app; cbn [length]; try lia.
  - rewrite removeAt_app_head.
    replace (Z.to_nat (Z.of_nat (length pre) + 1)) with (length (pre ++ [y]))
      by (rewrite length_app; cbn; lia).
    change (y :: post) with ([y] ++ post). rewrite (app_assoc pre [y] post).
    rewrite take_app_length, drop_app_length. now rewrite <- app_assoc.
  - rewrite Nat2Z.id. now apply list_lookup_middle.
Qed.

Lemma moveRule_up pre x y post :
  moveRule (Z.of_nat (length pre) + 1) (Z.of_nat (length pre)) (pre ++ x :: y :: post)
  = pre ++ y :: x :: post.
Proof.
  rewrite <- (moveRule_down pre y x post) at 1. apply moveRule_back.
Qed.

End Moves.

(** X8. Moving a rule back undoes the move: [Move(to, from)] after
    [Move(from, to)] leaves the manager as it was, for every pair of indices
    (a move that does nothing is undone by one that does nothing); and a move
    only reorders, the list after it being a permutation of the list before. *)
Theorem Move_back_restores (s : Store) (from to : Z) :
  snd (MoveFirewallRule to from (snd (MoveFirewallRule from to s))) = s
  /\ snd (MovePortForwardingRule to from (snd (MovePortForwardingRule from to s))) = s
  /\ FirewallRules (config (snd (MoveFirewallRule from to s))) ≡ₚ FirewallRules (config s)
  /\ PortForwardingRules (config (snd (MovePortForwardingRule from to s)))
       ≡ₚ PortForwardingRules (config s).
Proof.
  destruct s as [[fw pf] w].
  unfold MoveFirewallRule, MovePortForwardingRule, bind, getConfig, setConfig.
  cbn [fst snd config world FirewallRules PortForwardingRules
       Json.setFirewallRules Json.setPortForwardingRules].
  rewrite !moveRule_back. repeat split; apply moveRule_Permutation.
Qed.

(** X9. The [k] and [j] keys of the two list screens move the selected rule
    by one position, which exchanges it with its neighbour: with the rules
    [x] and [y] next to each other, moving [x] down and moving [y] up both
    give the list with [y] before [x] and every other rule in place.  The
    port forwarding screen calls the method with no check of its own: on the
    first rule [k] asks for position -1 and on the last rule [j] for the
    position after the end, and the document is left as it is. *)
Theorem Move_by_one_swaps (pre post : list FirewallRule) (x y : FirewallRule)
    (fwds : list PortForwardingRule) (fw : list FirewallRule)
    (before after : list PortForwardingRule) (a b : PortForwardingRule) (w : World) :
  let idx := Z.of_nat (length pre) in
  let s := mkStore (mkConfig (pre ++ x :: y :: post) fwds) w in
  let swapped := mkStore (mkConfig (pre ++ y :: x :: post) fwds) w in
  let pidx := Z.of_nat (length before) in
  let p := mkStore (mkConfig fw (before ++ a :: b :: after)) w in
  let pswapped := mkStore (mkConfig fw (before ++ b :: a :: after)) w in
  MoveFirewallRule idx (idx + 1) s = (Ok tt, swapped)
  /\ MoveFirewallRule (idx + 1) (idx + 1 - 1) s = (Ok tt, swapped)
  /\ MovePortForwardingRule pidx (pidx + 1) p = (Ok tt, pswapped)
  /\ MovePortForwardingRule (pidx + 1) (pidx + 1 - 1) p = (Ok tt, pswapped)
  /\ MovePortForwardingRule 0 (0 - 1) p = (Ok tt, p)
  /\ (let last := Z.of_nat (length (PortForwardingRules (config p))) - 1 in
      MovePortForwardingRule last (last + 1) p = (Ok tt, p)).
Proof.
  intros idx s swapped pidx p pswapped.
  unfold MoveFirewallRule, MovePortForwardingRule, bind, getConfig, setConfig, s, p.
  cbn [fst snd config world FirewallRules PortForwardingRules
       Json.setFirewallRules Json.setPortForwardingRules].
  replace (idx + 1 - 1) with idx by lia. replace (pidx + 1 - 1) with pidx by lia.
  unfold idx, pidx. rewrite !moveRule_down, !moveRule_up.
  repeat split.
  - rewrite moveRule_noop; [done | lia].
  - rewrite moveRule_noop; [done | lia].
Qed.

(** ** The lines the compiler writes, read by [ParseLiveRules] *)



Section ReadBack.

Ltac split_any x :=
  let E := fresh "E" in
  destruct (isAny x) eqn:E; [apply isAny_true in E; subst x|].

Ltac part_facts lem :=
  repeat first [apply Forall_nil | apply Forall_cons; split];
  first [reflexivity | now apply lem].

(** One written line: it has no line feed, and [ParseLiveRules] reads from
    it what [readBack] says. *)
Lemma parseLine_written rule proto :
  isToken (Action rule) = true -> isToken (Direction rule) = true ->
  isToken (Interface rule) = true -> isToken (Source rule) = true ->
  isToken (Destination rule) = true -> isToken (Port rule) = true ->
  isToken proto = true ->
  countNl (Join (ruleParts rule proto) " ") = 0%nat
  /\ parseLine (Join (ruleParts rule proto) " ") = Returns (readBack rule proto).
Proof.
  destruct rule as [A D q I P S T Po k De].
  cbn [Action Direction Quick Interface Protocol Source Destination Port KeepState Description].
  intros HA HD HI HS HT HPo Hp.
  pose proof (isToken_portStr Po HPo) as HPs.
  unfold parseLine, readBack, ruleParts, headParts, protoParts, addrParts, portParts, stateParts.
  cbn [Action Direction Quick Interface Protocol Source Destination Port KeepState Description].
  rewrite countNl_Join, Fields_Join.
  (destruct (isAny proto) eqn:Ep;
     [apply isAny_true in Ep; subst proto
     |destruct (String.eqb proto "tcp"), (String.eqb proto "udp")]);
    destruct q, k; split_any I; split_any S; split_any T; split_any Po;
    cbn [andb orb negb app isAny String.eqb Ascii.eqb Bool.eqb];
    (rewrite TrimSpace_wordy by (apply wordy_Join; part_facts wordy_token));
    cbn [map concat app]; rewrite ?Fields_keep_state;
    rewrite !Fields_token by (assumption || reflexivity);
    unfold list_sum; cbn [map fold_right];
    rewrite ?(countNl_token A HA), ?(countNl_token D HD), ?(countNl_token I HI),
      ?(countNl_token S HS), ?(countNl_token T HT), ?(countNl_token _ HPs),
      ?(countNl_token proto Hp);
    (split; reflexivity).
Qed.

Lemma forallb_Forall {A} (f : A -> bool) (l : list A) :
  forallb f l = true -> Forall (fun x => f x = true) l.
Proof.
  induction l as [|x l IH]; [constructor|]. cbn [forallb].
  intros [Hx Hl]%andb_true_iff. constructor; auto.
Qed.

Lemma andThen_cons rule rules next :
  andThen [rule] (andThen rules next) = andThen (rule :: rules) next.
Proof. now destruct next. Qed.

Lemma andThen_nil next : andThen [] next = next.
Proof. now destruct next. Qed.

Lemma andThen_app rules more next :
  andThen rules (andThen more next) = andThen (rules ++ more) next.
Proof. destruct next; cbn; [now rewrite app_assoc | done]. Qed.

(** A comment line of fewer than four tokens is passed over. *)
Lemma ParseLiveRules_comment d rest :
  oneLine d = true -> (length (Fields d) <? 3)%nat = true ->
  ParseLiveRules (commentLine d +:+ rest) = ParseLiveRules rest.
Proof.
  intros Hone%oneLine_zero Hlen%Nat.ltb_lt. unfold commentLine.
  destruct (String.eqb d ""); [done|].
  replace (("# " +:+ d +:+ nl) +:+ rest) with (("#" +:+ " " +:+ d) +:+ nl +:+ rest)
    by (cbn [String.append]; now rewrite !append_assoc).
  rewrite ParseLiveRules_line.
  - rewrite parseLine_short; [done|]. rewrite Fields_blank, length_app.
    change (length (Fields "#")) with 1%nat. lia.
  - rewrite !countNl_app, Hone. reflexivity.
Qed.


(** The lines written for the protocol tokens [toks] of a rule. *)
Lemma ParseLiveRules_ruleLines rule toks rest :
  isToken (Action rule) = true -> isToken (Direction rule) = true ->
  isToken (Interface rule) = true -> isToken (Source rule) = true ->
  isToken (Destination rule) = true -> isToken (Port rule) = true ->
  forallb (fun tok => isToken (TrimSpace tok)) toks = true ->
  ParseLiveRules (concatStr (map (ruleLine rule) toks) +:+ rest) =
  andThen (omap (fun tok => readBack rule (TrimSpace tok)) toks) (ParseLiveRules rest).
Proof.
  intros HA HD HI HS HT HPo. induction toks as [|tok toks IH]; intros Htoks.
  - cbn. now rewrite andThen_nil.
  - cbn [forallb] in Htoks. apply andb_true_iff in Htoks as [Htok Htoks].
    destruct (parseLine_written rule (TrimSpace tok) HA HD HI HS HT HPo Htok) as [Hnl Hline].
    cbn [map]. rewrite concatStr_cons. unfold ruleLine at 1.
    rewrite !append_assoc, (ParseLiveRules_line _ _ Hnl), Hline, (IH Htoks).
    cbn [omap list_omap]. destruct (readBack rule (TrimSpace tok)); [apply andThen_cons | done].
Qed.

Lemma ParseLiveRules_ruleText rule rest :
  cleanRule rule = true ->
  ParseLiveRules (ruleText rule +:+ rest) =
  andThen (omap (fun tok => readBack rule (TrimSpace tok)) (protocols rule))
    (ParseLiveRules rest).
Proof.
  unfold cleanRule. rewrite !andb_true_iff.
  intros [[[[[[[[Hone Hlen] HA] HD] HI] HS] HT] HPo] Htoks].
  unfold ruleText, ruleLines.
  rewrite append_assoc, (ParseLiveRules_comment _ _ Hone Hlen).
  now apply ParseLiveRules_ruleLines.
Qed.


Lemma ParseLiveRules_ruleTexts rules read :
  Forall2 (fun rule rs =>
    forall rest, ParseLiveRules (ruleText rule +:+ rest) = andThen rs (ParseLiveRules rest))
    rules read ->
  ParseLiveRules (GeneratePfConf (mkConfig rules [])) = Returns (concat read).
Proof.
  unfold GeneratePfConf. cbn [PortForwardingRules FirewallRules].
  change (concatStr (map rdrText [])) with ""%string. cbn [String.append].
  induction 1 as [|rule rs rules read Hrule _ IH]; [reflexivity|].
  cbn [map concat]. rewrite concatStr_cons. now rewrite Hrule, IH.
Qed.

Lemma exactRule_clean rule : exactRule rule = true -> cleanRule rule = true.
Proof.
  unfold exactRule, cleanRule. rewrite !andb_true_iff, !negb_true_iff.
  intros [[[[[[[[[[Hd%String.eqb_eq HA] HD] HI] _] Hp] HS] HT] HPo] Hany] _].
  rewrite Hd, HA, HD, HI, HS, HT, HPo. unfold protocols. rewrite Hany.
  apply orb_true_iff in Hp as [->%String.eqb_eq | ->%String.eqb_eq]; repeat split.
Qed.

Lemma exactRule_readBack rule :
  exactRule rule = true ->
  omap (fun tok => readBack rule (TrimSpace tok)) (protocols rule) = [rule].
Proof.
  unfold exactRule. rewrite !andb_true_iff, !negb_true_iff.
  intros [[[[[[[[[[Hd%String.eqb_eq HA] HD] HI] Hif] Hp] HS] HT] HPo] Hany] Hplain].
  destruct rule as [A D q I P S T Po k De].
  cbn [Action Direction Quick Interface Protocol Source Destination Port KeepState Description] in *.
  subst De. unfold protocols, readBack, portStr.
  cbn [Action Direction Quick Interface Protocol Source Destination Port KeepState Description].
  rewrite <- !Contains_byte in Hplain. rewrite Hplain, Hif, Hany, !andb_false_r.
  apply orb_true_iff in Hp as [->%String.eqb_eq | ->%String.eqb_eq]; reflexivity.
Qed.

End ReadBack.

(** X10. [ParseLiveRules] reads the text [GeneratePfConf] writes for filter
    rules whose fields are tokens and whose descriptions have fewer than
    three words: it returns, with one rule for each written line other than
    the comment lines and the lines [<action> <direction> all], in the order
    written.  The rule read has the action, direction, [quick] and
    [keep state] of the rule written and no description; an interface or
    protocol [any] is read as the empty string, the addresses are empty when
    the line has no [from] clause, and the port is the written port string,
    empty when the line has no [port] clause. *)
Theorem compiled_rules_read_back (rules : list FirewallRule) :
  forallb cleanRule rules = true ->
  ParseLiveRules (GeneratePfConf (mkConfig rules [])) =
  Returns (concat (map (fun rule =>
             omap (fun tok => readBack rule (TrimSpace tok)) (protocols rule)) rules)).
Proof.
  intros H%forallb_Forall. apply ParseLiveRules_ruleTexts, Forall2_fmap_r, Forall_Forall2_diag.
  eapply Forall_impl; [exact H|].
  intros rule Hrule rest. now apply ParseLiveRules_ruleText.
Qed.

Lemma compiled_rules_read_back_witness :
  ParseLiveRules (GeneratePfConf (mkConfig [webRule; sshRule] [])) =
  Returns [mkFirewallRule "pass" "in" false "" "tcp" "any" "any" "{22,80}" true "";
           mkFirewallRule "pass" "in" false "" "udp" "any" "any" "{22,80}" true "";
           sshRule].
Proof.
  rewrite (compiled_rules_read_back [webRule; sshRule]) by reflexivity. reflexivity.
Defined.

(** X11. A document of filter rules that name everything (an interface other
    than [any], protocol [tcp] or [udp], token addresses, a single port with
    no comma, hyphen or colon, no description) is read back from its compiled
    text exactly: [ParseLiveRules] returns the rules [GeneratePfConf] was
    given. *)
Theorem exact_rules_round_trip (rules : list FirewallRule) :
  forallb exactRule rules = true ->
  ParseLiveRules (GeneratePfConf (mkConfig rules [])) = Returns rules.
Proof.
  intros H.
  rewrite (ParseLiveRules_ruleTexts rules (map (fun rule => [rule]) rules)).
  - f_equal. induction rules as [|rule rules IH]; [done|].
    cbn [map concat app forallb] in *. apply andb_true_iff in H as [_ H]. now rewrite IH.
  - apply Forall2_fmap_r, Forall_Forall2_diag. apply forallb_Forall in H.
    eapply Forall_impl; [exact H|]. intros rule Hrule rest.
    rewrite <- (exactRule_readBack rule Hrule).
    apply ParseLiveRules_ruleText. now apply exactRule_clean.
Qed.

Lemma exact_rules_round_trip_witness :
  ParseLiveRules (GeneratePfConf (mkConfig [sshRule; sshRule] [])) = Returns [sshRule; sshRule].
Proof. apply (exact_rules_round_trip [sshRule; sshRule]). reflexivity. Defined.

(** ** When [ParseLiveRules] returns *)

Section Safety.

Lemma last_tail {A} (x : A) (l : list A) (t : A) :
  last l = Some t -> last (x :: l) = Some t.
Proof. intros H. rewrite last_cons. now rewrite H. Qed.

Lemma takesValue_true tok :
  tok = "on"%string \/ tok = "proto"%string \/ tok = "from"%string
    \/ tok = "to"%string \/ tok = "port"%string ->
  takesValue tok = true.
Proof. intros [->|[->|[->|[->| ->]]]]; reflexivity. Qed.

(** The loop over the tokens of a line whose last token takes no value:
    it returns, and the first two tokens and the description stay. *)
Lemma scanParts_safe n : forall rest rule,
  (length rest <= n)%nat ->
  (forall tok, last rest = Some tok -> takesValue tok = false) ->
  exists r, scanParts rest rule = Returns r
    /\ Action r = Action rule /\ Direction r = Direction rule
    /\ Description r = Description rule.
Proof.
  induction n as [n IH] using lt_wf_ind. intros rest rule Hlen Hlast.
  destruct rest as [|tok rest1]; [now exists rule|].
  cbn [length] in Hlen.
  assert (Hnext : forall rule', exists r, scanParts rest1 rule' = Returns r
            /\ Action r = Action rule' /\ Direction r = Direction rule'
            /\ Description r = Description rule').
  { intros rule'. apply (IH (length rest1)); [lia | lia |].
    intros t Ht. apply Hlast. now apply last_tail. }
  assert (Hvalue : forall set : string -> FirewallRule -> FirewallRule,
            (forall v r, Action (set v r) = Action r /\ Direction (set v r) = Direction r
                         /\ Description (set v r) = Description r) ->
            takesValue tok = true ->
            exists r, match rest1 with
                      | [] => Panics IndexOutOfRange
                      | v :: rest2 => scanParts rest2 (set v rule)
                      end = Returns r
              /\ Action r = Action rule /\ Direction r = Direction rule
              /\ Description r = Description rule).
  { intros set Hset Htok. destruct rest1 as [|v rest2].
    - rewrite (Hlast tok eq_refl) in Htok. discriminate.
    - destruct (IH (length rest2)) with (rest := rest2) (rule := set v rule)
        as (r & Hr & Ha & Hd & He); [cbn [length] in Hlen; lia | lia | |].
      + intros t Ht. apply Hlast. now apply last_tail, last_tail.
      + exists r. destruct (Hset v rule) as (Ea & Ed & Ee).
        rewrite Ea in Ha. rewrite Ed in Hd. rewrite Ee in He. done. }
  cbn [scanParts].
  destruct (String.eqb tok "quick"); [apply (Hnext (setQuick true rule))|].
  destruct (String.eqb_spec tok "on");
    [apply (Hvalue setInterface); [done | apply takesValue_true; tauto]|].
  destruct (String.eqb_spec tok "proto");
    [apply (Hvalue setProtocol); [done | apply takesValue_true; tauto]|].
  destruct (String.eqb_spec tok "from");
    [apply (Hvalue setSource); [done | apply takesValue_true; tauto]|].
  destruct (String.eqb_spec tok "to");
    [apply (Hvalue setDestination); [done | apply takesValue_true; tauto]|].
  destruct (String.eqb_spec tok "port");
    [apply (Hvalue setPort); [done | apply takesValue_true; tauto]|].
  destruct (String.eqb tok "keep"); [|apply (Hnext rule)].
  destruct rest1 as [|v rest2]; [now eexists|].
  destruct (IH (length rest2)) with (rest := rest2) (rule := setKeepState true rule)
    as (r & Hr & Ha & Hd & He); [cbn [length] in Hlen; lia | lia | |].
  - intros t Ht. apply Hlast. now apply last_tail, last_tail.
  - now exists r.
Qed.

Lemma parseLine_safe line :
  safeLine line = true ->
  (isRuleLine line = false /\ parseLine line = Returns None)
  \/ (isRuleLine line = true
      /\ exists r rest, parseLine line = Returns (Some r)
           /\ Fields line = Action r :: Direction r :: rest
           /\ Description r = ""%string).
Proof.
  unfold safeLine, isRuleLine, parseLine. intros H.
  destruct (String.eqb (TrimSpace line) ""); [now left|].
  destruct (length (Fields line) <? 4)%nat eqn:Hlen; [now left|].
  right. split; [done|]. cbn [negb andb orb] in H.
  destruct (Fields line) as [|action [|direction rest]] eqn:Hf; [done | done |].
  destruct (scanParts_safe (length rest) rest
              (setDirection direction (setAction action zeroRule)))
    as (r & Hr & Ha & Hd & He); [lia | |].
  - intros tok Htok.
    assert (Hl : last (action :: direction :: rest) = Some tok)
      by now apply last_tail, last_tail.
    rewrite Hl in H. now apply negb_true_iff in H.
  - exists r, rest. rewrite Hr, Ha, Hd, He. done.
Qed.

Lemma parseLines_safe lines :
  forallb safeLine lines = true ->
  exists rules, parseLines lines [] = Returns rules
    /\ Forall2 (fun line r => exists rest,
                  Fields line = Action r :: Direction r :: rest
                  /\ Description r = ""%string)
         (List.filter isRuleLine lines) rules.
Proof.
  induction lines as [|line lines IH]; [now exists []|].
  cbn [forallb List.filter]. intros [Hline Hrest]%andb_true_iff.
  destruct (IH Hrest) as (rules & Hrules & Hall).
  cbn [parseLines].
  destruct (parseLine_safe line Hline) as [[-> ->] | (-> & r & rest & -> & Hf & Hd)].
  - now exists rules.
  - exists (r :: rules). rewrite parseLines_acc, Hrules. split; [done|].
    constructor; [now exists rest | done].
Qed.

End Safety.

(** X12. [ParseLiveRules] returns whenever no line it reads as a rule (a
    line that is not blank and has four tokens or more) ends with one of
    [on], [proto], [from], [to], [port]: then it gives one rule for each
    such line, in the order of the lines, with the line's first token as
    action, its second as direction, and an empty description. *)
Theorem ParseLiveRules_returns (output : string) :
  forallb safeLine (Split output (ascii_of_nat 10)) = true ->
  exists rules,
    ParseLiveRules output = Returns rules
    /\ Forall2 (fun line r => exists rest,
                  Fields line = Action r :: Direction r :: rest
                  /\ Description r = ""%string)
         (List.filter isRuleLine (Split output (ascii_of_nat 10))) rules.
Proof. apply parseLines_safe. Qed.

Lemma ParseLiveRules_returns_witness :
  exists rules,
    ParseLiveRules ("pass in on en0" +:+ nl +:+ "scrub-anchor from" +:+ nl
                    +:+ "block out quick keep") = Returns rules
    /\ length rules = 2%nat.
Proof.
  destruct (ParseLiveRules_returns ("pass in on en0" +:+ nl +:+ "scrub-anchor from" +:+ nl
                                    +:+ "block out quick keep"))
    as (rules & Hr & Hall); [reflexivity|].
  exists rules. split; [exact Hr|].
  apply Forall2_length in Hall. now rewrite <- Hall.
Defined.

(** ** The commands of pf.go *)


Section Anchors.

(** Whatever was there, the three lines are in the file once the text
    built from the three tests is appended. *)
Lemma toAppend_completes content :
  let after := content +:+ toAppend (Contains content rdrAnchorLine)
                 (Contains content anchorLine) (Contains content loadAnchorLine) in
  Contains after rdrAnchorLine = true
  /\ Contains after anchorLine = true
  /\ Contains after loadAnchorLine = true.
Proof.
  cbv zeta.
  destruct (Contains content rdrAnchorLine) eqn:H1,
    (Contains content anchorLine) eqn:H2,
    (Contains content loadAnchorLine) eqn:H3;
    repeat split;
    first [now apply Contains_app_l | apply Contains_app_r; reflexivity].
Qed.

(** The anchor line is part of the two other lines. *)
Lemma anchorLine_missing content :
  Contains content anchorLine = false ->
  Contains content rdrAnchorLine = false /\ Contains content loadAnchorLine = false.
Proof.
  intros H. split.
  - destruct (Contains content rdrAnchorLine) eqn:E; [|done].
    rewrite (Contains_trans content rdrAnchorLine anchorLine E eq_refl) in H. discriminate.
  - destruct (Contains content loadAnchorLine) eqn:E; [|done].
    rewrite (Contains_trans content loadAnchorLine anchorLine E eq_refl) in H. discriminate.
Qed.

Lemma SetupPfConf_run s content :
  files (world s) !! pfConfPath = Some content ->
  let hasRdrAnchor := Contains content rdrAnchorLine in
  let hasAnchor := Contains content anchorLine in
  let hasLoadAnchor := Contains content loadAnchorLine in
  SetupPfConf false s =
  (Ok tt,
   if hasRdrAnchor && hasAnchor && hasLoadAnchor then s
   else mkStore (config s)
          (mkWorld (defaultConfigPath (world s))
             (<[pfConfPath := content +:+ toAppend hasRdrAnchor hasAnchor hasLoadAnchor]>
                (files (world s))))).
Proof.
  intros H. cbv zeta.
  unfold SetupPfConf, wrap, sudoCat, ReadFile, sudoTeeAppend, bind, getFiles, setFiles, ret.
  cbv beta iota. rewrite H. cbv beta iota.
  destruct (_ && _ && _); [done|]. now rewrite H.
Qed.

Lemma SetupPfConf_test s :
  SetupPfConf true s =
  (Ok tt,
   mkStore (config s)
     (mkWorld (defaultConfigPath (world s))
        (<[pfConfPath := default ""%string (files (world s) !! pfConfPath)
                         +:+ toAppend false false false]> (files (world s))))).
Proof. reflexivity. Qed.

Lemma SetupPfConf_missing s :
  files (world s) !! pfConfPath = None ->
  SetupPfConf false s =
  (Err (ErrWrap "failed to read /etc/pf.conf" (ErrNotExist pfConfPath)), s).
Proof.
  intros H. unfold SetupPfConf, wrap, sudoCat, ReadFile, bind, getFiles, fail.
  cbv beta iota. now rewrite H.
Qed.

End Anchors.

(** X13. [SetupPfConf] with /etc/pf.conf in place returns no error, keeps
    what the file held and appends to it (nothing when the three lines are
    there), touches no other file, and leaves the three lines in the file; a
    second call finds them and changes nothing.  Because the line
    [anchor "pf-tui"] is part of the two other lines, it is only ever added
    together with both of them.  In test mode the file is not read: the
    comment and the three lines are appended at every call, whatever the file
    holds.  Outside test mode a missing file is an error and nothing is
    written. *)
Theorem SetupPfConf_appends_once (s : Store) :
  (forall content,
     files (world s) !! pfConfPath = Some content ->
     let after := snd (SetupPfConf false s) in
     exists added,
       fst (SetupPfConf false s) = Ok tt
       /\ config after = config s
       /\ defaultConfigPath (world after) = defaultConfigPath (world s)
       /\ (forall path, path <> pfConfPath ->
           files (world after) !! path = files (world s) !! path)
       /\ files (world after) !! pfConfPath = Some (content +:+ added)
       /\ Contains (content +:+ added) rdrAnchorLine = true
       /\ Contains (content +:+ added) anchorLine = true
       /\ Contains (content +:+ added) loadAnchorLine = true
       /\ (Contains content anchorLine = false -> added = toAppend false false false)
       /\ SetupPfConf false after = (Ok tt, after))
  /\ (files (world s) !! pfConfPath = None ->
      SetupPfConf false s =
      (Err (ErrWrap "failed to read /etc/pf.conf" (ErrNotExist pfConfPath)), s))
  /\ (let after := snd (SetupPfConf true s) in
      fst (SetupPfConf true s) = Ok tt
      /\ files (world after) !! pfConfPath =
           Some (default ""%string (files (world s) !! pfConfPath)
                 +:+ toAppend false false false)
      /\ files (world (snd (SetupPfConf true after))) !! pfConfPath =
           Some ((default ""%string (files (world s) !! pfConfPath)
                  +:+ toAppend false false false) +:+ toAppend false false false)).
Proof.
  split; [|split].
  - intros content H after. subst after. rewrite (SetupPfConf_run s content H). cbv zeta.
    destruct (toAppend_completes content) as (C1 & C2 & C3). cbv zeta in C1, C2, C3.
    destruct (Contains content rdrAnchorLine && Contains content anchorLine
              && Contains content loadAnchorLine) eqn:Hall.
    + apply andb_true_iff in Hall as [[H1 H2]%andb_true_iff H3].
      exists ""%string. rewrite append_empty_r. cbn [fst snd].
      repeat split; try done.
      * intros E. rewrite E in H2. discriminate.
      * rewrite (SetupPfConf_run s content H). cbv zeta. now rewrite H1, H2, H3.
    + exists (toAppend (Contains content rdrAnchorLine) (Contains content anchorLine)
                (Contains content loadAnchorLine)).
      cbn [fst snd config world defaultConfigPath files].
      repeat split; try done.
      * intros path Hne. now rewrite lookup_insert_ne.
      * apply lookup_insert_eq.
      * intros E. destruct (anchorLine_missing content E) as [E1 E3]. now rewrite E, E1, E3.
      * erewrite SetupPfConf_run; [|cbn [world files]; apply lookup_insert_eq].
        cbv zeta. now rewrite C1, C2, C3.
  - apply SetupPfConf_missing.
  - cbv zeta. rewrite !SetupPfConf_test. cbn [fst snd world files].
    rewrite !lookup_insert_eq. repeat split.
Qed.

Lemma SetupPfConf_appends_once_witness :
  files (world (snd (SetupPfConf false (mkStore abcConfig pfWorld)))) !! pfConfPath =
  Some (stockPfConf +:+ toAppend false false false)
  /\ SetupPfConf false (snd (SetupPfConf false (mkStore abcConfig pfWorld))) =
     (Ok tt, snd (SetupPfConf false (mkStore abcConfig pfWorld))).
Proof.
  destruct (SetupPfConf_appends_once (mkStore abcConfig pfWorld)) as [H _].
  destruct (H stockPfConf eq_refl) as (added & _ & _ & _ & _ & Hf & _ & _ & _ & Ha & Hi).
  split; [|exact Hi]. rewrite Hf. now rewrite (Ha eq_refl).
Defined.

Section Applying.
Variable pfctl : string -> string * option error.

(** After [SetupPfConf] left the store with the same document and default
    path: the document is saved, then the rules are applied. *)
Lemma save_then_apply testMode s path :
  defaultConfigPath (world s) = Some path ->
  (do _ <- SaveConfig;
   do c <- getConfig;
   do _ <- wrap "failed to apply rules" (ApplyRules pfctl testMode (GeneratePfConf c));
   ret "Configuration saved and applied to the system."%string) s =
  let saved := <[path := Json.MarshalIndent (config s)]> (files (world s)) in
  if testMode
  then (Ok "Configuration saved and applied to the system."%string,
        mkStore (config s) (mkWorld (Some path) saved))
  else (match snd (pfctl (GeneratePfConf (config s))) with
        | None => Ok "Configuration saved and applied to the system."%string
        | Some e => Err (ErrWrap "failed to apply rules" e)
        end,
        mkStore (config s)
          (mkWorld (Some path) (<[anchorFile := GeneratePfConf (config s)]> saved))).
Proof.
  intros Hp. unfold bind at 1. rewrite (SaveConfig_run s path Hp).
  unfold written, ApplyRules, wrap, WriteFile, bind, getConfig, getFiles, setFiles, ret, fail.
  cbv beta iota zeta. cbn [config world files defaultConfigPath]. rewrite Hp.
  destruct testMode; [done|].
  cbv beta iota. cbn [config world files defaultConfigPath].
  destruct (pfctl (GeneratePfConf (config s))) as [out [e|]]; reflexivity.
Qed.

Lemma saveAndApplyRules_run testMode s :
  saveAndApplyRules pfctl testMode s =
  match SetupPfConf testMode s with
  | (Ok _, s') =>
      (do _ <- SaveConfig;
       do c <- getConfig;
       do _ <- wrap "failed to apply rules" (ApplyRules pfctl testMode (GeneratePfConf c));
       ret "Configuration saved and applied to the system."%string) s'
  | (Err e, s') => (Err e, s')
  end.
Proof. reflexivity. Qed.

End Applying.

(** X14. [saveAndApplyRules] does its steps in order and undoes none.  With
    no /etc/pf.conf (outside test mode) it stops at the first step: the
    document is not saved and no file changes.  With the file there, the
    document is written to the default file and its compiled text to the
    anchor file before [pfctl] is asked, so both are in place also when
    [pfctl] rejects the rules and the command returns that error.  In test
    mode the document is saved and the anchor file is left alone, while
    /etc/pf.conf still receives the anchor block. *)
Theorem saveAndApplyRules_order (pfctl : string -> string * option error) (s : Store) :
  (files (world s) !! pfConfPath = None ->
   saveAndApplyRules pfctl false s =
   (Err (ErrWrap "failed to read /etc/pf.conf" (ErrNotExist pfConfPath)), s))
  /\ (forall content path,
        files (world s) !! pfConfPath = Some content ->
        defaultConfigPath (world s) = Some path ->
        path <> anchorFile ->
        let r := saveAndApplyRules pfctl false s in
        fst r = match snd (pfctl (GeneratePfConf (config s))) with
                | None => Ok "Configuration saved and applied to the system."%string
                | Some e => Err (ErrWrap "failed to apply rules" e)
                end
        /\ config (snd r) = config s
        /\ files (world (snd r)) !! path = Some (Json.MarshalIndent (config s))
        /\ files (world (snd r)) !! anchorFile = Some (GeneratePfConf (config s)))
  /\ (forall path,
        defaultConfigPath (world s) = Some path ->
        path <> anchorFile ->
        let r := saveAndApplyRules pfctl true s in
        fst r = Ok "Configuration saved and applied to the system."%string
        /\ config (snd r) = config s
        /\ files (world (snd r)) !! path = Some (Json.MarshalIndent (config s))
        /\ files (world (snd r)) !! anchorFile = files (world s) !! anchorFile
        /\ (path <> pfConfPath ->
            files (world (snd r)) !! pfConfPath =
            Some (default ""%string (files (world s) !! pfConfPath)
                  +:+ toAppend false false false))).
Proof.
  split; [|split].
  - intros H. now rewrite saveAndApplyRules_run, (SetupPfConf_missing s H).
  - intros content path Hc Hp Hne r. subst r.
    rewrite saveAndApplyRules_run, (SetupPfConf_run s content Hc). cbv zeta.
    destruct (_ && _ && _).
    + rewrite (save_then_apply pfctl false s path Hp). cbv zeta.
      cbn [fst snd config world files]. repeat split.
      * rewrite lookup_insert_ne by done. apply lookup_insert_eq.
      * apply lookup_insert_eq.
    + rewrite (save_then_apply pfctl false _ path) by exact Hp. cbv zeta.
      cbn [fst snd config world files]. repeat split.
      * rewrite lookup_insert_ne by done. apply lookup_insert_eq.
      * apply lookup_insert_eq.
  - intros path Hp Hne r. subst r.
    rewrite saveAndApplyRules_run, SetupPfConf_test.
    rewrite (save_then_apply pfctl true _ path) by exact Hp. cbv zeta.
    cbn [fst snd config world files]. repeat split.
    + apply lookup_insert_eq.
    + rewrite !lookup_insert_ne; [done | discriminate | done].
    + intros Hne'. rewrite lookup_insert_ne by done. apply lookup_insert_eq.
Qed.

Lemma saveAndApplyRules_order_witness :
  let r := saveAndApplyRules pfctlRejects false (mkStore abcConfig pfWorld) in
  fst r = Err (ErrWrap "failed to apply rules" (ErrNotExist "pfctl"))
  /\ files (world (snd r)) !! anchorFile = Some (GeneratePfConf abcConfig).
Proof.
  destruct (saveAndApplyRules_order pfctlRejects (mkStore abcConfig pfWorld)) as (_ & H & _).
  destruct (H stockPfConf rulesPath eq_refl eq_refl) as (H1 & _ & _ & H4); [discriminate|].
  split; [exact H1 | exact H4].
Defined.

Section CurrentRules.
Implicit Types (s line : string) (lines : list string).

Lemma Join_cons_cons e e' lines :
  Join (e :: e' :: lines) nl = e +:+ nl +:+ Join (e' :: lines) nl.
Proof. reflexivity. Qed.

Lemma Split_cons c s :
  Split (String c s) (ascii_of_nat 10) =
  if Ascii.eqb c (ascii_of_nat 10) then ""%string :: Split s (ascii_of_nat 10)
  else match Split s (ascii_of_nat 10) with
       | [] => [String c ""]
       | t :: ts => String c t :: ts
       end.
Proof. reflexivity. Qed.

(** Joining the lines of a text gives the text. *)
Lemma Join_Split s : Join (Split s (ascii_of_nat 10)) nl = s.
Proof.
  induction s as [|c s IH]; [done|]. rewrite Split_cons.
  pose proof (Split_length_pos s (ascii_of_nat 10)) as Hpos.
  destruct (Split s (ascii_of_nat 10)) as [|t ts]; [cbn in Hpos; lia|].
  destruct (Ascii.eqb_spec c (ascii_of_nat 10)) as [->|_].
  - rewrite Join_cons_cons, IH. reflexivity.
  - destruct ts as [|t' ts]; [cbn in *; now rewrite IH|].
    rewrite Join_cons_cons in *. cbn [String.append]. now rewrite IH.
Qed.

(** The lines of joined lines are those lines. *)
Lemma Split_Join line lines :
  Forall (fun l => countNl l = 0%nat) (line :: lines) ->
  Split (Join (line :: lines) nl) (ascii_of_nat 10) = line :: lines.
Proof.
  revert line. induction lines as [|l lines IH]; intros line H.
  - apply Forall_cons in H as [H _]. cbn [Join].
    induction line as [|c line IHl]; [done|]. cbn [countNl] in H. rewrite Split_cons.
    destruct (Ascii.eqb c (ascii_of_nat 10)); [discriminate|]. now rewrite IHl.
  - apply Forall_cons in H as [Hl H]. rewrite Join_cons_cons.
    rewrite (Split_line line _ Hl). now rewrite IH.
Qed.

Lemma Split_countNl s : Forall (fun l => countNl l = 0%nat) (Split s (ascii_of_nat 10)).
Proof.
  induction s as [|c s IH]; [now repeat constructor|]. rewrite Split_cons.
  destruct (Ascii.eqb c (ascii_of_nat 10)) eqn:E; [now constructor|].
  destruct (Split s (ascii_of_nat 10)) as [|t ts]; [repeat constructor; cbn; now rewrite E|].
  apply Forall_cons in IH as [Ht Hts]. constructor; [|done]. cbn [countNl]. now rewrite E, Ht.
Qed.

(** Every line of a text is a part of it. *)
Lemma Split_parts s :
  match Split s (ascii_of_nat 10) with
  | [] => False
  | t :: ts =>
      (exists post, s = t +:+ post)
      /\ Forall (fun l => exists pre post, s = pre +:+ l +:+ post) ts
  end.
Proof.
  induction s as [|c s IH]; [split; [now exists ""%string | constructor]|].
  rewrite Split_cons.
  destruct (Split s (ascii_of_nat 10)) as [|t ts]; [done|].
  destruct IH as [[post Ht] Hts].
  assert (Hshift : Forall (fun l => exists pre post, String c s = pre +:+ l +:+ post) ts).
  { eapply Forall_impl; [exact Hts|]. intros l (pre & post' & ->).
    now exists (String c pre), post'. }
  destruct (Ascii.eqb c (ascii_of_nat 10)).
  - split; [now exists (String c s)|]. constructor; [|done].
    exists (String c ""), post. now rewrite Ht at 1.
  - split; [|done]. exists post. now rewrite Ht at 1.
Qed.

Lemma Split_lines_in s x :
  Contains s x = false ->
  Forall (fun l => Contains l x = false) (Split s (ascii_of_nat 10)).
Proof.
  intros H. pose proof (Split_parts s) as Hparts.
  destruct (Split s (ascii_of_nat 10)) as [|t ts]; [done|].
  destruct Hparts as [[post Ht] Hts]. constructor.
  - destruct (Contains t x) eqn:E; [|done].
    rewrite Ht, (Contains_app_l t x post E) in H. discriminate.
  - eapply Forall_impl; [exact Hts|]. intros l (pre & post' & Hl).
    destruct (Contains l x) eqn:E; [|done].
    rewrite Hl, (Contains_app_r pre _ x (Contains_app_l l x post' E)) in H. discriminate.
Qed.

Lemma filter_all {A} (f : A -> bool) (l : list A) :
  Forall (fun x => f x = true) l -> List.filter f l = l.
Proof.
  induction 1 as [|x l Hx _ IH]; [done|]. cbn [List.filter]. now rewrite Hx, IH.
Qed.

Lemma filter_Forall {A} (f : A -> bool) (P : A -> Prop) (l : list A) :
  Forall P l -> Forall (fun x => P x /\ f x = true) (List.filter f l).
Proof.
  induction 1 as [|x l Hx _ IH]; [constructor|]. cbn [List.filter].
  destruct (f x) eqn:E; [constructor|]; done.
Qed.

End CurrentRules.

(** X15. Outside test mode [GetCurrentRules] gives back the output of
    [pfctl -s rules] without the lines that contain [ALTQ]: the lines of the
    result are the other lines of the output, in their order (the result is
    empty when no line is left), no line of the result contains [ALTQ], and
    an output with no [ALTQ] in it is returned as it is.  An error of the
    command is returned with no text. *)
Theorem GetCurrentRules_filters (out : string) (e : error) :
  let kept := List.filter (fun line => negb (Contains line "ALTQ"))
                (Split out (ascii_of_nat 10)) in
  exists result,
    GetCurrentRules false (Ok out) = Ok result
    /\ (kept <> [] -> Split result (ascii_of_nat 10) = kept)
    /\ (kept = [] -> result = ""%string)
    /\ Forall (fun line => Contains line "ALTQ" = false) (Split result (ascii_of_nat 10))
    /\ (Contains out "ALTQ" = false -> result = out)
    /\ GetCurrentRules false (Err e) = Err e.
Proof.
  intros kept. exists (Join kept nl). split; [reflexivity|].
  assert (Hkept : Forall (fun l => countNl l = 0%nat /\ negb (Contains l "ALTQ") = true) kept)
    by apply filter_Forall, Split_countNl.
  assert (Hlines : kept <> [] -> Split (Join kept nl) (ascii_of_nat 10) = kept).
  { destruct kept as [|line lines]; [done|]. intros _. apply Split_Join.
    eapply Forall_impl; [exact Hkept|]. now intros l [Hl _]. }
  split; [exact Hlines|]. split; [now intros ->|]. split; [|split; [|reflexivity]].
  - destruct kept as [|line lines] eqn:E; [now repeat constructor|].
    rewrite Hlines by done. eapply Forall_impl; [exact Hkept|].
    intros l [_ Hl]. now apply negb_true_iff in Hl.
  - intros H. unfold kept. rewrite filter_all; [apply Join_Split|].
    eapply Forall_impl; [exact (Split_lines_in out "ALTQ" H)|].
    intros l Hl. cbv beta. now rewrite Hl.
Qed.

Lemma GetCurrentRules_filters_witness :
  GetCurrentRules false (Ok ("pass in all" +:+ nl +:+ "block out all")) =
  Ok ("pass in all" +:+ nl +:+ "block out all").
Proof.
  destruct (GetCurrentRules_filters ("pass in all" +:+ nl +:+ "block out all") ErrHomeDir)
    as (result & Hr & _ & _ & _ & Hsame & _).
  rewrite Hr. f_equal. apply Hsame. reflexivity.
Defined.

(** X16. The bytes [SaveConfig] and [SaveConfigAs] write determine the
    document: two documents whose strings are valid UTF-8 and that are
    written as the same bytes are the same document, rule for rule and field
    for field. *)
Theorem saved_bytes_determine_document (c1 c2 : Config) (s1 s2 : Store) (path : string) :
  ValidConfig c1 = true -> ValidConfig c2 = true ->
  files (world (snd (SaveConfigAs path (mkStore c1 (world s1))))) !! path =
  files (world (snd (SaveConfigAs path (mkStore c2 (world s2))))) !! path ->
  c1 = c2.
Proof.
  intros H1 H2. rewrite !SaveConfigAs_run. cbn [snd world files config].
  rewrite !lookup_insert_eq. intros E0.
  assert (E : Json.MarshalIndent c1 = Json.MarshalIndent c2) by congruence. clear E0.
  pose proof (Unmarshal_MarshalIndent c1 emptyConfig) as U1.
  pose proof (Unmarshal_MarshalIndent c2 emptyConfig) as U2.
  rewrite E, U2 in U1.
  rewrite (coerceConfig_valid c1 H1), (coerceConfig_valid c2 H2) in U1. congruence.
Qed.

Lemma saved_bytes_determine_document_witness :
  files (world (snd (SaveConfigAs exportPath (mkStore abcConfig abcWorld)))) !! exportPath =
  files (world (snd (SaveConfigAs exportPath (mkStore abcConfig pfWorld)))) !! exportPath
  /\ abcConfig = abcConfig.
Proof.
  split; [reflexivity|].
  apply (saved_bytes_determine_document abcConfig abcConfig
           (mkStore abcConfig abcWorld) (mkStore abcConfig pfWorld) exportPath);
    reflexivity.
Defined.

(** ** The status line: [GetPfStatus] *)

Section Status.
Implicit Types (s y z blank rest line : string) (lines : list string).



(** Trimming from the right end stops at the word at the latest: what is
    trimmed from [y ++ "delbanE"], the text reversed, is part of [y]. *)
Lemma trimLeftSpaceRev_word y :
  exists z, trimLeftSpaceRev (y +:+ "delbanE") = z +:+ "delbanE".
Proof.
  remember (String.length y) as n eqn:Hn. revert y Hn.
  induction n as [n IH] using lt_wf_ind. intros y Hn.
  destruct y as [|c1 r1]; [now exists ""%string|].
  cbn [String.append]. rewrite trimLeftSpaceRev_eq.
  destruct (space1 c1); [apply (IH (String.length r1)); [cbn in Hn; lia | done]|].
  destruct r1 as [|c2 r2].
  - cbn [String.append].
    rewrite (calmByte_space2 "d" c1 eq_refl), (calmByte_space3 "e" "d" c1 eq_refl).
    now exists (String c1 "").
  - cbn [String.append].
    destruct (space2 c2 c1); [apply (IH (String.length r2)); [cbn in Hn; lia | done]|].
    destruct r2 as [|c3 r3].
    + cbn [String.append]. rewrite (calmByte_space3 "d" c2 c1 eq_refl).
      now exists (String c1 (String c2 "")).
    + cbn [String.append].
      destruct (space3 c3 c2 c1); [apply (IH (String.length r3)); [cbn in Hn; lia | done]|].
      now exists (String c1 (String c2 (String c3 r3))).
Qed.


(** The status read from a line [Status:<blanks>Enabled<anything>]. *)
Lemma status_enabled blank rest :
  allBytes space1 blank = true ->
  HasPrefix (TrimSpace (TrimPrefix ("Status:" +:+ blank +:+ "Enabled" +:+ rest) "Status:"))
    "Enabled" = true.
Proof.
  intros Hb. unfold TrimPrefix. rewrite HasPrefix_app.
  change (skip (String.length "Status:") ("Status:" +:+ blank +:+ "Enabled" +:+ rest))
    with (blank +:+ "Enabled" +:+ rest).
  unfold TrimSpace. rewrite (trimLeftSpace_blank blank _ Hb).
  rewrite (trimLeftSpace_ink ("Enabled" +:+ rest)) by reflexivity.
  rewrite rev_append. change (String.rev "Enabled") with "delbanE"%string.
  destruct (trimLeftSpaceRev_word (String.rev rest)) as [z ->].
  rewrite rev_append. change (String.rev "delbanE") with "Enabled"%string.
  apply HasPrefix_app.
Qed.

Lemma statusOf_enabled before line after :
  HasPrefix line "Status:" = true ->
  HasPrefix (TrimSpace (TrimPrefix line "Status:")) "Enabled" = true ->
  statusOf (before ++ line :: after) = "Enabled"%string.
Proof.
  intros H1 H2. induction before as [|l before IH].
  - cbn [app statusOf]. now rewrite H1, H2.
  - cbn [app statusOf]. rewrite IH. destruct (HasPrefix l "Status:"); [|done].
    cbv zeta. now destruct (HasPrefix (TrimSpace (TrimPrefix l "Status:")) "Enabled").
Qed.

Lemma statusOf_disabled lines :
  Forall (fun l => Contains l "Status:" = false) lines ->
  statusOf lines = "Disabled"%string.
Proof.
  induction 1 as [|l lines Hl _ IH]; [done|]. cbn [statusOf].
  rewrite Contains_unfold in Hl. apply orb_false_iff in Hl as [-> _]. exact IH.
Qed.

End Status.

(** X17. [GetPfStatus] answers [Enabled] as soon as one line of the output
    of [pfctl -s info] is [Status:], blanks, [Enabled] and anything after it,
    whatever the other lines are; it answers [Disabled], with no error, when
    the output has no [Status:] in it, and also when the command failed with
    [pf not running] in its output; any other failure of the command is
    returned as the error. *)
Theorem GetPfStatus_reads_status_line (before after : list string) (blank rest out : string)
    (e : error) :
  (forallb oneLine before = true -> forallb oneLine after = true ->
   allBytes space1 blank = true -> oneLine blank = true -> oneLine rest = true ->
   GetPfStatus false
     (Join (before ++ ["Status:" +:+ blank +:+ "Enabled" +:+ rest] ++ after) nl, None)
   = Ok "Enabled"%string)
  /\ (Contains out "Status:" = false -> GetPfStatus false (out, None) = Ok "Disabled"%string)
  /\ (Contains out "pf not running" = true ->
      GetPfStatus false (out, Some e) = Ok "Disabled"%string)
  /\ (Contains out "pf not running" = false -> GetPfStatus false (out, Some e) = Err e).
Proof.
  split; [|split; [|split]].
  - intros Hb Ha Hblank Hb1 Hr1. unfold GetPfStatus. f_equal.
    set (line := ("Status:" +:+ blank +:+ "Enabled" +:+ rest)%string).
    assert (Hlines : Forall (fun l => countNl l = 0%nat) (before ++ [line] ++ after)).
    { apply Forall_app. split; [|apply Forall_app; split].
      - eapply Forall_impl; [exact (forallb_Forall _ _ Hb)|]. intros l. apply oneLine_zero.
      - repeat constructor. unfold line.
        rewrite !countNl_app, (oneLine_zero _ Hb1), (oneLine_zero _ Hr1). reflexivity.
      - eapply Forall_impl; [exact (forallb_Forall _ _ Ha)|]. intros l. apply oneLine_zero. }
    destruct (before ++ [line] ++ after) as [|l0 ls] eqn:E; [now destruct before|].
    rewrite (Split_Join l0 ls Hlines), <- E.
    apply statusOf_enabled; [apply HasPrefix_app | now apply status_enabled].
  - intros H. unfold GetPfStatus. f_equal.
    apply statusOf_disabled, Split_lines_in, H.
  - intros H. unfold GetPfStatus. now rewrite H.
  - intros H. unfold GetPfStatus. now rewrite H.
Qed.

Lemma GetPfStatus_reads_status_line_witness :
  GetPfStatus false
    ("No ALTQ support in kernel" +:+ nl
     +:+ "Status: Enabled for 0 days 00:10:02           Debug: Urgent" +:+ nl
     +:+ "State Table                          Total             Rate", None)
  = Ok "Enabled"%string.
Proof.
  destruct (GetPfStatus_reads_status_line ["No ALTQ support in kernel"%string]
              ["State Table                          Total             Rate"%string]
              " " " for 0 days 00:10:02           Debug: Urgent" "" ErrHomeDir) as [H _].
  apply H; reflexivity.
Defined.
